(** * Reliability pipeline: extractor, scorer, model client and runner

    A shallow embedding of the Python sources [src/parsing.py],
    [src/scoring.py], [src/llm_client.py], [src/utils.py] and
    [src/run_experiments.py], together with the properties the
    specification states about them and further properties read off
    the sources.

    Modelling conventions.
    - Python [str] values are Rocq strings; the embedding is exact on
      ASCII text.  Bytes above 127 are kept as opaque characters that are
      neither whitespace, digits nor cased letters, and that [\w] takes
      for word characters.
    - Python [float] values that enter a comparison are IEEE binary64
      numbers ([spec_float] with precision 53), with the correctly rounded
      decimal conversion of [float(str)].
    - Python is CPython 3.11 with its default settings: the conversion
      of a string of more than 4300 digits to an [int] raises.
    - Wall-clock quantities (sleep lengths, the clock) are rationals.  The
      backoff base is an [int] or a [float], which may be an infinity or
      a NaN; a finite float is taken for the rational it denotes, which
      is exact for its product with a power of two as long as that
      product is finite, and a product that is not lies outside what
      [time.sleep] accepts.  [time.sleep] refuses a NaN, converts its
      argument to a signed 64-bit count of nanoseconds and raises outside
      that range, refuses a negative length, and then leaves the sleep to
      the platform, which is a component of the world and may fail too.
      The clock moves only by the sleeps and by the time the endpoint
      takes.  The rate limit is an [int] that a float can hold.
    - Exceptions are values of [exn]; a computation that may raise returns
      a [result].
    - A store is the list of its records.  Reading and writing files and
      the construction of the SDK client are taken to succeed. *)

From Stdlib Require Import ZArith QArith Qcanon Ascii String List Bool Lia.
From Stdlib Require Import Lqa.
From Stdlib Require Import Floats.SpecFloat.
From Stdlib Require Import Numbers.DecimalString.
From stdpp Require Import base decidable option list gmap sets strings.

Local Open Scope Z_scope.

(** ** Characters *)

Module Chars.

Definition code (c : ascii) : N := N_of_ascii c.

(** [str.isspace] and the regex class [\s] on ASCII. *)
Definition is_space (c : ascii) : bool :=
  let n := code c in
  ((9 <=? n) && (n <=? 13) || (28 <=? n) && (n <=? 32))%N.

(** C [isspace], used by [float()] to trim an ASCII argument. *)
Definition is_c_space (c : ascii) : bool :=
  let n := code c in
  ((9 <=? n) && (n <=? 13) || (n =? 32))%N.

(** The regex class [\d]. *)
Definition is_digit (c : ascii) : bool :=
  let n := code c in ((48 <=? n) && (n <=? 57))%N.

Definition is_upper (c : ascii) : bool :=
  let n := code c in ((65 <=? n) && (n <=? 90))%N.

Definition is_lower (c : ascii) : bool :=
  let n := code c in ((97 <=? n) && (n <=? 122))%N.

(** The regex class [\w]: alphanumerics and the underscore. *)
Definition is_word (c : ascii) : bool :=
  is_digit c || is_upper c || is_lower c || (code c =? 95)%N
  || (128 <=? code c)%N.

(** The regex class [.] without DOTALL: anything but a line feed. *)
Definition not_newline (c : ascii) : bool := negb (code c =? 10)%N.

(** [str.lower] on one character. *)
Definition lower (c : ascii) : ascii :=
  if is_upper c then ascii_of_N (code c + 32) else c.

Definition eqb_ci (a b : ascii) : bool := Ascii.eqb (lower a) (lower b).

Definition digit_val (c : ascii) : Z := Z.of_N (code c) - 48.

End Chars.

(** ** String methods *)

Module Str.

Definition is_empty (s : string) : bool :=
  match s with EmptyString => true | _ => false end.

Fixpoint map (f : ascii -> ascii) (s : string) : string :=
  match s with
  | EmptyString => EmptyString
  | String c t => String (f c) (map f t)
  end.

Fixpoint filter (p : ascii -> bool) (s : string) : string :=
  match s with
  | EmptyString => EmptyString
  | String c t => if p c then String c (filter p t) else filter p t
  end.

Fixpoint forallb (p : ascii -> bool) (s : string) : bool :=
  match s with
  | EmptyString => true
  | String c t => p c && forallb p t
  end.

Fixpoint count (p : ascii -> bool) (s : string) : nat :=
  match s with
  | EmptyString => O
  | String c t => if p c then S (count p t) else count p t
  end.

Fixpoint take_while (p : ascii -> bool) (s : string) : string :=
  match s with
  | String c t => if p c then String c (take_while p t) else EmptyString
  | EmptyString => EmptyString
  end.

Fixpoint drop_while (p : ascii -> bool) (s : string) : string :=
  match s with
  | String c t => if p c then drop_while p t else s
  | EmptyString => EmptyString
  end.

Fixpoint take (n : nat) (s : string) : string :=
  match n, s with
  | S k, String c t => String c (take k t)
  | _, _ => EmptyString
  end.

Fixpoint drop (n : nat) (s : string) : string :=
  match n, s with
  | S k, String _ t => drop k t
  | _, _ => s
  end.

(** [s.lower()] *)
Definition lower (s : string) : string := map Chars.lower s.

(** [s.lstrip(chars)], [s.rstrip(chars)], [s.strip(chars)] for a
    character set given as a predicate. *)
Definition lstrip_by (p : ascii -> bool) (s : string) : string :=
  drop_while p s.

Fixpoint rstrip_by (p : ascii -> bool) (s : string) : string :=
  match s with
  | EmptyString => EmptyString
  | String c t =>
      match rstrip_by p t with
      | EmptyString => if p c then EmptyString else String c EmptyString
      | t' => String c t'
      end
  end.

Definition strip_by (p : ascii -> bool) (s : string) : string :=
  rstrip_by p (lstrip_by p s).

(** [s.strip()] *)
Definition strip (s : string) : string := strip_by Chars.is_space s.

Fixpoint mem (c : ascii) (set : string) : bool :=
  match set with
  | EmptyString => false
  | String d t => Ascii.eqb c d || mem c t
  end.

(** [s.strip(set)] *)
Definition strip_chars (set : string) (s : string) : string :=
  strip_by (fun c => mem c set) s.

(** [s.replace(c, empty)] for a one-character [c]. *)
Definition remove_char (c : ascii) (s : string) : string :=
  filter (fun d => negb (Ascii.eqb d c)) s.

(** [s.startswith(c)] and [s.endswith(c)] for a one-character [c]. *)
Definition starts_with (c : ascii) (s : string) : bool :=
  match s with String d _ => Ascii.eqb d c | EmptyString => false end.

Fixpoint ends_with (c : ascii) (s : string) : bool :=
  match s with
  | EmptyString => false
  | String d EmptyString => Ascii.eqb d c
  | String _ t => ends_with c t
  end.

(** [s[1:]] and [s[:-1]] *)
Definition tail (s : string) : string :=
  match s with String _ t => t | EmptyString => EmptyString end.

Fixpoint init (s : string) : string :=
  match s with
  | EmptyString => EmptyString
  | String _ EmptyString => EmptyString
  | String c t => String c (init t)
  end.

(** Is [w] a prefix of [s]?  Returns what follows it.  With [ic] the
    comparison ignores ASCII case, as under [re.IGNORECASE]. *)
Fixpoint strip_prefix (ic : bool) (w s : string) : option string :=
  match w with
  | EmptyString => Some s
  | String a w' =>
      match s with
      | String b s' =>
          if (if ic then Chars.eqb_ci a b else Ascii.eqb a b)
          then strip_prefix ic w' s' else None
      | EmptyString => None
      end
  end.

(** [old in s] for a non-empty [old]. *)
Fixpoint contains (ic : bool) (old s : string) : bool :=
  match strip_prefix ic old s with
  | Some _ => true
  | None => match s with
            | String _ t => contains ic old t
            | EmptyString => false
            end
  end.

(** [s.replace(old, new)] for a non-empty [old]: occurrences are replaced
    left to right and do not overlap.  [skip] counts the characters of an
    occurrence that is already replaced. *)
Fixpoint replace_from (old new s : string) (skip : nat) : string :=
  match s with
  | EmptyString => EmptyString
  | String c t =>
      match skip with
      | S k => replace_from old new t k
      | O =>
          match strip_prefix false old s with
          | Some _ => new +:+ replace_from old new t (String.length old - 1)
          | None => String c (replace_from old new t O)
          end
      end
  end.

Definition replace (old new s : string) : string := replace_from old new s O.

(** The number that a string of decimal digits denotes. *)
Definition int_of_digits (s : string) : Z :=
  fold_left (fun acc c => 10 * acc + Chars.digit_val c)
            (list_ascii_of_string s) 0.

(** [str(n)] for an integer. *)
Definition of_Z (n : Z) : string := NilZero.string_of_int (Z.to_int n).

End Str.

(** ** The fragment of Python's [re] the sources use

    A pattern is a sequence of atoms.  Repetition is greedy and
    backtracks; alternation tries its branches in order; there is one
    capturing group whose text is read back. *)

Module Re.

Inductive atom : Type :=
| Lit (c : ascii)                (* a literal character *)
| Star (p : ascii -> bool)       (* [cls*] *)
| Plus (p : ascii -> bool)       (* [cls+] *)
| Opt (p : ascii -> bool)        (* [cls?] *)
| Alt (ws : list string)         (* [(w1|w2|...)] over literal words *)
| GOpen                          (* start of the read-back group *)
| GClose                         (* end of the read-back group *)
| Bol                            (* [^] *)
| Eol.                           (* [$] *)

Definition lits (w : string) : list atom := List.map Lit (list_ascii_of_string w).

Section Backtracking.
Context {A : Type}.

(** Greedy [cls*] followed by the continuation [k]: take as many
    characters as possible, give them back one at a time while [k]
    fails. *)
Fixpoint star (p : ascii -> bool) (s : string) (k : string -> option A)
  : option A :=
  match s with
  | String c t =>
      if p c then
        match star p t k with
        | Some r => Some r
        | None => k s
        end
      else k s
  | EmptyString => k s
  end.

Definition plus (p : ascii -> bool) (s : string) (k : string -> option A)
  : option A :=
  match s with
  | String c t => if p c then star p t k else None
  | EmptyString => None
  end.

Definition opt (p : ascii -> bool) (s : string) (k : string -> option A)
  : option A :=
  match s with
  | String c t =>
      if p c then
        match k t with
        | Some r => Some r
        | None => k s
        end
      else k s
  | EmptyString => k s
  end.

Fixpoint alt (ic : bool) (ws : list string) (s : string)
         (k : string -> option A) : option A :=
  match ws with
  | [] => None
  | w :: ws' =>
      match (match Str.strip_prefix ic w s with
             | Some r => k r
             | None => None
             end) with
      | Some x => Some x
      | None => alt ic ws' s k
      end
  end.
End Backtracking.

(** The text between the place where the group opened ([from]) and the
    current place ([s], a suffix of [from]). *)
Definition captured (from s : string) : string :=
  Str.take (String.length from - String.length s) from.

(** Match the atoms [r] at the current place [s] of [subject].  [op] is
    the place where the group opened, [cap] the text the group caught.
    The result is the place after the match and the group's text. *)
Fixpoint match_here (ic : bool) (subject : string) (r : list atom)
         (op : option string) (cap : option string) (s : string)
  : option (string * option string) :=
  match r with
  | [] => Some (s, cap)
  | a :: r' =>
      let k := match_here ic subject r' op cap in
      match a with
      | Lit c =>
          match s with
          | String d t =>
              if (if ic then Chars.eqb_ci c d else Ascii.eqb c d)
              then k t else None
          | EmptyString => None
          end
      | Star p => star p s k
      | Plus p => plus p s k
      | Opt p => opt p s k
      | Alt ws => alt ic ws s k
      | GOpen => match_here ic subject r' (Some s) cap s
      | GClose =>
          match_here ic subject r' op
                     (match op with
                      | Some from => Some (captured from s)
                      | None => cap
                      end) s
      | Bol =>
          if (String.length s =? String.length subject)%nat then k s else None
      | Eol =>
          match s with
          | EmptyString => k s
          | String c EmptyString => if (Chars.code c =? 10)%N then k s else None
          | _ => None
          end
      end
  end.

(** [re.match(r, s)] and the text of its group, [m.group(1)]. *)
Definition match_group (ic : bool) (r : list atom) (s : string)
  : option string :=
  match match_here ic s r None None s with
  | Some (_, cap) => Some (default EmptyString cap)
  | None => None
  end.

(** [re.findall(r, s)] for a pattern with one group that matches no
    empty text: the group's text of every match, scanning left to right;
    a match starts no earlier than the end of the previous one.  [skip]
    counts the characters still covered by the previous match. *)
Fixpoint findall_from (ic : bool) (r : list atom) (subject s : string)
         (skip : nat) : list string :=
  match s with
  | EmptyString => []
  | String _ t =>
      match skip with
      | S k => findall_from ic r subject t k
      | O =>
          match match_here ic subject r None None s with
          | Some (rest, cap) =>
              default EmptyString cap ::
              findall_from ic r subject t
                (String.length s - String.length rest - 1)
          | None => findall_from ic r subject t O
          end
      end
  end.

Definition findall (ic : bool) (r : list atom) (s : string) : list string :=
  findall_from ic r s s O.

End Re.

(** ** Exceptions *)

Inductive exn : Type :=
| ValueError (msg : string)
| ZeroDivisionError (msg : string)
| RuntimeError (msg : string)
| EnvironmentError (msg : string)
| OverflowError (msg : string)
| ApiException (msg : string).

(** [str(e)] *)
Definition exn_message (e : exn) : string :=
  match e with
  | ValueError m | ZeroDivisionError m | RuntimeError m
  | EnvironmentError m | OverflowError m | ApiException m => m
  end.

Inductive result (A : Type) : Type :=
| Ret (a : A)
| Raise (e : exn).
Arguments Ret {A} a.
Arguments Raise {A} e.

Global Instance result_ret : MRet result := fun A a => Ret a.

Global Instance result_bind : MBind result := fun A B f m =>
  match m with
  | Ret a => f a
  | Raise e => Raise e
  end.

(** [try: body except (classes): handler] *)
Definition try_except {A} (body : result A) (caught : exn -> bool)
           (handler : exn -> result A) : result A :=
  match body with
  | Ret a => Ret a
  | Raise e => if caught e then handler e else Raise e
  end.

(** ** Conversion of text to an integer

    [int(s)] for a string of decimal digits.  CPython, since 3.11 and
    in its default setting, refuses a string of more than 4300 digits;
    leading zeros count. *)

Definition max_str_digits : nat := 4300.

Definition too_many_digits (n : nat) : exn :=
  ValueError
    ("Exceeds the limit (4300 digits) for integer string conversion: "
     +:+ "value has " +:+ Str.of_Z (Z.of_nat n)
     +:+ " digits; use sys.set_int_max_str_digits() to increase the limit").

Definition int_of_string (s : string) : result Z :=
  if (max_str_digits <? String.length s)%nat
  then Raise (too_many_digits (String.length s))
  else Ret (Str.int_of_digits s).

(** ** src/parsing.py *)

Module Parsing.

(** [r"ANSWER:\s*(.+)"] *)
Definition answer_re : list Re.atom :=
  Re.lits "ANSWER:" ++
  [Re.Star Chars.is_space; Re.GOpen; Re.Plus Chars.not_newline; Re.GClose].

(** [r"CONFIDENCE:\s*(\d+)"] *)
Definition confidence_re : list Re.atom :=
  Re.lits "CONFIDENCE:" ++
  [Re.Star Chars.is_space; Re.GOpen; Re.Plus Chars.is_digit; Re.GClose].

(** The class [[\d.\/\-]] *)
Definition is_numch (c : ascii) : bool :=
  Chars.is_digit c || Str.mem c "./-".

Definition unit_words : list string :=
  [ "miles"; "mph"; "km"; "km/h"; "meters"; "m"; "cm"; "feet"; "ft";
    "inches"; "in"; "liters"; "gallons"; "gal"; "hours"; "hrs"; "minutes";
    "mins"; "seconds"; "secs"; "days"; "weeks"; "months"; "years";
    "dollars"; "cents"; "percent"; "%"; "kg"; "lbs"; "pounds"; "ounces";
    "oz"; "cups"; "degrees"; "packs"; "boxes"; "slices"; "cookies";
    "stickers"; "pencils"; "widgets"; "muffins"; "roses"; "desks";
    "apples"; "bananas"; "tickets"; "crayons"; "shirts"; "employees";
    "games"; "arrangements"; "weighings"; "pourings"; "switches" ].

(** [r"^([\d.\/\-]+)\s+(miles|mph|...|switches)\.?$"]; the second group
    is never read back. *)
Definition unit_pattern : list Re.atom :=
  [ Re.Bol; Re.GOpen; Re.Plus is_numch; Re.GClose; Re.Plus Chars.is_space;
    Re.Alt unit_words; Re.Opt (Ascii.eqb "."); Re.Eol ].

(** The argument of [strip] in [parse_answer]: double quote, single
    quote, backtick and space. *)
Definition quote_chars : string := String (ascii_of_nat 34) "'` ".

(** The statements of [parse_answer] after [matches[-1]] is taken. *)
Definition normalize_answer (m : string) : string :=
  let answer := Str.strip m in
  let answer :=
    Str.strip_chars quote_chars
      (Str.remove_char "," (Str.strip (Str.lower answer))) in
  let answer :=
    if Str.ends_with "." answer then Str.strip (Str.init answer)
    else answer in
  let answer :=
    if Str.starts_with "$" answer then Str.strip (Str.tail answer)
    else answer in
  match Re.match_group true unit_pattern answer with
  | Some g => Str.strip g
  | None => answer
  end.

Definition parse_answer (raw_output : string) : option string :=
  if Str.is_empty raw_output then None
  else
    let matches := Re.findall true answer_re raw_output in
    match last matches with
    | None => None
    | Some m =>
        let answer := normalize_answer m in
        if Str.is_empty answer then None else Some answer
    end.

Definition parse_confidence (raw_output : string) : result (option Z) :=
  if Str.is_empty raw_output then Ret None
  else
    let matches := Re.findall true confidence_re raw_output in
    match last matches with
    | None => Ret None
    | Some m =>
        value ← int_of_string m;
        Ret (Some (Z.max 0 (Z.min 100 value)))
    end.

End Parsing.

(** ** Python floats *)

Module Float.

Definition float : Type := spec_float.

Definition prec : Z := 53.
Definition emax : Z := 1024.

(** The double nearest to [(-1)^neg * num / den], ties to even. *)
Definition of_ratio (neg : bool) (num den : positive) : float :=
  SFdiv prec emax (S754_finite neg num 0) (S754_finite false den 0).

(** The double nearest to [(-1)^neg * m * 10^e]. *)
Definition of_decimal (neg : bool) (m : Z) (e : Z) : float :=
  match m with
  | Zpos p =>
      match e with
      | Zneg k => of_ratio neg p (Pos.pow 10 k)
      | Z0 => of_ratio neg p 1
      | Zpos k => of_ratio neg (p * Pos.pow 10 k) 1
      end
  | _ => S754_zero neg
  end.

Definition is_zero (x : float) : bool :=
  match x with S754_zero _ => true | _ => false end.

(** [a - b], [abs(a)], [a < b] *)
Definition sub (a b : float) : float := SFsub prec emax a b.
Definition abs (a : float) : float := SFabs a.
Definition ltb (a b : float) : bool := SFltb a b.

(** [a / b]: Python raises on a zero divisor. *)
Definition div (a b : float) : result float :=
  if is_zero b then Raise (ZeroDivisionError "float division by zero")
  else Ret (SFdiv prec emax a b).

(** *** [float(s)] on an ASCII string

    Grammar, after trimming whitespace:
    [[sign] (inf | infinity | nan | number [exponent])] where
    [number] is [digitpart [.] [digitpart]] or [. digitpart],
    [digitpart] is digits with single underscores between them, and
    [exponent] is [e [sign] digitpart]; letters in any case. *)

Definition parse_sign (s : string) : bool * string :=
  match s with
  | String c t =>
      if Ascii.eqb c "+" then (false, t)
      else if Ascii.eqb c "-" then (true, t)
      else (false, s)
  | EmptyString => (false, s)
  end.

(** The rest of a digitpart after its first digit: the digits read and
    what follows them. *)
Fixpoint digits_rest (s : string) : string * string :=
  match s with
  | String c t =>
      if Chars.is_digit c then
        let '(d, r) := digits_rest t in (String c d, r)
      else if Ascii.eqb c "_" then
        match t with
        | String c' t' =>
            if Chars.is_digit c' then
              let '(d, r) := digits_rest t' in (String c' d, r)
            else (EmptyString, s)
        | EmptyString => (EmptyString, s)
        end
      else (EmptyString, s)
  | EmptyString => (EmptyString, s)
  end.

(** An optional digitpart. *)
Definition digitpart (s : string) : string * string :=
  match s with
  | String c t =>
      if Chars.is_digit c then
        let '(d, r) := digits_rest t in (String c d, r)
      else (EmptyString, s)
  | EmptyString => (EmptyString, s)
  end.

Definition eq_ci (w s : string) : bool :=
  match Str.strip_prefix true w s with
  | Some EmptyString => true
  | _ => false
  end.

(** The error of [float()]; Python's message ends with the [repr] of the
    argument, this one with the argument. *)
Definition bad_literal (s : string) : exn :=
  ValueError ("could not convert string to float: " +:+ s).

Definition of_string (s : string) : result float :=
  let t := Str.strip_by Chars.is_c_space s in
  let '(neg, u) := parse_sign t in
  if eq_ci "inf" u || eq_ci "infinity" u then Ret (S754_infinity neg)
  else if eq_ci "nan" u then Ret S754_nan
  else
    let '(ip, r1) := digitpart u in
    let '(fp, r2) :=
      if Str.starts_with "." r1 then digitpart (Str.tail r1)
      else (EmptyString, r1) in
    if Str.is_empty ip && Str.is_empty fp then Raise (bad_literal s)
    else
      let mant := Str.int_of_digits (ip +:+ fp) in
      let shift := Z.of_nat (String.length fp) in
      match r2 with
      | EmptyString => Ret (of_decimal neg mant (- shift))
      | String c r3 =>
          if Chars.eqb_ci c "e" then
            let '(eneg, r4) := parse_sign r3 in
            match digitpart r4 with
            | (String d ds, EmptyString) =>
                let e := Str.int_of_digits (String d ds) in
                Ret (of_decimal neg mant ((if eneg then - e else e) - shift))
            | _ => Raise (bad_literal s)
            end
          else Raise (bad_literal s)
      end.

End Float.

(** ** src/scoring.py *)

Module Scoring.

Definition is_value_or_zero_division (e : exn) : bool :=
  match e with
  | ValueError _ | ZeroDivisionError _ => true
  | _ => false
  end.

(** [cleaned.split("/")] when [cleaned] holds exactly one slash. *)
Definition split_slash (s : string) : string * string :=
  let not_slash c := negb (Ascii.eqb c "/") in
  (Str.take_while not_slash s, Str.tail (Str.drop_while not_slash s)).

Definition is_slash (c : ascii) : bool := Ascii.eqb c "/".

(** The body of the [try] in [normalize_numeric]. *)
Definition normalize_numeric_body (value : string) : result Float.float :=
  let cleaned :=
    Str.remove_char "%"
      (Str.remove_char "$" (Str.remove_char "," (Str.strip value))) in
  if (Str.count is_slash cleaned =? 1)%nat then
    let '(num, den) := split_slash cleaned in
    n ← Float.of_string (Str.strip num);
    d ← Float.of_string (Str.strip den);
    Float.div n d
  else Float.of_string cleaned.

Definition normalize_numeric (value : string) : result (option Float.float) :=
  try_except (x ← normalize_numeric_body value; mret (Some x))
             is_value_or_zero_division
             (fun _ => Ret None).

(** [re.sub(r"\s+", " ", text)]: every maximal run of whitespace becomes
    one space.  [in_run] tells that the run was already replaced. *)
Fixpoint collapse_from (in_run : bool) (s : string) : string :=
  match s with
  | EmptyString => EmptyString
  | String c t =>
      if Chars.is_space c then
        if in_run then collapse_from true t
        else String " " (collapse_from true t)
      else String c (collapse_from false t)
  end.

Definition collapse_spaces (s : string) : string := collapse_from false s.

(** The class [[^\w\s/:]] is what [normalize_text] deletes; this is its
    complement. *)
Definition is_kept (c : ascii) : bool :=
  Chars.is_word c || Chars.is_space c || Str.mem c "/:".

Definition normalize_text (value : string) : string :=
  let text := Str.strip (Str.lower value) in
  let text := Str.filter is_kept text in
  Str.strip (collapse_spaces text).

Inductive match_type : Type :=
| parse_failure | unknown | numeric | text_fallback | text.

Record score : Type := mk_score {
  is_correct : bool;
  is_unknown : bool;
  match_tag : match_type
}.

Definition refusals : list string :=
  ["unknown"; "i don't know"; "cannot determine"].

(** The literal [0.005]. *)
Definition tolerance : Float.float := Float.of_decimal false 5 (-3).

Definition score_answer (parsed_answer : option string)
           (ground_truth answer_type : string) : result score :=
  match parsed_answer with
  | None => Ret (mk_score false false parse_failure)
  | Some parsed_answer =>
      let normalized := Str.lower (Str.strip parsed_answer) in
      if bool_decide (normalized ∈ refusals) then
        Ret (mk_score false true unknown)
      else if String.eqb answer_type "numeric" then
        parsed_num ← normalize_numeric parsed_answer;
        truth_num ← normalize_numeric ground_truth;
        match parsed_num, truth_num with
        | Some p, Some t =>
            let is_correct :=
              Float.ltb (Float.abs (Float.sub p t)) tolerance in
            Ret (mk_score is_correct false numeric)
        | _, _ =>
            let is_correct :=
              String.eqb (normalize_text parsed_answer)
                         (normalize_text ground_truth) in
            Ret (mk_score is_correct false text_fallback)
        end
      else
        let is_correct :=
          String.eqb (normalize_text parsed_answer)
                     (normalize_text ground_truth) in
        Ret (mk_score is_correct false text)
  end.

End Scoring.

(** [range(a, b)] *)
Definition py_range (a b : Z) : list Z :=
  List.map (fun i => a + Z.of_nat i) (seq 0 (Z.to_nat (b - a))).

(** ** src/llm_client.py *)

Module Client.

Record request : Type := mk_request {
  rq_model : string;
  rq_contents : string;
  rq_temperature : Qc;
  rq_max_output_tokens : Z
}.

(** What the endpoint does with one request: it answers with a text
    (possibly none), or the SDK call raises. *)
Inductive outcome : Type :=
| Response (text : option string)
| Failure (e : exn).

(** The calls the client makes to the outside. *)
Inductive event : Type :=
| RateLimitSleep (seconds : Q)
| BackoffSleep (seconds : Q)
| Request (rq : request).

(** A number of the configuration, as the loader of the configuration
    gives it: an [int], or a [float]; a finite float is taken for the
    rational it denotes. *)
Inductive number : Type :=
| PyInt (n : Z)
| PyFloat (q : Q)
| PyInf (negative : bool)
| PyNaN.

(** The rational of a finite number; the other two have none, and 0
    stands in for it. *)
Definition value (x : number) : Q :=
  match x with
  | PyInt n => inject_Z n
  | PyFloat q => q
  | PyInf _ | PyNaN => 0
  end.

Record world : Type := mk_world {
  clock : Q;            (* [time.time()] *)
  calls : nat;          (* requests sent so far *)
  log : list event;
  sent_at : list Q;     (* the clock at each request sent, in order *)
  (* what the platform makes of a sleep of a given length begun at a
     given time, once Python has accepted the length: nothing, or an
     error *)
  platform : Q -> Q -> option exn
}.

Record client : Type := mk_client {
  model : string;
  retry_max : Z;
  retry_backoff : number;
  min_interval : Q;
  last_call_time : Q
}.

(** [LLMClient.__init__]; [api_key] is the environment's
    [GEMINI_API_KEY]. *)
Definition new_client (api_key : option string) (model : string)
           (rate_limit_rpm retry_max : Z) (retry_backoff_seconds : number)
  : result client :=
  if match api_key with
     | None | Some EmptyString => true
     | Some _ => false
     end
  then Raise (EnvironmentError
    "GEMINI_API_KEY not set. Copy .env.example to .env and add your key.")
  else if (rate_limit_rpm =? 0)%Z
  then Raise (ZeroDivisionError "float division by zero")
  else Ret {| model := model;
              retry_max := retry_max;
              retry_backoff := retry_backoff_seconds;
              min_interval := (60 / inject_Z rate_limit_rpm)%Q;
              last_call_time := 0%Q |}.

Definition str_of_last_error (e : option exn) : string :=
  match e with
  | Some e => exn_message e
  | None => "None"
  end.

Definition exhausted (c : client) (last_error : option exn) : exn :=
  RuntimeError ("API call failed after " +:+ Str.of_Z (retry_max c)
                +:+ " retries: " +:+ str_of_last_error last_error).

(** A sleep length is converted to a signed 64-bit count of
    nanoseconds. *)
Definition ns_per_second : Q := 1000000000.
Definition max_ns : Q := 9223372036854775808.

(** [self.retry_backoff * (2 ** (attempt - 1))]: with an [int] the
    product is exact; with a [float] the power is first converted to a
    float, which raises from 2^1024 on. *)
Definition backoff_product (base : number) (attempt : Z) : result number :=
  let power := 2 ^ (attempt - 1) in
  let as_float (product : number) : result number :=
    if (1024 <=? attempt - 1)%Z
    then Raise (OverflowError "int too large to convert to float")
    else Ret product in
  match base with
  | PyInt n => Ret (PyInt (n * power))
  | PyFloat q => as_float (PyFloat (q * inject_Z power))
  | PyInf negative => as_float (PyInf negative)
  | PyNaN => as_float PyNaN
  end.

Section Endpoint.

(** The model endpoint: what it does with the [n]-th request it
    receives, and how many seconds that takes. *)
Variable endpoint : nat -> request -> outcome * Q.

(** [time.sleep] on a finite length; [tag] tells the two call sites
    apart.  The length is converted to nanoseconds, which raises out of
    the 64-bit range; a negative length is refused; then the platform
    sleeps, or fails. *)
Definition sleep_seconds (tag : Q -> event) (seconds : Q) (w : world)
  : result unit * world :=
  let ns := (seconds * ns_per_second)%Q in
  if negb (Qle_bool (- max_ns) ns && Qle_bool ns max_ns) then
    (Raise (OverflowError "timestamp too large to convert to C _PyTime_t"),
     w)
  else if negb (Qle_bool 0 seconds) then
    (Raise (ValueError "sleep length must be non-negative"), w)
  else
    match platform w (clock w) seconds with
    | Some e => (Raise e, w)
    | None =>
        (Ret tt, {| clock := (clock w + seconds)%Q;
                    calls := calls w;
                    log := log w ++ [tag seconds];
                    sent_at := sent_at w;
                    platform := platform w |})
    end.

(** [time.sleep(seconds)]: a NaN is refused, an infinity is too large
    for the nanosecond count. *)
Definition time_sleep (tag : Q -> event) (seconds : number) (w : world)
  : result unit * world :=
  match seconds with
  | PyNaN => (Raise (ValueError "Invalid value NaN (not a number)"), w)
  | PyInf _ =>
      (Raise (OverflowError "timestamp too large to convert to C _PyTime_t"),
       w)
  | PyInt n => sleep_seconds tag (inject_Z n) w
  | PyFloat q => sleep_seconds tag q w
  end.

Definition wait_for_rate_limit (c : client) (w : world)
  : result unit * world :=
  let elapsed := (clock w - last_call_time c)%Q in
  if negb (Qle_bool (min_interval c) elapsed)
  then time_sleep RateLimitSleep (PyFloat (min_interval c - elapsed)) w
  else (Ret tt, w).

(** [self.client.models.generate_content(...)] *)
Definition generate_content (rq : request) (w : world) : outcome * world :=
  let '(o, seconds) := endpoint (calls w) rq in
  (o, {| clock := (clock w + seconds)%Q;
         calls := S (calls w);
         log := log w ++ [Request rq];
         sent_at := sent_at w ++ [clock w];
         platform := platform w |}).

(** The body of the [try] in [generate]. *)
Definition attempt (c : client) (rq : request) (w : world)
  : result string * client * world :=
  match wait_for_rate_limit c w with
  | (Raise e, w1) => (Raise e, c, w1)
  | (Ret _, w1) =>
      let c1 := {| model := model c;
                   retry_max := retry_max c;
                   retry_backoff := retry_backoff c;
                   min_interval := min_interval c;
                   last_call_time := clock w1 |} in
      match generate_content rq w1 with
      | (Response text, w2) => (Ret (default EmptyString text), c1, w2)
      | (Failure e, w2) => (Raise e, c1, w2)
      end
  end.

(** The [for attempt in range(1, self.retry_max + 1)] loop and the
    [raise] after it. *)
Fixpoint generate_loop (attempts : list Z) (last_error : option exn)
         (c : client) (rq : request) (w : world)
  : result string * client * world :=
  match attempts with
  | [] => (Raise (exhausted c last_error), c, w)
  | n :: rest =>
      match attempt c rq w with
      | (Ret text, c1, w1) => (Ret text, c1, w1)
      | (Raise e, c1, w1) =>
          match backoff_product (retry_backoff c) n with
          | Raise e' => (Raise e', c1, w1)
          | Ret wait =>
              match time_sleep BackoffSleep wait w1 with
              | (Ret _, w2) => generate_loop rest (Some e) c1 rq w2
              | (Raise e', w2) => (Raise e', c1, w2)
              end
          end
      end
  end.

Definition generate (c : client) (prompt : string) (temperature : Qc)
           (max_output_tokens : Z) (w : world)
  : result string * client * world :=
  let rq := {| rq_model := model c;
               rq_contents := prompt;
               rq_temperature := temperature;
               rq_max_output_tokens := max_output_tokens |} in
  generate_loop (py_range 1 (retry_max c + 1)) None c rq w.

End Endpoint.

End Client.

(** ** src/utils.py and src/run_experiments.py *)

Module Runner.

Import Client.

Record question : Type := mk_question {
  q_id : string;
  q_category : string;
  q_question : string;
  q_answer : string;
  q_answer_type : string;
  q_difficulty : string
}.

Record config : Type := mk_config {
  cfg_model : string;
  cfg_prompts : list string;
  cfg_temperatures : list Qc;
  cfg_num_runs : Z;
  cfg_max_output_tokens : Z;
  cfg_rate_limit_rpm : Z;
  cfg_retry_max : Z;
  cfg_retry_backoff_seconds : number
}.

(** One line of the raw store. *)
Record generation : Type := mk_generation {
  question_id : string;
  prompt_name : string;
  temperature : Qc;
  run_index : Z;
  gen_model : string;
  prompt_text : string;
  raw_output : string;
  timestamp : Q
}.

Definition key : Type := string * string * Qc * Z.

Definition key_of (rec : generation) : key :=
  (question_id rec, prompt_name rec, temperature rec, run_index rec).

(** [get_completed_keys]: the loop that adds every record's key to a
    set. *)
Definition get_completed_keys (store : list generation) : gset key :=
  fold_left (fun completed rec => completed ∪ {[ key_of rec ]}) store ∅.

Definition suffix : string :=
  String (ascii_of_nat 10) (String (ascii_of_nat 10)
    ("Respond in EXACTLY this format:" +:+ String (ascii_of_nat 10)
    ("CONFIDENCE: <0-100>" +:+ String (ascii_of_nat 10)
     "ANSWER: <your answer here>"))).

Definition build_prompt (template question : string) : string :=
  Str.replace "{{QUESTION}}" question template +:+ suffix.

Definition work_item : Type := question * string * Qc * Z.

Definition item_key (item : work_item) : key :=
  let '(question, prompt_name, temp, run_idx) := item in
  (q_id question, prompt_name, temp, run_idx).

(** The four nested loops that build the work list. *)
Definition build_work (dataset : list question) (prompt_names : list string)
           (temperatures : list Qc) (num_runs : Z) (completed : gset key)
  : list work_item :=
  question ← dataset;
  prompt_name ← prompt_names;
  temp ← temperatures;
  run_idx ← py_range 1 (num_runs + 1);
  if decide ((q_id question, prompt_name, temp, run_idx) ∈ completed)
  then []
  else [(question, prompt_name, temp, run_idx)].

(** The numbers of the closing log line. *)
Record report : Type := mk_report {
  calls_made : nat;
  errors : Z
}.

Section Run.

Variable endpoint : nat -> request -> outcome * Q.

(** [load_prompt_template(prompts_dir, name)]: the text of the file of
    that name; the dictionary [templates] holds it for every prompt
    name of the configuration. *)
Variable load_prompt_template : string -> string.

Variable cfg : config.

(** One turn of the main loop: the call, the [except] branch, the
    record. *)
Definition run_item (item : work_item) (c : client) (errors : Z)
           (w : world) : generation * client * Z * world :=
  let '(question, prompt_name, temp, run_idx) := item in
  let template := load_prompt_template prompt_name in
  let full_prompt := build_prompt template (q_question question) in
  let '(r, c1, w1) :=
    generate endpoint c full_prompt temp (cfg_max_output_tokens cfg) w in
  let '(raw_output, errors1) :=
    match r with
    | Ret text => (text, errors)
    | Raise e => ("ERROR: " +:+ exn_message e, errors + 1)
    end in
  ({| question_id := q_id question;
      prompt_name := prompt_name;
      temperature := temp;
      run_index := run_idx;
      gen_model := cfg_model cfg;
      prompt_text := full_prompt;
      raw_output := raw_output;
      timestamp := clock w1 |}, c1, errors1, w1).

(** The main loop; [append_jsonl] adds the record at the end of the
    store. *)
Fixpoint main_loop (work : list work_item) (c : client)
         (store : list generation) (errors : Z) (w : world)
  : list generation * Z * world :=
  match work with
  | [] => (store, errors, w)
  | item :: rest =>
      let '(record, c1, errors1, w1) := run_item item c errors w in
      main_loop rest c1 (store ++ [record]) errors1 w1
  end.

Definition run_experiments (api_key : option string)
           (dataset : list question) (store : list generation) (w : world)
  : result (option report) * list generation * world :=
  let completed := get_completed_keys store in
  let work :=
    build_work dataset (cfg_prompts cfg) (cfg_temperatures cfg)
               (cfg_num_runs cfg) completed in
  let total_remaining := length work in
  if (total_remaining =? 0)%nat then (Ret None, store, w)
  else
    match new_client api_key (cfg_model cfg) (cfg_rate_limit_rpm cfg)
                     (cfg_retry_max cfg) (cfg_retry_backoff_seconds cfg) with
    | Raise e => (Raise e, store, w)
    | Ret c =>
        let '(store', errors, w') := main_loop work c store 0 w in
        (Ret (Some {| calls_made := total_remaining; errors := errors |}),
         store', w')
    end.

End Run.

End Runner.

(** ** The parse stage of src/parsing.py *)

Module ParseStage.

Import Runner.

(** One line of the parsed store. *)
Record parsed : Type := mk_parsed {
  p_question_id : string;
  p_prompt_name : string;
  p_temperature : Qc;
  p_run_index : Z;
  p_model : string;
  p_raw_output : string;
  parsed_answer : option string;
  parsed_confidence : option Z;
  parse_success : bool
}.

(** The dictionary [parsed_rec]. *)
Definition parsed_record (rec : generation) (answer : option string)
           (confidence : option Z) : parsed :=
  {| p_question_id := question_id rec;
     p_prompt_name := prompt_name rec;
     p_temperature := temperature rec;
     p_run_index := run_index rec;
     p_model := gen_model rec;
     p_raw_output := raw_output rec;
     parsed_answer := answer;
     parsed_confidence := confidence;
     parse_success := bool_decide (answer ≠ None) |}.

(** The body of the loop over the raw records, up to the record it
    builds; [parse_confidence] may raise. *)
Definition parse_record (rec : generation) : result parsed :=
  let raw := raw_output rec in
  let answer := Parsing.parse_answer raw in
  confidence ← Parsing.parse_confidence raw;
  mret (parsed_record rec answer confidence).

(** The loop over the raw records: [so_far] is the list [parsed] built
    so far, [file] the content of the parsed store.  An exception leaves
    the store with the records appended before it. *)
Fixpoint parse_records (records : list generation)
         (so_far file : list parsed)
  : result (list parsed) * list parsed :=
  match records with
  | [] => (Ret so_far, file)
  | rec :: rest =>
      match parse_record rec with
      | Raise e => (Raise e, file)
      | Ret parsed_rec =>
          parse_records rest (so_far ++ [parsed_rec]) (file ++ [parsed_rec])
      end
  end.

(** [parse_all_outputs]: [records] is the content of the raw store,
    [out] the content of the parsed store before the call.  The result
    is what the function returns or raises and the parsed store after
    it. *)
Definition parse_all_outputs (records : list generation) (out : list parsed)
  : result (list parsed) * list parsed :=
  match records with
  | [] => (Ret [], out)
  | _ =>
      let cleared : list parsed := [] in
      parse_records records [] cleared
  end.

End ParseStage.

(** ** The specification's reading of the parse stage *)

Module ParseSpec.

Import Runner ParseStage.

(** The parsed records of the raw records that come before the first
    one on which the parse raises. *)
Fixpoint parsed_prefix (records : list generation) : list parsed :=
  match records with
  | [] => []
  | rec :: rest =>
      match parse_record rec with
      | Ret p => p :: parsed_prefix rest
      | Raise _ => []
      end
  end.

(** The error of the first raw record on which the parse raises. *)
Fixpoint first_error (records : list generation) : option exn :=
  match records with
  | [] => None
  | rec :: rest =>
      match parse_record rec with
      | Ret _ => first_error rest
      | Raise e => Some e
      end
  end.

(** A raw record whose confidence, if any, can be converted. *)
Definition readable (rec : generation) : Prop :=
  exists confidence,
    Parsing.parse_confidence (raw_output rec) = Ret confidence.

(** The parsed record of a readable raw record. *)
Definition parsed_of (rec : generation) : parsed :=
  parsed_record rec (Parsing.parse_answer (raw_output rec))
    (match Parsing.parse_confidence (raw_output rec) with
     | Ret confidence => confidence
     | Raise _ => None
     end).

End ParseSpec.

(** ** The score stage of src/scoring.py *)

Module ScoreStage.

Import Runner ParseStage Scoring.

(** A value of the dictionary [gt_lookup]. *)
Record truth : Type := mk_truth {
  gt_answer : string;
  gt_answer_type : string;
  gt_category : string;
  gt_difficulty : string
}.

Definition truth_of (q : question) : truth :=
  {| gt_answer := q_answer q;
     gt_answer_type := q_answer_type q;
     gt_category := q_category q;
     gt_difficulty := q_difficulty q |}.

(** The loop that fills [gt_lookup]: a later question with the same id
    replaces an earlier one. *)
Definition gt_lookup (dataset : list question) : gmap string truth :=
  fold_left (fun lookup q => <[ q_id q := truth_of q ]> lookup) dataset ∅.

(** One line of the score report. *)
Record row : Type := mk_row {
  r_question_id : string;
  r_category : string;
  r_difficulty : string;
  r_prompt_name : string;
  r_temperature : Qc;
  r_run_index : Z;
  r_parsed_answer : option string;
  r_ground_truth : string;
  r_is_correct : bool;
  r_is_unknown : bool;
  r_confidence : option Z;
  r_parse_success : bool;
  r_match_type : match_type
}.

(** The body of the loop over the parsed records; a question id the
    dataset does not hold is looked up as the empty dictionary, whose
    [get] gives the defaults. *)
Definition score_record (lookup : gmap string truth) (rec : parsed)
  : result row :=
  let qid := p_question_id rec in
  let gt := lookup !! qid in
  verdict ← score_answer (parsed_answer rec)
              (from_option gt_answer EmptyString gt)
              (from_option gt_answer_type "text" gt);
  mret {| r_question_id := qid;
          r_category := from_option gt_category EmptyString gt;
          r_difficulty := from_option gt_difficulty EmptyString gt;
          r_prompt_name := p_prompt_name rec;
          r_temperature := p_temperature rec;
          r_run_index := p_run_index rec;
          r_parsed_answer := parsed_answer rec;
          r_ground_truth := from_option gt_answer EmptyString gt;
          r_is_correct := is_correct verdict;
          r_is_unknown := is_unknown verdict;
          r_confidence := parsed_confidence rec;
          r_parse_success := parse_success rec;
          r_match_type := match_tag verdict |}.

Fixpoint score_rows (lookup : gmap string truth) (parsed : list parsed)
         (rows : list row) : result (list row) :=
  match parsed with
  | [] => Ret rows
  | rec :: rest =>
      r ← score_record lookup rec;
      score_rows lookup rest (rows ++ [r])
  end.

(** The numbers of the printed summary. *)
Record summary : Type := mk_summary {
  total : nat;
  correct : nat;
  unknown_rows : nat;
  parse_fail : nat
}.

Definition summarize (rows : list row) : summary :=
  {| total := length rows;
     correct := length (List.filter r_is_correct rows);
     unknown_rows := length (List.filter r_is_unknown rows);
     parse_fail :=
       length (List.filter (fun r => negb (r_parse_success r)) rows) |}.

(** [100 * count / total] in a line of the summary: the quotient is only
    printed, but the division raises on a total of zero. *)
Definition percentage (count total : nat) : result Q :=
  if (total =? 0)%nat then Raise (ZeroDivisionError "division by zero")
  else Ret (100 * inject_Z (Z.of_nat count) / inject_Z (Z.of_nat total))%Q.

(** [score_all]: [parsed] is the content of the parsed store, [report]
    the content of the score file before the call.  The result is the
    returned path, the score file after the call and the summary, if one
    is printed. *)
Definition score_all (scores_path : string) (dataset : list question)
           (parsed : list parsed) (report : list row)
  : result (string * list row * option summary) :=
  match parsed with
  | [] => Ret (EmptyString, report, None)
  | _ =>
      rows ← score_rows (gt_lookup dataset) parsed [];
      let counts := summarize rows in
      _ ← percentage (correct counts) (total counts);
      _ ← percentage (unknown_rows counts) (total counts);
      _ ← percentage (parse_fail counts) (total counts);
      Ret (scores_path, rows, Some counts)
  end.

(** The question whose ground truth a record with question id [qid] is
    scored against: the last one of the dataset with that id. *)
Definition question_for (dataset : list question) (qid : string)
  : option question :=
  last (List.filter (fun q => String.eqb (q_id q) qid) dataset).

(** The row of a parsed record, given the question it is joined with and
    the verdict of the scorer. *)
Definition row_of (rec : parsed) (q : option question) (verdict : score)
  : row :=
  {| r_question_id := p_question_id rec;
     r_category := from_option q_category EmptyString q;
     r_difficulty := from_option q_difficulty EmptyString q;
     r_prompt_name := p_prompt_name rec;
     r_temperature := p_temperature rec;
     r_run_index := p_run_index rec;
     r_parsed_answer := parsed_answer rec;
     r_ground_truth := from_option q_answer EmptyString q;
     r_is_correct := is_correct verdict;
     r_is_unknown := is_unknown verdict;
     r_confidence := parsed_confidence rec;
     r_parse_success := parse_success rec;
     r_match_type := match_tag verdict |}.

(** A parsed record and its row: the record is scored against the
    question it is joined with, or against the defaults without one. *)
Definition scored (dataset : list question) (rec : parsed) (r : row)
  : Prop :=
  let q := question_for dataset (p_question_id rec) in
  exists verdict,
    score_answer (parsed_answer rec)
                 (from_option q_answer EmptyString q)
                 (from_option q_answer_type "text" q) = Ret verdict /\
    r = row_of rec q verdict.

End ScoreStage.

(** ** The progress numbers of src/run_experiments.py *)

Module Progress.

Import Runner.

(** [total_possible] *)
Definition total_possible (cfg : config) (dataset : list question) : Z :=
  Z.of_nat (length dataset) * Z.of_nat (length (cfg_prompts cfg))
  * Z.of_nat (length (cfg_temperatures cfg)) * cfg_num_runs cfg.

(** The prompt the main loop sends for a work item. *)
Definition full_prompt (load_prompt_template : string -> string)
           (item : work_item) : string :=
  let '(question, prompt_name, _, _) := item in
  build_prompt (load_prompt_template prompt_name) (q_question question).

(** [total_remaining] *)
Definition total_remaining (cfg : config) (dataset : list question)
           (store : list generation) : nat :=
  length (build_work dataset (cfg_prompts cfg) (cfg_temperatures cfg)
                     (cfg_num_runs cfg) (get_completed_keys store)).

End Progress.

(** ** The specification's reading of the extractor

    These definitions follow the words of the specification; the
    theorems below compare them with the code. *)

Module Spec.



(** The same, with whitespace allowed between marker and digits. *)
Definition confidence_at (s : string) : option string :=
  match Str.strip_prefix true "CONFIDENCE:" s with
  | Some r =>
      let ds :=
        Str.take_while Chars.is_digit (Str.drop_while Chars.is_space r) in
      if Str.is_empty ds then None else Some ds
  | None => None
  end.

(** What [at_head] finds at every place of [s], from left to right. *)
Fixpoint occurrences {A} (at_head : string -> option A) (s : string)
  : list A :=
  match s with
  | EmptyString => []
  | String _ t =>
      match at_head s with
      | Some x => x :: occurrences at_head t
      | None => occurrences at_head t
      end
  end.



(** The answer marker at the head of [s], in any case: the text that
    follows it. *)
Definition answer_at (s : string) : option string :=
  Str.strip_prefix true "ANSWER:" s.

(** A quote character: double quote, single quote or backtick. *)
Definition is_quote (c : ascii) : bool :=
  (Chars.code c =? 34)%N || (Chars.code c =? 39)%N || (Chars.code c =? 96)%N.


(** The same with the space as the only whitespace character. *)
Definition quote_or_space (c : ascii) : bool :=
  is_quote c || (Chars.code c =? 32)%N.

(** "Normalize: trim, lowercase, remove all comma characters, strip
    surrounding quote characters and whitespace."  [surround] tells the
    characters of the last step. *)
Definition normalize_by (surround : ascii -> bool) (t : string) : string :=
  Str.strip_by surround (Str.remove_char "," (Str.lower (Str.strip t))).

Definition normalize (t : string) : string := normalize_by quote_or_space t.

(** "Strip one trailing period if present"; what is left is trimmed. *)
Definition strip_period (s : string) : string :=
  if Str.ends_with "." s then Str.strip (Str.init s) else s.

(** "Strip a leading currency symbol if present": the dollar sign; what
    is left is trimmed. *)
Definition strip_currency (s : string) : string :=
  if Str.starts_with "$" s then Str.strip (Str.tail s) else s.

(** The "fixed closed vocabulary of measurement/count words". *)
Definition vocabulary : list string :=
  [ "miles"; "mph"; "km"; "km/h"; "meters"; "m"; "cm"; "feet"; "ft";
    "inches"; "in"; "liters"; "gallons"; "gal"; "hours"; "hrs"; "minutes";
    "mins"; "seconds"; "secs"; "days"; "weeks"; "months"; "years";
    "dollars"; "cents"; "percent"; "%"; "kg"; "lbs"; "pounds"; "ounces";
    "oz"; "cups"; "degrees"; "packs"; "boxes"; "slices"; "cookies";
    "stickers"; "pencils"; "widgets"; "muffins"; "roses"; "desks";
    "apples"; "bananas"; "tickets"; "crayons"; "shirts"; "employees";
    "games"; "arrangements"; "weighings"; "pourings"; "switches" ].

(** A unit: a word of the vocabulary, with or without a final period. *)
Definition is_unit (u : string) : bool :=
  existsb (fun w => String.eqb u w || String.eqb u (w +:+ ".")) vocabulary.

(** A character of a number: a digit, a dot, a slash or a hyphen. *)
Definition is_number_char (c : ascii) : bool :=
  Chars.is_digit c || Ascii.eqb c "." || Ascii.eqb c "/" || Ascii.eqb c "-".

(** "If the remaining text matches <number> <unit>, reduce to just the
    numeric portion": a run of number characters, then whitespace, then
    a unit. *)
Definition reduce_unit (s : string) : string :=
  let number := Str.take_while is_number_char s in
  let after := Str.drop_while is_number_char s in
  let gap := Str.take_while Chars.is_space after in
  let unit := Str.drop_while Chars.is_space after in
  if negb (Str.is_empty number) && negb (Str.is_empty gap) && is_unit unit
  then number else s.

Definition final_text_by (surround : ascii -> bool) (m : string) : string :=
  reduce_unit (strip_currency (strip_period (normalize_by surround m))).

Definition final_text (m : string) : string := final_text_by quote_or_space m.




(** The two parts of a text that holds one slash. *)
Definition fraction_parts (s : string) : string * string :=
  let before c := negb (Ascii.eqb c "/") in
  (Str.take_while before s, Str.tail (Str.drop_while before s)).

(** "Attempt to parse as a number after stripping thousands separators,
    currency and percent symbols, and resolving a single a/b fraction form
    to its quotient; any other shape fails parsing." *)
Definition number (v : string) : option Float.float :=
  let cleaned :=
    Str.remove_char "%"
      (Str.remove_char "$" (Str.remove_char "," (Str.strip v))) in
  let plain (s : string) : option Float.float :=
    match Float.of_string s with
    | Ret x => Some x
    | Raise _ => None
    end in
  if (Str.count (fun c => Ascii.eqb c "/") cleaned =? 1)%nat then
    let '(num, den) := fraction_parts cleaned in
    match plain (Str.strip num), plain (Str.strip den) with
    | Some n, Some d =>
        if Float.is_zero d then None
        else Some (SFdiv Float.prec Float.emax n d)
    | _, _ => None
    end
  else plain cleaned.

(** The refusal phrases, compared with the trimmed, lowercased answer. *)
Definition is_refusal (parsed_answer : string) : bool :=
  let normalized := Str.lower (Str.strip parsed_answer) in
  String.eqb normalized "unknown"
  || String.eqb normalized "i don't know"
  || String.eqb normalized "cannot determine".

(** The epsilon 0.005, as a double. *)
Definition epsilon : Float.float := Float.of_decimal false 5 (-3).

(** A character that text normalization keeps: a word character,
    whitespace, a slash or a colon. *)
Definition is_text_char (c : ascii) : bool :=
  Chars.is_word c || Chars.is_space c || Ascii.eqb c "/" || Ascii.eqb c ":".

(** Where a scan of a text stands: nothing kept yet, just after a kept
    character that is no whitespace, or after whitespace that followed
    one. *)
Inductive place : Type := AtStart | InWord | AfterGap.

(** Whitespace at the ends dropped and every run of whitespace inside
    turned into one space. *)
Fixpoint squeeze (p : place) (s : string) : string :=
  match s with
  | EmptyString => EmptyString
  | String c t =>
      if Chars.is_space c then
        squeeze (match p with AtStart => AtStart | _ => AfterGap end) t
      else
        match p with
        | AfterGap => String " " (String c (squeeze InWord t))
        | _ => String c (squeeze InWord t)
        end
  end.

(** "Normalization: lowercase, trim, strip all characters except word
    characters, whitespace, / and :, then collapse internal whitespace
    runs to a single space." *)
Definition text_key (v : string) : string :=
  squeeze AtStart (Str.filter is_text_char (Str.lower v)).

(** "If both parse, correctness = absolute difference < 0.005;
    match_type = numeric.  If either fails to parse as a number, fall back
    to normalized text equality (match_type = text_fallback)." *)
Definition numeric_score (parsed_answer ground_truth : string)
  : Scoring.score :=
  match number parsed_answer, number ground_truth with
  | Some p, Some t =>
      Scoring.mk_score
        (Float.ltb (Float.abs (Float.sub p t)) epsilon)
        false Scoring.numeric
  | _, _ =>
      Scoring.mk_score
        (String.eqb (text_key parsed_answer) (text_key ground_truth))
        false Scoring.text_fallback
  end.

End Spec.

(** Auxiliary readings of pieces of the unit pattern. *)

Module UnitPattern.

(** What [\.?$] accepts: nothing, a period, and either before one final
    line feed. *)
Definition tail_end (r : string) : bool :=
  match r with
  | EmptyString => true
  | String c EmptyString => (Chars.code c =? 10)%N || Ascii.eqb "." c
  | String c (String d EmptyString) =>
      Ascii.eqb "." c && (Chars.code d =? 10)%N
  | _ => false
  end.

(** What [(miles|mph|...)\.?$] accepts under IGNORECASE. *)
Definition unit_tail (u : string) : bool :=
  existsb (fun w => match Str.strip_prefix true w u with
                    | Some r => tail_end r
                    | None => false
                    end) Parsing.unit_words.

Definition word_head_ok (w : string) : bool :=
  match w with
  | String a _ => negb (Chars.is_space a) && negb (Chars.is_upper a)
  | EmptyString => false
  end.

End UnitPattern.

(** ** The specification's reading of the model client *)

Module ClientSpec.

Import Client.

(** The requests and the backoff waits of a log, in order; the waits of
    the rate limiter are left out. *)
Definition visible (l : list event) : list event :=
  List.filter (fun e => match e with
                        | RateLimitSleep _ => false
                        | _ => true
                        end) l.

(** "base × 2^(attempt-1)" *)
Definition backoff_wait (base : Q) (attempt : Z) : Q :=
  (base * inject_Z (2 ^ (attempt - 1)))%Q.

(** What a failed attempt number [n] leaves in the log: its request,
    then the wait. *)
Definition failed_attempt (base : Q) (rq : request) (n : Z) : list event :=
  [Request rq; BackoffSleep (backoff_wait base n)].

(** What the attempts [1..k] leave when all of them fail. *)
Definition failed_attempts (base : Q) (rq : request) (k : nat)
  : list event :=
  flat_map (failed_attempt base rq) (py_range 1 (1 + Z.of_nat k)).

(** The request [generate] sends. *)
Definition request_of (c : client) (prompt : string) (temperature : Qc)
           (max_output_tokens : Z) : request :=
  {| rq_model := model c;
     rq_contents := prompt;
     rq_temperature := temperature;
     rq_max_output_tokens := max_output_tokens |}.

(** Is the number a [float]? *)
Definition is_float (x : number) : bool :=
  match x with
  | PyInt _ => false
  | _ => true
  end.

(** Is the number an [int] or a finite [float]? *)
Definition finite (x : number) : bool :=
  match x with
  | PyInt _ | PyFloat _ => true
  | PyInf _ | PyNaN => false
  end.

(** Every sleep of a length from 0 to [limit] is accepted: such a
    length fits into the nanosecond count, and the platform does not
    fail on it. *)
Definition accepted (w : world) (limit : Q) : Prop :=
  (limit * ns_per_second <= max_ns)%Q /\
  forall t s : Q, (0 <= s)%Q -> (s <= limit)%Q -> platform w t s = None.

(** Times, each at least [interval] after the one before it, the first
    at least [interval] after [previous]. *)
Fixpoint spaced (previous interval : Q) (times : list Q) : Prop :=
  match times with
  | [] => True
  | t :: rest => (previous + interval <= t)%Q /\ spaced t interval rest
  end.


(** Did the call return? *)
Definition raised_none (r : result string) : bool :=
  match r with
  | Ret _ => true
  | Raise _ => false
  end.

(** What one attempt returns or raises, read off the endpoint. *)
Definition result_of (o : outcome) : result string :=
  match o with
  | Response text => Ret (default EmptyString text)
  | Failure e => Raise e
  end.

End ClientSpec.

(** ** The specification's reading of the runner *)

Module RunnerSpec.

Import Client Runner.

(** "The full Cartesian product of questions × prompt names ×
    temperatures × run indices", as keys, in the order of enumeration. *)
Definition grid_keys (cfg : config) (dataset : list question) : list key :=
  id ← q_id <$> dataset;
  prompt_name ← cfg_prompts cfg;
  temp ← cfg_temperatures cfg;
  run_idx ← py_range 1 (cfg_num_runs cfg + 1);
  [(id, prompt_name, temp, run_idx)].

Definition stored_keys (store : list generation) : list key :=
  key_of <$> store.

Section Calls.

Variable endpoint : nat -> request -> outcome * Q.
Variable load_prompt_template : string -> string.
Variable cfg : config.

(** What the Model Client does with the calls for the items of a work
    list, one call per item, in order. *)
Fixpoint call_results (work : list work_item) (c : client) (w : world)
  : list (result string) :=
  match work with
  | [] => []
  | (question, prompt_name, temp, _) :: rest =>
      let '(r, c1, w1) :=
        generate endpoint c
          (build_prompt (load_prompt_template prompt_name)
                        (q_question question))
          temp (cfg_max_output_tokens cfg) w in
      r :: call_results rest c1 w1
  end.

End Calls.

(** The raw output recorded for a call: its text, or the sentinel that
    holds the error. *)
Definition recorded (r : result string) : string :=
  match r with
  | Ret text => text
  | Raise e => "ERROR: " +:+ exn_message e
  end.

Definition raised (r : result string) : bool :=
  match r with
  | Ret _ => false
  | Raise _ => true
  end.

End RunnerSpec.

(** ** Concrete inputs used by the examples below *)

Module Examples.

Import Client Runner ParseStage.

(** An endpoint that always answers. *)
Definition answering (n : nat) (rq : request) : outcome * Q :=
  (Response (Some "CONFIDENCE: 90 ANSWER: 42"), 1%Q).

(** An endpoint that always fails. *)
Definition failing (n : nat) (rq : request) : outcome * Q :=
  (Failure (ApiException "503 unavailable"), 1%Q).

Definition templates (name : string) : string := "Question: {{QUESTION}}".

(** A platform that sleeps any length. *)
Definition sleeps (t s : Q) : option exn := None.

Definition world0 : world :=
  {| clock := 1000%Q; calls := 0; log := []; sent_at := [];
     platform := sleeps |}.

Definition question1 : question :=
  mk_question "q1" "arithmetic" "What is 40 + 2?" "42" "numeric" "easy".
Definition question2 : question :=
  mk_question "q2" "arithmetic" "What is 6 * 7?" "42" "numeric" "easy".
Definition question3 : question :=
  mk_question "q3" "logic" "Is 42 even?" "yes" "text" "easy".

(** Three questions, one prompt, one temperature, one run. *)
Definition config1 : config :=
  {| cfg_model := "gemini-2.0-flash";
     cfg_prompts := ["direct"];
     cfg_temperatures := [Q2Qc 0];
     cfg_num_runs := 1;
     cfg_max_output_tokens := 1024;
     cfg_rate_limit_rpm := 15;
     cfg_retry_max := 3;
     cfg_retry_backoff_seconds := PyInt 5 |}.

(** The same, with the temperature listed twice. *)
Definition config_twice : config :=
  {| cfg_model := "gemini-2.0-flash";
     cfg_prompts := ["direct"];
     cfg_temperatures := [Q2Qc 0; Q2Qc 0];
     cfg_num_runs := 1;
     cfg_max_output_tokens := 1024;
     cfg_rate_limit_rpm := 15;
     cfg_retry_max := 3;
     cfg_retry_backoff_seconds := PyInt 5 |}.

(** A record left in the store by a run over another dataset. *)
Definition foreign_record : generation :=
  {| question_id := "q9";
     prompt_name := "direct";
     temperature := Q2Qc 0;
     run_index := 1;
     gen_model := "gemini-2.0-flash";
     prompt_text := "Question: ?";
     raw_output := "ANSWER: 7";
     timestamp := 10%Q |}.

Definition client0 : client :=
  {| model := "gemini-2.0-flash";
     retry_max := 3;
     retry_backoff := PyFloat 5;
     min_interval := 4%Q;
     last_call_time := 0%Q |}.

(** A client configured to make no attempt. *)
Definition client_no_retry : client :=
  {| model := "gemini-2.0-flash";
     retry_max := 0;
     retry_backoff := PyFloat 5;
     min_interval := 4%Q;
     last_call_time := 0%Q |}.

(** A client whose backoff base is negative. *)
Definition client_negative_backoff : client :=
  {| model := "gemini-2.0-flash";
     retry_max := 3;
     retry_backoff := PyFloat (-5);
     min_interval := 4%Q;
     last_call_time := 0%Q |}.

(** A client whose backoff base is no number. *)
Definition client_nan_backoff : client :=
  {| model := "gemini-2.0-flash";
     retry_max := 3;
     retry_backoff := PyNaN;
     min_interval := 4%Q;
     last_call_time := 0%Q |}.

(** A client whose first backoff wait is longer than a sleep can be. *)
Definition client_long_backoff : client :=
  {| model := "gemini-2.0-flash";
     retry_max := 3;
     retry_backoff := PyInt 10000000000;
     min_interval := 4%Q;
     last_call_time := 0%Q |}.

(** A client with 1025 attempts and the float 0.0 as backoff base. *)
Definition client_many_attempts : client :=
  {| model := "gemini-2.0-flash";
     retry_max := 1025;
     retry_backoff := PyFloat 0;
     min_interval := 4%Q;
     last_call_time := 0%Q |}.

(** The default configuration with a negative run count. *)
Definition config_negative_runs : config :=
  {| cfg_model := "gemini-2.0-flash";
     cfg_prompts := ["direct"];
     cfg_temperatures := [Q2Qc 0];
     cfg_num_runs := -2;
     cfg_max_output_tokens := 1024;
     cfg_rate_limit_rpm := 15;
     cfg_retry_max := 3;
     cfg_retry_backoff_seconds := PyInt 5 |}.

(** The record of a call that failed after three attempts. *)
Definition error_record : generation :=
  {| question_id := "q1";
     prompt_name := "direct";
     temperature := Q2Qc 0;
     run_index := 1;
     gen_model := "gemini-2.0-flash";
     prompt_text := "Question: What is 40 + 2?";
     raw_output := "ERROR: API call failed after 3 retries: 503 unavailable";
     timestamp := 1038%Q |}.





End Examples.

(** ** Character properties of normalized text *)

(** A line feed, as a string. *)
Definition newline : string := String (ascii_of_nat 10) EmptyString.

Definition not_upper (c : ascii) : bool := negb (Chars.is_upper c).

(** Lowercase text of one line is made of such characters. *)
Definition clean (c : ascii) : bool := Chars.not_newline c && not_upper c.

(** Text in which every whitespace character is a space and no two
    spaces are adjacent; [after_space] tells that a space came just
    before. *)
Fixpoint single_spaced (after_space : bool) (s : string) : bool :=
  match s with
  | EmptyString => true
  | String c t =>
      if Chars.is_space c
      then Ascii.eqb c " " && negb after_space && single_spaced true t
      else single_spaced false t
  end.

(** A character class that does not tell a letter from its lowercase
    form. *)
Definition case_blind (p : ascii -> bool) : Prop :=
  forall c, p (Chars.lower c) = p c.

(** A pattern whose classes are all case blind. *)
Definition atom_case_blind (a : Re.atom) : Prop :=
  match a with
  | Re.Star p | Re.Plus p | Re.Opt p => case_blind p
  | _ => True
  end.

(** What a match leaves, in lowercase. *)
Definition lower_match (m : string * option string)
  : string * option string :=
  (Str.lower (fst m), Str.lower <$> snd m).

(** A float that is neither an infinity nor a NaN. *)
Definition is_finite (x : Float.float) : bool :=
  match x with
  | S754_zero _ | S754_finite _ _ _ => true
  | _ => false
  end.

(** * Properties *)

(** ** Strings *)

Lemma append_cons (c : ascii) (a b : string) :
  String c a +:+ b = String c (a +:+ b).
Proof. reflexivity. Qed.

Lemma append_empty_l (s : string) : EmptyString +:+ s = s.
Proof. reflexivity. Qed.

Section StringFacts.

Variable p : ascii -> bool.

Lemma take_drop_while (s : string) :
  Str.take_while p s +:+ Str.drop_while p s = s.
Proof.
  induction s as [|c t IH]; simpl; [reflexivity|].
  destruct (p c); [now rewrite append_cons, IH | reflexivity].
Qed.

Lemma drop_while_as_drop (s : string) :
  Str.drop_while p s = Str.drop (String.length (Str.take_while p s)) s.
Proof.
  induction s as [|c t IH]; simpl; [reflexivity|].
  destruct (p c); simpl; [exact IH | reflexivity].
Qed.

Lemma take_while_as_take (s : string) :
  Str.take_while p s = Str.take (String.length (Str.take_while p s)) s.
Proof.
  induction s as [|c t IH]; simpl; [reflexivity|].
  destruct (p c); simpl; [now rewrite <- IH | reflexivity].
Qed.

Lemma length_take_drop_while (s : string) :
  (String.length (Str.take_while p s)
   + String.length (Str.drop_while p s))%nat = String.length s.
Proof.
  induction s as [|c t IH]; simpl; [reflexivity|].
  destruct (p c); simpl; [now rewrite IH | reflexivity].
Qed.

Lemma drop_while_head (c : ascii) (t : string) :
  Str.drop_while p t = String c (Str.drop_while p (String c t)) -> False.
Proof.
  intros E.
  pose proof (length_take_drop_while t) as H1.
  pose proof (length_take_drop_while (String c t)) as H2.
  rewrite E in H1. simpl in *. destruct (p c); simpl in *; lia.
Qed.

Lemma captured_take_while (s : string) :
  Re.captured s (Str.drop_while p s) = Str.take_while p s.
Proof.
  unfold Re.captured.
  rewrite (take_while_as_take s).
  f_equal. pose proof (length_take_drop_while s). lia.
Qed.

End StringFacts.

Lemma drop_drop (n m : nat) (s : string) :
  Str.drop n (Str.drop m s) = Str.drop (m + n) s.
Proof.
  revert s; induction m as [|m IH]; intros s; simpl; [reflexivity|].
  destruct s as [|c t]; [now destruct n | apply IH].
Qed.

Lemma length_drop (n : nat) (s : string) :
  String.length (Str.drop n s) = (String.length s - n)%nat.
Proof.
  revert s; induction n as [|n IH]; intros s; simpl; [lia|].
  destruct s as [|c t]; simpl; [reflexivity | apply IH].
Qed.

Lemma strip_prefix_drop (ic : bool) (w s r : string) :
  Str.strip_prefix ic w s = Some r -> r = Str.drop (String.length w) s.
Proof.
  revert s; induction w as [|a w IH]; intros s; simpl.
  - now intros [= <-].
  - destruct s as [|b s]; [discriminate|].
    destruct (if ic then _ else _); [apply IH | discriminate].
Qed.

(** ** The regex engine *)

Section EngineFacts.

Context {A : Type}.
Variable p : ascii -> bool.
Variable k : string -> option A.

(** Greedy repetition keeps the longest run when the continuation
    accepts it. *)
Lemma star_longest (s : string) (r : A) :
  k (Str.drop_while p s) = Some r -> Re.star p s k = Some r.
Proof.
  induction s as [|c t IH]; simpl; [easy|].
  destruct (p c); [|easy]. intros H. now rewrite (IH H).
Qed.

(** It fails when the continuation rejects whatever starts in the run
    and what follows the run. *)
Lemma star_none (s : string) :
  (forall c t, p c = true -> k (String c t) = None) ->
  k (Str.drop_while p s) = None -> Re.star p s k = None.
Proof.
  intros Hk. induction s as [|c t IH]; simpl; [easy|].
  destruct (p c) eqn:E; [|easy].
  intros H. rewrite (IH H). now apply Hk.
Qed.

End EngineFacts.

Lemma match_here_lits (ic : bool) (subject w : string) (r : list Re.atom)
      (op cap : option string) (s : string) :
  Re.match_here ic subject (Re.lits w ++ r) op cap s =
  match Str.strip_prefix ic w s with
  | Some s' => Re.match_here ic subject r op cap s'
  | None => None
  end.
Proof.
  revert s; induction w as [|a w IH]; intros s; [reflexivity|].
  cbn [Re.lits list_ascii_of_string List.map app Re.match_here Str.strip_prefix].
  destruct s as [|b s]; [reflexivity|].
  destruct (if ic then _ else _); [apply IH | reflexivity].
Qed.

Lemma match_here_star (ic : bool) (subject : string) (p : ascii -> bool)
      (r : list Re.atom) (op cap : option string) (s : string) :
  Re.match_here ic subject (Re.Star p :: r) op cap s =
  Re.star p s (Re.match_here ic subject r op cap).
Proof. reflexivity. Qed.

(** ** Character classes *)

Ltac split_codes :=
  repeat match goal with
         | |- context [(?a <=? ?b)%N] => destruct (N.leb_spec a b)
         | |- context [(?a =? ?b)%N] => destruct (N.eqb_spec a b)
         | H : context [(?a <=? ?b)%N] |- _ => destruct (N.leb_spec a b)
         | H : context [(?a =? ?b)%N] |- _ => destruct (N.eqb_spec a b)
         end;
  simpl in *; try discriminate; try reflexivity; try lia.

Lemma space_not_digit (c : ascii) :
  Chars.is_space c = true -> Chars.is_digit c = false.
Proof. unfold Chars.is_space, Chars.is_digit. intros H. split_codes. Qed.

Lemma code_lower (c : ascii) :
  Chars.code (Chars.lower c) =
  if Chars.is_upper c then (Chars.code c + 32)%N else Chars.code c.
Proof.
  unfold Chars.lower. destruct (Chars.is_upper c) eqn:E; [|reflexivity].
  unfold Chars.code. rewrite N_ascii_embedding; [reflexivity|].
  unfold Chars.is_upper, Chars.code in E. split_codes.
Qed.

(** A character that matches a letter of a marker without regard to case
    is a letter: no whitespace, no digit. *)
Lemma eqb_ci_letter (a c : ascii) :
  Chars.is_lower (Chars.lower a) = true ->
  Chars.eqb_ci a c = true ->
  Chars.is_space c = false /\ Chars.is_digit c = false.
Proof.
  unfold Chars.eqb_ci. intros Ha E. apply Ascii.eqb_eq in E.
  rewrite E in Ha. unfold Chars.is_lower in Ha. rewrite code_lower in Ha.
  unfold Chars.is_space, Chars.is_digit, Chars.is_upper in *.
  split; split_codes.
Qed.

(** A group around [cls+] at the end of a pattern catches the longest
    run of the class, which must not be empty. *)
Lemma group_plus (ic : bool) (p : ascii -> bool) (subject u : string) :
  Re.match_here ic subject [Re.GOpen; Re.Plus p; Re.GClose] None None u =
  let ds := Str.take_while p u in
  if Str.is_empty ds then None
  else Some (Str.drop_while p u, Some ds).
Proof.
  cbn [Re.match_here]. unfold Re.plus.
  destruct u as [|c t]; [reflexivity|].
  cbn [Str.take_while Str.drop_while].
  destruct (p c) eqn:E; [|reflexivity].
  cbn [Str.is_empty].
  apply star_longest. cbn [Re.match_here]. do 2 f_equal.
  f_equal.
  pose proof (captured_take_while p (String c t)) as H.
  cbn [Str.take_while Str.drop_while] in H. now rewrite E in H.
Qed.

(** ** The confidence pattern *)

Section ConfidencePattern.

Import Parsing.

(** The engine finds the pattern at the head of [s] exactly when the
    marker stands there, followed by whitespace and digits. *)
Lemma confidence_match (subject s : string) :
  Re.match_here true subject confidence_re None None s =
  match Str.strip_prefix true "CONFIDENCE:" s with
  | Some r =>
      let r' := Str.drop_while Chars.is_space r in
      let ds := Str.take_while Chars.is_digit r' in
      if Str.is_empty ds then None
      else Some (Str.drop_while Chars.is_digit r', Some ds)
  | None => None
  end.
Proof.
  unfold confidence_re. rewrite match_here_lits.
  destruct (Str.strip_prefix true "CONFIDENCE:" s) as [r|]; [|reflexivity].
  cbn [app]. rewrite match_here_star.
  pose proof (group_plus true Chars.is_digit subject
                (Str.drop_while Chars.is_space r))
    as Hk.
  cbv zeta in *.
  destruct (Str.is_empty _) eqn:E.
  - apply star_none; [|exact Hk].
    intros c t Hc. rewrite group_plus. cbn.
    now rewrite (space_not_digit c Hc).
  - now apply star_longest.
Qed.

End ConfidencePattern.

(** ** Scanning *)

Lemma findall_from_skip (ic : bool) (r : list Re.atom) (subject s : string)
      (n : nat) :
  Re.findall_from ic r subject s n =
  Re.findall_from ic r subject (Str.drop n s) O.
Proof.
  revert n; induction s as [|c t IH]; intros n.
  - now destruct n.
  - destruct n as [|n]; [reflexivity|]. cbn [Re.findall_from Str.drop].
    apply IH.
Qed.

Lemma occurrences_skip {A} (at_head : string -> option A) (n : nat)
      (s : string) :
  (forall i, (i < n)%nat -> at_head (Str.drop i s) = None) ->
  Spec.occurrences at_head s = Spec.occurrences at_head (Str.drop n s).
Proof.
  revert s; induction n as [|n IH]; intros s H; [reflexivity|].
  destruct s as [|c t]; [reflexivity|].
  cbn [Spec.occurrences Str.drop].
  pose proof (H O ltac:(lia)) as H0. cbn [Str.drop] in H0.
  rewrite H0. apply IH.
  intros i Hi. apply (H (S i)). lia.
Qed.

Lemma drop_in_take_while (p : ascii -> bool) (j : nat) (u : string) :
  (j < String.length (Str.take_while p u))%nat ->
  exists c t, Str.drop j u = String c t /\ p c = true.
Proof.
  revert u; induction j as [|j IH]; intros u H.
  - destruct u as [|c t]; [simpl in H; lia|]. simpl in H.
    destruct (p c) eqn:E; [|simpl in H; lia]. now exists c, t.
  - destruct u as [|c t]; [simpl in H; lia|]. simpl in H.
    destruct (p c) eqn:E; [|simpl in H; lia]. simpl in H.
    apply (IH t). lia.
Qed.

Lemma eqb_ci_clash (a b c : ascii) :
  Chars.eqb_ci a c = true -> Chars.eqb_ci a b = false ->
  Chars.eqb_ci b c = false.
Proof.
  unfold Chars.eqb_ci. intros H1 H2. apply Ascii.eqb_eq in H1.
  rewrite <- H1. now rewrite Ascii.eqb_sym.
Qed.

Lemma strip_prefix_cons (a : ascii) (w : string) (b : ascii) (s : string) :
  Str.strip_prefix true (String a w) (String b s) =
  if Chars.eqb_ci a b then Str.strip_prefix true w s else None.
Proof. reflexivity. Qed.

(** Peel the characters of a marker off the subject. *)
Ltac peel_marker H :=
  repeat match type of H with
         | Str.strip_prefix _ (String _ _) ?s = Some _ =>
             let c := fresh "c" in
             let E := fresh "E" in
             destruct s as [|c s]; [discriminate H|];
             rewrite strip_prefix_cons in H;
             destruct (Chars.eqb_ci _ c) eqn:E; [|discriminate H]
         end;
  cbn [Str.strip_prefix] in H.

Ltac ci_clash :=
  repeat match goal with
         | E : Chars.eqb_ci ?a ?c = true |- context [Chars.eqb_ci ?a ?c] =>
             rewrite E
         | E : Chars.eqb_ci ?a ?c = true |- context [Chars.eqb_ci ?b ?c] =>
             rewrite (eqb_ci_clash a b c E eq_refl)
         end.

Section ConfidenceScan.

Import Parsing.

(** No occurrence of the confidence pattern starts inside another
    one. *)
Lemma confidence_at_span (s : string) (ds : string) :
  Spec.confidence_at s = Some ds ->
  exists M : nat,
    (0 < M <= String.length s)%nat /\
    Str.drop_while Chars.is_digit
      (Str.drop_while Chars.is_space (Str.drop 11 s)) = Str.drop M s /\
    forall i, (0 < i < M)%nat -> Spec.confidence_at (Str.drop i s) = None.
Proof.
  unfold Spec.confidence_at at 1.
  destruct (Str.strip_prefix true "CONFIDENCE:" s) as [r|] eqn:Hp;
    [|discriminate].
  pose proof (strip_prefix_drop _ _ _ _ Hp) as Hr.
  change (String.length "CONFIDENCE:") with 11%nat in Hr.
  intros _.
  set (ws := Str.take_while Chars.is_space r).
  set (r' := Str.drop_while Chars.is_space r).
  set (dg := Str.take_while Chars.is_digit r').
  exists (11 + String.length ws + String.length dg)%nat.
  assert (Hlen : String.length s = (11 + String.length r)%nat).
  { clear -Hp. peel_marker Hp. injection Hp as <-. reflexivity. }
  pose proof (length_take_drop_while Chars.is_space r) as L1.
  pose proof (length_take_drop_while Chars.is_digit r') as L2.
  fold ws r' in L1. fold dg in L2.
  split; [lia|]. split.
  - rewrite <- Hr. fold r'.
    rewrite (drop_while_as_drop Chars.is_digit r'). fold dg.
    unfold r'. rewrite (drop_while_as_drop Chars.is_space r). fold ws.
    rewrite Hr, !drop_drop. f_equal; lia.
  - intros i Hi.
    destruct (Nat.lt_ge_cases i 11) as [Hlt|Hge].
    + clear -Hp Hi Hlt. peel_marker Hp.
      unfold Spec.confidence_at.
      do 11 (destruct i as [|i]; [try lia; cbn [Str.drop Str.strip_prefix];
                                  now ci_clash|]).
      lia.
    + assert (exists c t, Str.drop i s = String c t /\
                (Chars.is_space c = true \/ Chars.is_digit c = true))
        as (c & t & Hd & Hc).
      { replace i with (11 + (i - 11))%nat by lia.
        rewrite <- drop_drop, <- Hr.
        destruct (Nat.lt_ge_cases (i - 11) (String.length ws)) as [Hw|Hw].
        - destruct (drop_in_take_while _ _ _ Hw) as (c & t & ? & ?).
          exists c, t. auto.
        - replace (i - 11)%nat
            with (String.length ws + (i - 11 - String.length ws))%nat
            by lia.
          rewrite <- drop_drop. unfold ws.
          rewrite <- drop_while_as_drop. fold r'.
          destruct (drop_in_take_while Chars.is_digit
                      (i - 11 - String.length ws) r') as (c & t & ? & ?).
          { fold dg. lia. }
          exists c, t. auto. }
      unfold Spec.confidence_at. rewrite Hd. cbn [Str.strip_prefix].
      destruct (Chars.eqb_ci "C" c) eqn:E; [|reflexivity].
      destruct (eqb_ci_letter "C" c eq_refl E) as [H1 H2].
      destruct Hc; congruence.
Qed.

Lemma findall_confidence_bounded (subject : string) (n : nat) :
  forall s, (String.length s <= n)%nat ->
    Re.findall_from true confidence_re subject s O =
    Spec.occurrences Spec.confidence_at s.
Proof.
  induction n as [|n IH]; intros s Hn.
  - destruct s; [reflexivity | simpl in Hn; lia].
  - destruct s as [|c t]; [reflexivity|].
    cbn [Re.findall_from Spec.occurrences].
    rewrite confidence_match.
    pose proof (confidence_at_span (String c t)) as Hspan.
    unfold Spec.confidence_at in *.
    destruct (Str.strip_prefix true "CONFIDENCE:" (String c t)) as [r|] eqn:Hp.
    2:{ apply IH. simpl in Hn. lia. }
    pose proof (strip_prefix_drop _ _ _ _ Hp) as Hr.
  change (String.length "CONFIDENCE:") with 11%nat in Hr.
    cbv zeta.
    destruct (Str.is_empty _) eqn:He.
    { apply IH. simpl in Hn. lia. }
    destruct (Hspan _ eq_refl) as (M & HM & Hrest & Hnone).
    rewrite <- Hr in Hrest. rewrite Hrest. cbn [default].
    f_equal.
    rewrite findall_from_skip, length_drop.
    assert (HMt : Str.drop M (String c t) = Str.drop (M - 1) t).
    { destruct M as [|M]; [lia|]. cbn [Str.drop].
      now replace (S M - 1)%nat with M by lia. }
    replace (String.length (String c t) - (String.length (String c t) - M)
             - 1)%nat with (M - 1)%nat by lia.
    rewrite <- HMt, IH.
    2:{ rewrite length_drop. simpl in *. lia. }
    rewrite HMt. symmetry. apply occurrences_skip.
    intros i Hi. specialize (Hnone (S i) ltac:(lia)).
    exact Hnone.
Qed.

(** [re.findall] with the confidence pattern lists every occurrence. *)
Lemma findall_confidence (raw : string) :
  Re.findall true confidence_re raw =
  Spec.occurrences Spec.confidence_at raw.
Proof. apply (findall_confidence_bounded raw (String.length raw)). lia. Qed.

End ConfidenceScan.

(** ** The answer marker *)

Section AnswerScan.

Import Parsing.

Lemma findall_answer_no_marker (subject s : string) (n : nat) :
  Spec.occurrences Spec.answer_at s = [] ->
  Re.findall_from true answer_re subject s n = [].
Proof.
  revert n; induction s as [|c t IH]; intros n H; [reflexivity|].
  cbn [Spec.occurrences] in H.
  destruct (Spec.answer_at (String c t)) eqn:E; [discriminate|].
  cbn [Re.findall_from]. destruct n as [|n]; [|now apply IH].
  unfold answer_re. rewrite match_here_lits.
  unfold Spec.answer_at in E. rewrite E. now apply IH.
Qed.

(** A raw output without the marker, in any case, has no answer. *)
Lemma parse_answer_no_marker (raw : string) :
  Spec.occurrences Spec.answer_at raw = [] -> parse_answer raw = None.
Proof.
  intros H. unfold parse_answer, Re.findall.
  destruct (Str.is_empty raw); [reflexivity|].
  now rewrite findall_answer_no_marker.
Qed.

End AnswerScan.

Example parse_answer_two_lines :
  Parsing.parse_answer ("ANSWER: 1" +:+ newline +:+ "ANSWER: 2") = Some "2".
Proof. vm_compute. reflexivity. Qed.

Example parse_answer_empty_restatement :
  Parsing.parse_answer ("ANSWER: 5" +:+ newline +:+ "ANSWER:") = Some "5".
Proof. vm_compute. reflexivity. Qed.

(** C2.  A raw output that repeats the marker on one line: the text after
    the last marker is " 2", whose answer is "2"; the code answers with
    the whole rest of the line after the first marker. *)
Theorem parse_answer_two_markers_one_line :
  last (Spec.occurrences Spec.answer_at "ANSWER: 1 ANSWER: 2") = Some " 2" /\
  Parsing.parse_answer "ANSWER: 2" = Some "2" /\
  Parsing.parse_answer "ANSWER: 1 ANSWER: 2" = Some "1 answer: 2".
Proof. repeat split; vm_compute; reflexivity. Qed.

(** ** Confidence *)



Example parse_confidence_repeated :
  Parsing.parse_confidence
    ("CONFIDENCE: 30" +:+ newline +:+ "confidence:250") = Ret (Some 100).
Proof. vm_compute. reflexivity. Qed.

(** ** Properties kept by the string methods *)

Section Forallb.

Variable P : ascii -> bool.
Variable q : ascii -> bool.

Lemma forallb_take_while (s : string) :
  Str.forallb P s = true -> Str.forallb P (Str.take_while q s) = true.
Proof.
  induction s as [|c t IH]; simpl; [easy|].
  intros [Hc Ht]%andb_prop. destruct (q c); simpl; [|easy].
  now rewrite Hc, IH.
Qed.

Lemma forallb_drop_while (s : string) :
  Str.forallb P s = true -> Str.forallb P (Str.drop_while q s) = true.
Proof.
  induction s as [|c t IH]; simpl; [easy|].
  intros H. destruct (andb_prop _ _ H) as [Hc Ht].
  destruct (q c); simpl; [auto | easy].
Qed.

Lemma forallb_filter (s : string) :
  Str.forallb P s = true -> Str.forallb P (Str.filter q s) = true.
Proof.
  induction s as [|c t IH]; simpl; [easy|].
  intros [Hc Ht]%andb_prop. destruct (q c); simpl; [|auto].
  now rewrite Hc, IH.
Qed.

Lemma forallb_rstrip_by (s : string) :
  Str.forallb P s = true -> Str.forallb P (Str.rstrip_by q s) = true.
Proof.
  induction s as [|c t IH]; simpl; [easy|].
  intros [Hc Ht]%andb_prop. specialize (IH Ht).
  destruct (Str.rstrip_by q t).
  - destruct (q c); simpl; [easy | now rewrite Hc].
  - cbn [Str.forallb] in *. now rewrite Hc, IH.
Qed.

Lemma forallb_strip_by (s : string) :
  Str.forallb P s = true -> Str.forallb P (Str.strip_by q s) = true.
Proof.
  intros H. apply forallb_rstrip_by. now apply forallb_drop_while.
Qed.

Lemma forallb_init (s : string) :
  Str.forallb P s = true -> Str.forallb P (Str.init s) = true.
Proof.
  induction s as [|c t IH]; [easy|].
  cbn [Str.forallb]. intros [Hc Ht]%andb_prop. specialize (IH Ht).
  destruct t as [|d u]; [easy|].
  change (Str.init (String c (String d u)))
    with (String c (Str.init (String d u))).
  cbn [Str.forallb]. now rewrite Hc, IH.
Qed.

Lemma forallb_tail (s : string) :
  Str.forallb P s = true -> Str.forallb P (Str.tail s) = true.
Proof. destruct s; simpl; [easy|]. now intros [_ ?]%andb_prop. Qed.

End Forallb.

Lemma forallb_impl (P Q : ascii -> bool) (s : string) :
  (forall c, P c = true -> Q c = true) ->
  Str.forallb P s = true -> Str.forallb Q s = true.
Proof.
  intros H. induction s as [|c t IH]; simpl; [easy|].
  intros [Hc Ht]%andb_prop. now rewrite (H c Hc), IH.
Qed.

Lemma rstrip_by_cons (p : ascii -> bool) (c : ascii) (t : string) :
  Str.rstrip_by p (String c t) =
  match Str.rstrip_by p t with
  | EmptyString => if p c then EmptyString else String c EmptyString
  | t' => String c t'
  end.
Proof. reflexivity. Qed.

(** Trimming does nothing to a string that neither starts nor ends with a
    character of the set. *)
Lemma rstrip_by_idem (p : ascii -> bool) (s : string) :
  Str.rstrip_by p (Str.rstrip_by p s) = Str.rstrip_by p s.
Proof.
  induction s as [|c t IH]; [reflexivity|].
  cbn [Str.rstrip_by].
  destruct (Str.rstrip_by p t) as [|d u] eqn:E.
  - destruct (p c) eqn:Ec; [reflexivity|]. cbn [Str.rstrip_by]. now rewrite Ec.
  - now rewrite rstrip_by_cons, IH.
Qed.

Lemma lstrip_rstrip (p : ascii -> bool) (s : string) :
  Str.drop_while p (Str.rstrip_by p (Str.drop_while p s)) =
  Str.rstrip_by p (Str.drop_while p s).
Proof.
  induction s as [|c t IH]; [reflexivity|].
  cbn [Str.drop_while]. destruct (p c) eqn:E; [exact IH|].
  rewrite rstrip_by_cons. destruct (Str.rstrip_by p t); rewrite ?E;
    cbn [Str.drop_while]; now rewrite E.
Qed.

Lemma strip_by_idem (p : ascii -> bool) (s : string) :
  Str.strip_by p (Str.strip_by p s) = Str.strip_by p s.
Proof.
  unfold Str.strip_by, Str.lstrip_by.
  now rewrite lstrip_rstrip, rstrip_by_idem.
Qed.

Lemma strip_by_none (p : ascii -> bool) (s : string) :
  Str.forallb (fun c => negb (p c)) s = true -> Str.strip_by p s = s.
Proof.
  unfold Str.strip_by, Str.lstrip_by.
  induction s as [|c t IH]; [reflexivity|].
  cbn [Str.forallb Str.drop_while]. intros [Hc Ht]%andb_prop.
  apply negb_true_iff in Hc. rewrite Hc, rstrip_by_cons.
  specialize (IH Ht).
  destruct t as [|d u]; [simpl; now rewrite Hc|].
  cbn [Str.forallb] in Ht. apply andb_prop in Ht as [Hd _].
  apply negb_true_iff in Hd. cbn [Str.drop_while] in IH. rewrite Hd in IH.
  rewrite IH. reflexivity.
Qed.

(** Lowering the case commutes with trimming. *)
Lemma is_space_lower (c : ascii) :
  Chars.is_space (Chars.lower c) = Chars.is_space c.
Proof.
  unfold Chars.is_space. rewrite code_lower.
  unfold Chars.is_upper. split_codes.
Qed.

Lemma lower_drop_while_space (s : string) :
  Str.lower (Str.drop_while Chars.is_space s) =
  Str.drop_while Chars.is_space (Str.lower s).
Proof.
  induction s as [|c t IH]; [reflexivity|].
  cbn [Str.lower Str.map Str.drop_while]. rewrite is_space_lower.
  destruct (Chars.is_space c); [exact IH | reflexivity].
Qed.

Lemma lower_rstrip_space (s : string) :
  Str.lower (Str.rstrip_by Chars.is_space s) =
  Str.rstrip_by Chars.is_space (Str.lower s).
Proof.
  induction s as [|c t IH]; [reflexivity|].
  cbn [Str.lower Str.map Str.rstrip_by]. fold (Str.lower t).
  rewrite <- IH, is_space_lower.
  destruct (Str.rstrip_by Chars.is_space t); [|reflexivity].
  cbn. now destruct (Chars.is_space c).
Qed.

Lemma lower_strip (s : string) :
  Str.lower (Str.strip s) = Str.strip (Str.lower s).
Proof.
  unfold Str.strip, Str.strip_by, Str.lstrip_by.
  now rewrite lower_rstrip_space, lower_drop_while_space.
Qed.

Lemma lower_not_upper (s : string) :
  Str.forallb (fun c => negb (Chars.is_upper c)) (Str.lower s) = true.
Proof.
  induction s as [|c t IH]; [reflexivity|].
  cbn [Str.lower Str.map Str.forallb]. fold (Str.lower t). rewrite IH.
  rewrite andb_true_r. unfold Chars.is_upper at 1. rewrite code_lower.
  unfold Chars.is_upper. split_codes.
Qed.

Lemma lower_not_newline (s : string) :
  Str.forallb Chars.not_newline s = true ->
  Str.forallb Chars.not_newline (Str.lower s) = true.
Proof.
  induction s as [|c t IH]; [easy|].
  cbn [Str.lower Str.map Str.forallb]. fold (Str.lower t).
  intros [Hc Ht]%andb_prop. rewrite (IH Ht), andb_true_r.
  unfold Chars.not_newline in *. rewrite code_lower.
  unfold Chars.is_upper. split_codes.
Qed.

(** ** The unit pattern *)

Section EngineCut.

Context {A : Type}.
Variable p : ascii -> bool.
Variable k : string -> option A.

(** When the continuation rejects whatever starts inside the run, a
    greedy repetition stands for "skip the whole run". *)
Lemma star_cut (s : string) :
  (forall c t, p c = true -> k (String c t) = None) ->
  Re.star p s k = k (Str.drop_while p s).
Proof.
  intros Hk. destruct (k (Str.drop_while p s)) eqn:E.
  - now apply star_longest.
  - now apply star_none.
Qed.

Lemma plus_cut (s : string) :
  (forall c t, p c = true -> k (String c t) = None) ->
  Re.plus p s k =
  if Str.is_empty (Str.take_while p s) then None
  else k (Str.drop_while p s).
Proof.
  intros Hk. destruct s as [|c t]; [reflexivity|].
  cbn [Re.plus Str.take_while Str.drop_while].
  destruct (p c); [|reflexivity]. now apply star_cut.
Qed.

Lemma alt_none (ic : bool) (ws : list string) (u : string) :
  (forall w, In w ws -> Str.strip_prefix ic w u = None) ->
  Re.alt ic ws u k = None.
Proof.
  induction ws as [|w ws IH]; intros H; [reflexivity|].
  cbn [Re.alt]. rewrite (H w (or_introl eq_refl)).
  apply IH. intros w' Hw'. apply H. now right.
Qed.

End EngineCut.

Lemma alt_group (ic : bool) (ws : list string) (u : string)
      (k : string -> option (string * option string))
      (g : string -> bool) (cap : option string) :
  (forall r, snd <$> k r = if g r then Some cap else None) ->
  snd <$> Re.alt ic ws u k =
  if existsb (fun w => match Str.strip_prefix ic w u with
                       | Some r => g r
                       | None => false
                       end) ws
  then Some cap else None.
Proof.
  intros Hk. induction ws as [|w ws IH]; [reflexivity|].
  cbn [Re.alt existsb].
  destruct (Str.strip_prefix ic w u) as [r|]; [|exact IH].
  specialize (Hk r). destruct (k r) as [x|]; cbn in *.
  - destruct (g r); [exact Hk | discriminate].
  - destruct (g r); [discriminate | exact IH].
Qed.

Lemma numch_not_space (c : ascii) :
  Parsing.is_numch c = true -> Chars.is_space c = false.
Proof.
  unfold Parsing.is_numch. intros [H|H]%orb_prop.
  - destruct (Chars.is_space c) eqn:E; [|reflexivity].
    now rewrite (space_not_digit c E) in H.
  - cbn in H. repeat (apply orb_prop in H as [H|H]);
      try discriminate; apply Ascii.eqb_eq in H; now subst.
Qed.

Lemma eqb_ci_not_space (a c : ascii) :
  Chars.eqb_ci a c = true -> Chars.is_space a = false ->
  Chars.is_upper a = false -> Chars.is_space c = false.
Proof.
  unfold Chars.eqb_ci. intros E Hs Hu. apply Ascii.eqb_eq in E.
  apply (f_equal Chars.code) in E. rewrite !code_lower, Hu in E.
  unfold Chars.is_space, Chars.is_upper in *. split_codes.
Qed.

Section UnitMatch.

Import Parsing UnitPattern.

Lemma unit_words_heads : forallb word_head_ok unit_words = true.
Proof. reflexivity. Qed.

Lemma unit_word_after_space (w : string) (c : ascii) (t : string) :
  In w unit_words -> Chars.is_space c = true ->
  Str.strip_prefix true w (String c t) = None.
Proof.
  intros Hw Hc.
  pose proof (proj1 (forallb_forall _ _) unit_words_heads w Hw) as H.
  destruct w as [|a w]; [discriminate|].
  cbn [word_head_ok] in H. apply andb_prop in H as [H1 H2].
  apply negb_true_iff in H1, H2. cbn [Str.strip_prefix].
  destruct (Chars.eqb_ci a c) eqn:E; [|reflexivity].
  now rewrite (eqb_ci_not_space a c E H1 H2) in Hc.
Qed.

Lemma period_end (subject : string) (op cap : option string)
      (r : string) :
  snd <$> Re.match_here true subject [Re.Opt (Ascii.eqb "."); Re.Eol]
                        op cap r =
  if tail_end r then Some cap else None.
Proof.
  destruct r as [|c [|d [|e r]]];
    cbn -[Ascii.eqb Chars.code N.eqb]; [reflexivity|..];
    destruct (Ascii.eqb "." c); cbn -[Ascii.eqb Chars.code N.eqb];
    repeat match goal with
           | |- context [(?a =? ?b)%N] =>
               destruct (a =? b)%N; cbn -[Ascii.eqb Chars.code N.eqb]
           end; reflexivity.
Qed.

(** [re.match] with the unit pattern: the group is the leading run of
    number characters, and the match exists exactly when that run and
    the whitespace after it are not empty and a unit ends the text. *)
Lemma unit_match (s : string) :
  Re.match_group true unit_pattern s =
  let number := Str.take_while is_numch s in
  let after := Str.drop_while is_numch s in
  let gap := Str.take_while Chars.is_space after in
  let unit := Str.drop_while Chars.is_space after in
  if negb (Str.is_empty number) && negb (Str.is_empty gap)
     && unit_tail unit
  then Some number else None.
Proof.
  unfold Re.match_group, unit_pattern.
  set (rest := [Re.Alt unit_words; Re.Opt (Ascii.eqb "."); Re.Eol]).
  cbn [Re.match_here]. rewrite Nat.eqb_refl.
  set (k2 := fun cap => Re.match_here true s rest (Some s) cap).
  set (k1 := fun v =>
               Re.plus Chars.is_space v (k2 (Some (Re.captured s v)))).
  match goal with
  | |- _ = ?R =>
      change (match Re.plus is_numch s k1 with
              | Some (_, cap) => Some (default EmptyString cap)
              | None => None
              end = R)
  end.
  assert (Hk2 : forall cap c t, Chars.is_space c = true ->
                  k2 cap (String c t) = None).
  { intros cap c t Hc. unfold k2, rest. cbn [Re.match_here].
    apply alt_none. intros w Hw. now apply unit_word_after_space. }
  assert (Hk1 : forall c t, is_numch c = true -> k1 (String c t) = None).
  { intros c t Hc. unfold k1. cbn [Re.plus].
    now rewrite (numch_not_space c Hc). }
  rewrite (plus_cut is_numch k1 s Hk1). cbv zeta.
  destruct (Str.is_empty (Str.take_while is_numch s)); [reflexivity|].
  cbn [negb andb]. unfold k1.
  rewrite (plus_cut Chars.is_space
             (k2 (Some (Re.captured s (Str.drop_while is_numch s))))
             _ (Hk2 _)).
  destruct (Str.is_empty (Str.take_while Chars.is_space _)); [reflexivity|].
  cbn [negb andb]. rewrite captured_take_while.
  unfold k2, rest. cbn [Re.match_here].
  pose proof (alt_group true unit_words
                (Str.drop_while Chars.is_space (Str.drop_while is_numch s))
                _ tail_end (Some (Str.take_while is_numch s))
                (period_end s (Some s) _)) as H.
  fold (unit_tail (Str.drop_while Chars.is_space
                     (Str.drop_while is_numch s))) in H.
  destruct (Re.alt _ _ _ _) as [[r cap]|];
    cbn [fmap option_fmap option_map snd] in H;
    destruct (unit_tail _); try discriminate; [|reflexivity].
  injection H as ->. reflexivity.
Qed.

End UnitMatch.

(** ** The unit vocabulary on normalized text *)

Lemma eqb_ci_exact (a b : ascii) :
  not_upper a = true -> not_upper b = true ->
  Chars.eqb_ci a b = Ascii.eqb a b.
Proof.
  unfold not_upper, Chars.eqb_ci, Chars.lower.
  intros Ha%negb_true_iff Hb%negb_true_iff. now rewrite Ha, Hb.
Qed.

Lemma strip_prefix_exact (w u : string) :
  Str.forallb not_upper w = true -> Str.forallb not_upper u = true ->
  Str.strip_prefix true w u = Str.strip_prefix false w u.
Proof.
  revert u; induction w as [|a w IH]; intros u Hw Hu; [reflexivity|].
  destruct u as [|b u]; [reflexivity|].
  cbn [Str.forallb] in Hw, Hu.
  apply andb_prop in Hw as [Ha Hw]. apply andb_prop in Hu as [Hb Hu].
  cbn [Str.strip_prefix]. rewrite (eqb_ci_exact a b Ha Hb).
  destruct (Ascii.eqb a b); [now apply IH | reflexivity].
Qed.

Lemma tail_end_no_newline (u : string) :
  Str.forallb Chars.not_newline u = true ->
  UnitPattern.tail_end u = String.eqb u EmptyString || String.eqb u ".".
Proof.
  destruct u as [|c [|d [|e u]]]; cbn -[Ascii.eqb Chars.code N.eqb];
    [reflexivity|..]; unfold Chars.not_newline;
    rewrite (Ascii.eqb_sym c ".");
    destruct (Ascii.eqb "." c); try destruct (Chars.code c =? 10)%N;
    try destruct (Chars.code d =? 10)%N; cbn; intros; congruence.
Qed.

Lemma unit_word_exact (w u : string) :
  Str.forallb Chars.not_newline u = true ->
  match Str.strip_prefix false w u with
  | Some r => UnitPattern.tail_end r
  | None => false
  end = String.eqb u w || String.eqb u (w +:+ ".").
Proof.
  revert u; induction w as [|a w IH]; intros u Hu.
  - cbn [Str.strip_prefix]. rewrite append_empty_l.
    now apply tail_end_no_newline.
  - destruct u as [|b u]; [reflexivity|].
    cbn [Str.forallb] in Hu. apply andb_prop in Hu as [_ Hu].
    cbn [Str.strip_prefix]. rewrite append_cons. cbn [String.eqb].
    rewrite (Ascii.eqb_sym b a).
    destruct (Ascii.eqb a b); [now apply IH | reflexivity].
Qed.

Lemma unit_words_lowercase :
  forallb (Str.forallb not_upper) Parsing.unit_words = true.
Proof. reflexivity. Qed.

Lemma existsb_agree {A} (f g : A -> bool) (l : list A) :
  (forall x, In x l -> f x = g x) -> existsb f l = existsb g l.
Proof.
  induction l as [|x l IH]; intros H; [reflexivity|].
  cbn [existsb]. rewrite (H x (or_introl eq_refl)), IH; [reflexivity|].
  intros y Hy. apply H. now right.
Qed.

(** On lowercase text without line feeds the pattern's alternation is
    membership in the vocabulary. *)
Lemma unit_tail_is_unit (u : string) :
  Str.forallb not_upper u = true ->
  Str.forallb Chars.not_newline u = true ->
  UnitPattern.unit_tail u = Spec.is_unit u.
Proof.
  intros Hlow Hnl. unfold UnitPattern.unit_tail, Spec.is_unit.
  apply existsb_agree. intros w Hw.
  pose proof (proj1 (forallb_forall _ _) unit_words_lowercase w Hw) as Hlw.
  rewrite (strip_prefix_exact w u Hlw Hlow).
  now apply unit_word_exact.
Qed.

Lemma forallb_take_while_self (p : ascii -> bool) (s : string) :
  Str.forallb p (Str.take_while p s) = true.
Proof.
  induction s as [|c t IH]; [reflexivity|]. cbn [Str.take_while].
  destruct (p c) eqn:E; [|reflexivity]. cbn [Str.forallb]. now rewrite E.
Qed.

Lemma strip_number (s : string) :
  Str.strip (Str.take_while Parsing.is_numch s) =
  Str.take_while Parsing.is_numch s.
Proof.
  apply strip_by_none.
  apply (forallb_impl Parsing.is_numch); [|apply forallb_take_while_self].
  intros c Hc. now rewrite (numch_not_space c Hc).
Qed.

(** ** The groups the answer pattern catches *)

Lemma star_some_suffix {A} (p : ascii -> bool) (k : string -> option A)
      (s : string) (r : A) :
  Re.star p s k = Some r -> exists u, k u = Some r.
Proof.
  induction s as [|c t IH]; cbn [Re.star]; [eauto|].
  destruct (p c); [|eauto].
  destruct (Re.star p t k) as [x|] eqn:E; [|eauto].
  intros [= <-]. now apply IH.
Qed.

Lemma answer_group_no_newline (subject s rest : string)
      (cap : option string) :
  Re.match_here true subject Parsing.answer_re None None s = Some (rest, cap) ->
  Str.forallb Chars.not_newline (default EmptyString cap) = true.
Proof.
  unfold Parsing.answer_re. rewrite match_here_lits.
  destruct (Str.strip_prefix true "ANSWER:" s) as [r|]; [|discriminate].
  cbn [app]. rewrite match_here_star.
  intros [u Hu]%star_some_suffix. rewrite group_plus in Hu. cbv zeta in Hu.
  destruct (Str.is_empty _); [discriminate|].
  injection Hu as _ <-. apply forallb_take_while_self.
Qed.

Lemma findall_answer_no_newline (subject s : string) (n : nat) :
  Forall (fun m => Str.forallb Chars.not_newline m = true)
         (Re.findall_from true Parsing.answer_re subject s n).
Proof.
  revert n; induction s as [|c t IH]; intros n; [constructor|].
  cbn [Re.findall_from]. destruct n as [|n]; [|apply IH].
  destruct (Re.match_here _ _ _ _ _ _) as [[rest cap]|] eqn:E; [|apply IH].
  constructor; [|apply IH]. exact (answer_group_no_newline _ _ _ _ E).
Qed.

(** ** Normalization of the answer *)

Section Extensionality.

Variable p q : ascii -> bool.
Hypothesis Hpq : forall c, p c = q c.

Lemma take_while_ext (s : string) : Str.take_while p s = Str.take_while q s.
Proof.
  induction s as [|c t IH]; [reflexivity|].
  cbn [Str.take_while]. now rewrite Hpq, IH.
Qed.

Lemma drop_while_ext (s : string) : Str.drop_while p s = Str.drop_while q s.
Proof.
  induction s as [|c t IH]; [reflexivity|].
  cbn [Str.drop_while]. now rewrite Hpq, IH.
Qed.

Lemma rstrip_by_ext (s : string) : Str.rstrip_by p s = Str.rstrip_by q s.
Proof.
  induction s as [|c t IH]; [reflexivity|].
  cbn [Str.rstrip_by]. now rewrite Hpq, IH.
Qed.

Lemma strip_by_ext (s : string) : Str.strip_by p s = Str.strip_by q s.
Proof.
  unfold Str.strip_by, Str.lstrip_by.
  now rewrite drop_while_ext, rstrip_by_ext.
Qed.

Lemma filter_ext (s : string) : Str.filter p s = Str.filter q s.
Proof.
  induction s as [|c t IH]; [reflexivity|].
  cbn [Str.filter]. now rewrite Hpq, IH.
Qed.

End Extensionality.

(** The code's character sets and word list are those of the
    specification. *)
Lemma is_number_char_numch (c : ascii) :
  Spec.is_number_char c = Parsing.is_numch c.
Proof.
  unfold Spec.is_number_char, Parsing.is_numch. cbn [Str.mem].
  now rewrite orb_false_r, !orb_assoc.
Qed.

Lemma quote_or_space_mem (c : ascii) :
  Spec.quote_or_space c = Str.mem c Parsing.quote_chars.
Proof.
  unfold Spec.quote_or_space, Spec.is_quote, Parsing.quote_chars.
  cbn [Str.mem]. rewrite orb_false_r, !orb_assoc.
  destruct c as [[] [] [] [] [] [] [] []]; reflexivity.
Qed.

Lemma vocabulary_unit_words : Spec.vocabulary = Parsing.unit_words.
Proof. reflexivity. Qed.

Lemma clean_split (s : string) :
  Str.forallb clean s = true ->
  Str.forallb not_upper s = true /\ Str.forallb Chars.not_newline s = true.
Proof.
  intros H. split; apply (forallb_impl clean); try assumption;
    unfold clean; now intros c [? ?]%andb_prop.
Qed.

Lemma clean_join (s : string) :
  Str.forallb not_upper s = true -> Str.forallb Chars.not_newline s = true ->
  Str.forallb clean s = true.
Proof.
  induction s as [|c t IH]; [easy|]. cbn [Str.forallb].
  intros [H1 H2]%andb_prop [H3 H4]%andb_prop.
  unfold clean at 1. now rewrite H1, H3, IH.
Qed.

Lemma normalize_clean (m : string) :
  Str.forallb Chars.not_newline m = true ->
  Str.forallb clean (Spec.normalize m) = true.
Proof.
  intros H. unfold Spec.normalize, Str.strip_chars, Str.remove_char.
  apply forallb_strip_by, forallb_filter, clean_join.
  - apply lower_not_upper.
  - apply lower_not_newline. unfold Str.strip. now apply forallb_strip_by.
Qed.

Lemma strip_period_clean (s : string) :
  Str.forallb clean s = true -> Str.forallb clean (Spec.strip_period s) = true.
Proof.
  intros H. unfold Spec.strip_period. destruct (Str.ends_with "." s); [|easy].
  unfold Str.strip. now apply forallb_strip_by, forallb_init.
Qed.

Lemma strip_currency_clean (s : string) :
  Str.forallb clean s = true ->
  Str.forallb clean (Spec.strip_currency s) = true.
Proof.
  intros H. unfold Spec.strip_currency.
  destruct (Str.starts_with "$" s); [|easy].
  unfold Str.strip. now apply forallb_strip_by, forallb_tail.
Qed.

(** On lowercase text without line feeds, the code's regex step is the
    specification's unit reduction. *)
Lemma unit_step (a : string) :
  Str.forallb clean a = true ->
  match Re.match_group true Parsing.unit_pattern a with
  | Some g => Str.strip g
  | None => a
  end = Spec.reduce_unit a.
Proof.
  intros Ha. rewrite unit_match. unfold Spec.reduce_unit. cbv zeta.
  rewrite !(take_while_ext _ _ is_number_char_numch),
    !(drop_while_ext _ _ is_number_char_numch).
  assert (Hu : Str.forallb clean
                 (Str.drop_while Chars.is_space
                    (Str.drop_while Parsing.is_numch a)) = true)
    by now do 2 apply forallb_drop_while.
  apply clean_split in Hu as [Hu1 Hu2].
  rewrite (unit_tail_is_unit _ Hu1 Hu2).
  destruct (_ && _ && _); [apply strip_number | reflexivity].
Qed.

Lemma normalize_answer_spec (m : string) :
  Str.forallb Chars.not_newline m = true ->
  Parsing.normalize_answer m = Spec.final_text m.
Proof.
  intros Hm.
  unfold Parsing.normalize_answer, Spec.final_text, Spec.final_text_by.
  assert (E : Str.strip (Str.lower (Str.strip m)) = Str.lower (Str.strip m)).
  { rewrite lower_strip. apply strip_by_idem. }
  rewrite E.
  assert (N : Str.strip_chars Parsing.quote_chars
                (Str.remove_char "," (Str.lower (Str.strip m))) =
              Spec.normalize m).
  { unfold Spec.normalize, Spec.normalize_by, Str.strip_chars.
    apply strip_by_ext. intros c. symmetry. apply quote_or_space_mem. }
  rewrite N. fold (Spec.normalize m).
  fold (Spec.strip_period (Spec.normalize m)).
  fold (Spec.strip_currency (Spec.strip_period (Spec.normalize m))).
  apply unit_step.
  now apply strip_currency_clean, strip_period_clean, normalize_clean.
Qed.



(** ** The scorer *)

Section ScorerFacts.

Import Scoring.

(** [float()] raises nothing but [ValueError]. *)
Lemma of_string_raises (s : string) (e : exn) :
  Float.of_string s = Raise e -> exists m, e = ValueError m.
Proof.
  unfold Float.of_string, Float.bad_literal.
  repeat case_match; intros [= <-]; eauto.
Qed.

(** Float division raises nothing but [ZeroDivisionError], and raises
    it exactly on a zero divisor. *)
Lemma div_raises (a b : Float.float) (e : exn) :
  Float.div a b = Raise e ->
  Float.is_zero b = true /\ exists m, e = ZeroDivisionError m.
Proof.
  unfold Float.div. destruct (Float.is_zero b); [|discriminate].
  intros [= <-]. eauto.
Qed.

(** Whatever the body of the [try] raises, the [except] clause
    catches. *)
Lemma normalize_numeric_body_raises (v : string) (e : exn) :
  normalize_numeric_body v = Raise e -> is_value_or_zero_division e = true.
Proof.
  unfold normalize_numeric_body.
  destruct (_ =? 1)%nat.
  - destruct (split_slash _) as [num den].
    destruct (Float.of_string (Str.strip num)) as [n|e1] eqn:E1; cbn.
    + destruct (Float.of_string (Str.strip den)) as [d|e2] eqn:E2; cbn.
      * intros (_ & m & ->)%div_raises. reflexivity.
      * intros [= <-]. now destruct (of_string_raises _ _ E2) as [m ->].
    + intros [= <-]. now destruct (of_string_raises _ _ E1) as [m ->].
  - intros (m & ->)%of_string_raises. reflexivity.
Qed.

Lemma fraction_parts_split (s : string) :
  Spec.fraction_parts s = split_slash s.
Proof. reflexivity. Qed.

Lemma normalize_numeric_spec (v : string) :
  normalize_numeric v = Ret (Spec.number v).
Proof.
  unfold normalize_numeric, try_except, Spec.number.
  rewrite fraction_parts_split.
  change (Str.count (fun c => Ascii.eqb c "/")) with (Str.count is_slash).
  pose proof (normalize_numeric_body_raises v) as Hraise.
  unfold normalize_numeric_body in *.
  destruct (_ =? 1)%nat.
  - destruct (split_slash _) as [num den].
    destruct (Float.of_string (Str.strip num)) as [n|e1]; cbn in *.
    + destruct (Float.of_string (Str.strip den)) as [d|e2]; cbn in *.
      * unfold Float.div in *. destruct (Float.is_zero d); reflexivity.
      * now rewrite (Hraise _ eq_refl).
    + now rewrite (Hraise _ eq_refl).
  - destruct (Float.of_string _) as [x|e]; cbn in *;
      [reflexivity | now rewrite (Hraise _ eq_refl)].
Qed.

(** The code's list of refusals holds the three phrases of the
    specification. *)
Lemma is_refusal_code (a : string) :
  bool_decide (Str.lower (Str.strip a) ∈ refusals) = Spec.is_refusal a.
Proof.
  unfold Spec.is_refusal, refusals. cbv zeta.
  generalize (Str.lower (Str.strip a)). intros n.
  destruct (String.eqb_spec n "unknown") as [->|H1]; [reflexivity|].
  destruct (String.eqb_spec n "i don't know") as [->|H2]; [reflexivity|].
  destruct (String.eqb_spec n "cannot determine") as [->|H3]; [reflexivity|].
  apply bool_decide_eq_false_2. intros H.
  repeat (apply elem_of_cons in H as [H|H]; [congruence|]).
  now apply elem_of_nil in H.
Qed.

(** *** The code's text normalization is the specification's *)

Lemma is_text_char_kept (c : ascii) : Spec.is_text_char c = is_kept c.
Proof.
  unfold Spec.is_text_char, is_kept. cbn [Str.mem].
  now rewrite orb_false_r, !orb_assoc.
Qed.

Lemma collapse_in_run_head (s : string) :
  Str.drop_while Chars.is_space (collapse_from true s) = collapse_from true s.
Proof.
  induction s as [|c t IH]; [reflexivity|]. cbn [collapse_from].
  destruct (Chars.is_space c) eqn:E; [exact IH|].
  cbn [Str.drop_while]. now rewrite E.
Qed.

Lemma collapse_lstrip (s : string) :
  Str.drop_while Chars.is_space (collapse_from false s) =
  collapse_from true s.
Proof.
  destruct s as [|c t]; [reflexivity|]. cbn [collapse_from].
  destruct (Chars.is_space c) eqn:E; cbn [Str.drop_while].
  - change (Chars.is_space " ") with true. cbv iota.
    apply collapse_in_run_head.
  - now rewrite E.
Qed.

Lemma squeeze_after_gap (t : string) :
  Spec.squeeze Spec.AfterGap t =
  match Spec.squeeze Spec.AtStart t with
  | EmptyString => EmptyString
  | r => String " " r
  end.
Proof.
  induction t as [|c t IH]; [reflexivity|]. cbn [Spec.squeeze].
  now destruct (Chars.is_space c).
Qed.

Lemma rstrip_collapse (s : string) :
  Str.rstrip_by Chars.is_space (collapse_from true s) =
    Spec.squeeze Spec.AtStart s /\
  Str.rstrip_by Chars.is_space (collapse_from false s) =
    Spec.squeeze Spec.InWord s.
Proof.
  induction s as [|c t [IH1 IH2]]; [split; reflexivity|].
  cbn [collapse_from Spec.squeeze].
  destruct (Chars.is_space c) eqn:E.
  - split; [exact IH1|]. rewrite rstrip_by_cons, IH1, squeeze_after_gap.
    now destruct (Spec.squeeze Spec.AtStart t).
  - rewrite rstrip_by_cons, IH2, E.
    now destruct (Spec.squeeze Spec.InWord t).
Qed.

Lemma strip_collapse (s : string) :
  Str.strip (collapse_spaces s) = Spec.squeeze Spec.AtStart s.
Proof.
  unfold Str.strip, Str.strip_by, Str.lstrip_by, collapse_spaces.
  rewrite collapse_lstrip. apply rstrip_collapse.
Qed.

Lemma squeeze_spaces (s : string) :
  Str.forallb Chars.is_space s = true ->
  forall p, Spec.squeeze p s = EmptyString.
Proof.
  induction s as [|c t IH]; [reflexivity|]. cbn [Str.forallb Spec.squeeze].
  intros [Hc Ht]%andb_prop p. rewrite Hc. now apply IH.
Qed.

Lemma rstrip_empty (s : string) :
  Str.rstrip_by Chars.is_space s = EmptyString ->
  Str.forallb Chars.is_space s = true.
Proof.
  induction s as [|c t IH]; [reflexivity|]. rewrite rstrip_by_cons.
  destruct (Str.rstrip_by Chars.is_space t); [|discriminate].
  cbn [Str.forallb]. destruct (Chars.is_space c); [|discriminate].
  intros _. now apply IH.
Qed.

Lemma filter_spaces (s : string) :
  Str.forallb Chars.is_space s = true -> Str.filter is_kept s = s.
Proof.
  induction s as [|c t IH]; [reflexivity|]. cbn [Str.forallb Str.filter].
  intros [Hc Ht]%andb_prop. unfold is_kept at 1.
  now rewrite Hc, orb_true_r, IH.
Qed.

Lemma squeeze_filter_rstrip (s : string) :
  forall p,
    Spec.squeeze p (Str.filter is_kept (Str.rstrip_by Chars.is_space s)) =
    Spec.squeeze p (Str.filter is_kept s).
Proof.
  induction s as [|c t IH]; intros p; [reflexivity|].
  rewrite rstrip_by_cons.
  destruct (Str.rstrip_by Chars.is_space t) as [|d r] eqn:R.
  - apply rstrip_empty in R.
    assert (Z : forall q, Spec.squeeze q (Str.filter is_kept t) = EmptyString).
    { intros q. rewrite (filter_spaces t R). now apply squeeze_spaces. }
    destruct (Chars.is_space c) eqn:E.
    + cbn [Str.filter]. unfold is_kept at 1. rewrite E, orb_true_r.
      cbn [orb Spec.squeeze]. now rewrite E, Z.
    + cbn [Str.filter]. destruct (is_kept c); [|now rewrite Z].
      cbn [Spec.squeeze]. now rewrite E, Z.
  - cbn [Str.filter]. destruct (is_kept c); [|apply IH].
    cbn [Spec.squeeze]. now rewrite !IH.
Qed.

Lemma squeeze_filter_lstrip (s : string) :
  Spec.squeeze Spec.AtStart
    (Str.filter is_kept (Str.drop_while Chars.is_space s)) =
  Spec.squeeze Spec.AtStart (Str.filter is_kept s).
Proof.
  induction s as [|c t IH]; [reflexivity|]. cbn [Str.drop_while].
  destruct (Chars.is_space c) eqn:E; [|reflexivity].
  cbn [Str.filter]. unfold is_kept at 2. rewrite E, orb_true_r.
  cbn [orb Spec.squeeze]. now rewrite E.
Qed.

Lemma normalize_text_key (v : string) :
  normalize_text v = Spec.text_key v.
Proof.
  unfold normalize_text, Spec.text_key.
  rewrite strip_collapse. unfold Str.strip, Str.strip_by, Str.lstrip_by.
  rewrite squeeze_filter_rstrip, squeeze_filter_lstrip.
  f_equal. apply filter_ext. intros c. symmetry. apply is_text_char_kept.
Qed.

Lemma numeric_verdict_spec (a gt : string) :
  score_answer (Some a) gt "numeric" =
  Ret (if Spec.is_refusal a then mk_score false true unknown
       else Spec.numeric_score a gt).
Proof.
  unfold score_answer, Spec.numeric_score. rewrite is_refusal_code.
  rewrite <- !normalize_text_key.
  change Spec.epsilon with tolerance.
  destruct (Spec.is_refusal a); [reflexivity|].
  rewrite !normalize_numeric_spec. cbn.
  destruct (Spec.number a), (Spec.number gt); reflexivity.
Qed.

End ScorerFacts.

Lemma count_filter_other (p q : ascii -> bool) (s : string) :
  (forall c, p c = true -> q c = true) ->
  Str.count p (Str.filter q s) = Str.count p s.
Proof.
  intros H. induction s as [|c t IH]; [reflexivity|].
  cbn [Str.filter Str.count]. destruct (p c) eqn:Ep.
  - rewrite (H c Ep). cbn [Str.count]. now rewrite Ep, IH.
  - destruct (q c); cbn [Str.count]; now rewrite ?Ep, IH.
Qed.

Lemma count_drop_while (p q : ascii -> bool) (s : string) :
  (forall c, q c = true -> p c = false) ->
  Str.count p (Str.drop_while q s) = Str.count p s.
Proof.
  intros H. induction s as [|c t IH]; [reflexivity|].
  cbn [Str.drop_while Str.count]. destruct (q c) eqn:Eq; [|reflexivity].
  now rewrite (H c Eq).
Qed.

Lemma count_rstrip_by (p q : ascii -> bool) (s : string) :
  (forall c, q c = true -> p c = false) ->
  Str.count p (Str.rstrip_by q s) = Str.count p s.
Proof.
  intros H. induction s as [|c t IH]; [reflexivity|].
  rewrite rstrip_by_cons. cbn [Str.count]. rewrite <- IH.
  destruct (Str.rstrip_by q t) as [|d u]; [|reflexivity].
  destruct (q c) eqn:Eq; cbn [Str.count]; [now rewrite (H c Eq)|].
  reflexivity.
Qed.

(** Trimming and the removal of separators and signs keep the slashes. *)
Lemma count_cleaned (v : string) :
  Str.count Scoring.is_slash
    (Str.remove_char "%"
       (Str.remove_char "$" (Str.remove_char "," (Str.strip v)))) =
  Str.count Scoring.is_slash v.
Proof.
  assert (Hne : forall x : ascii, x <> "/"%char -> forall c,
            Scoring.is_slash c = true -> negb (Ascii.eqb c x) = true).
  { intros x Hx c Hc. unfold Scoring.is_slash in Hc.
    apply Ascii.eqb_eq in Hc. subst c. apply negb_true_iff.
    apply Ascii.eqb_neq. congruence. }
  unfold Str.remove_char.
  rewrite !count_filter_other by (apply Hne; discriminate).
  unfold Str.strip, Str.strip_by, Str.lstrip_by.
  assert (Hsp : forall c, Chars.is_space c = true ->
                          Scoring.is_slash c = false).
  { intros c Hc. unfold Scoring.is_slash.
    destruct (Ascii.eqb_spec c "/") as [->|]; [discriminate|reflexivity]. }
  now rewrite count_rstrip_by, count_drop_while.
Qed.

(** C5.  The scorer always returns; [is_unknown] is true exactly when the
    answer is present and its trimmed, lowercased form is "unknown",
    "i don't know" or "cannot determine", whatever the answer type and the
    ground truth, and then the verdict is (not correct, unknown, match
    type unknown).  Each of the three phrases, in any case and with
    whitespace around it, gets that verdict; a phrase that only holds one
    of them does not. *)
Theorem score_answer_unknown (pa : option string) (gt ty : string) :
  (exists r,
     Scoring.score_answer pa gt ty = Ret r /\
     Scoring.is_unknown r =
       match pa with
       | Some a => Spec.is_refusal a
       | None => false
       end /\
     (if Scoring.is_unknown r
      then r = Scoring.mk_score false true Scoring.unknown
      else True)) /\
  Scoring.score_answer (Some "unknown") gt ty =
    Ret (Scoring.mk_score false true Scoring.unknown) /\
  Scoring.score_answer (Some " I don't know ") gt ty =
    Ret (Scoring.mk_score false true Scoring.unknown) /\
  Scoring.score_answer (Some "Cannot Determine") gt ty =
    Ret (Scoring.mk_score false true Scoring.unknown) /\
  Scoring.score_answer (Some "unknown value") "unknown value" ty =
    Ret (Scoring.mk_score true false
           (if String.eqb ty "numeric" then Scoring.text_fallback
            else Scoring.text)).
Proof.
  split; [|repeat split; try reflexivity].
  - unfold Scoring.score_answer.
    destruct pa as [a|]; [|eexists; repeat split].
    rewrite is_refusal_code.
    destruct (Spec.is_refusal a); [eexists; repeat split|].
    destruct (String.eqb ty "numeric"); [|eexists; repeat split].
    rewrite !normalize_numeric_spec. cbn.
    destruct (Spec.number a), (Spec.number gt); eexists; repeat split.
  - unfold Scoring.score_answer.
    change (bool_decide (_ ∈ Scoring.refusals)) with false. cbv iota.
    destruct (String.eqb ty "numeric"); vm_compute; reflexivity.
Qed.

Example score_unknown_numeric :
  Scoring.score_answer (Some "unknown") "42" "numeric" =
  Ret (Scoring.mk_score false true Scoring.unknown).
Proof. vm_compute. reflexivity. Qed.

Example score_yes_text :
  Scoring.score_answer (Some "Yes") "yes" "text" =
  Ret (Scoring.mk_score true false Scoring.text).
Proof. vm_compute. reflexivity. Qed.

(** The difference and the comparison are those of doubles: the double
    of "1.005" lies below 1.005, and its distance to 1 is below the
    double of 0.005. *)
Example score_on_doubles :
  Scoring.score_answer (Some "1.005") "1" "numeric" =
  Ret (Scoring.mk_score true false Scoring.numeric).
Proof. vm_compute. reflexivity. Qed.


(** C10.  [normalize_numeric] never raises: whatever the body of its
    [try] raises is caught and gives [None]; so does a fraction whose
    denominator parses to zero, as "1/0", where the division raises; and a
    numeric question whose answer or ground truth does not parse is
    scored by text comparison with match type text_fallback instead of
    failing. *)
Theorem normalize_numeric_total (v a gt : string) :
  (exists o, Scoring.normalize_numeric v = Ret o) /\
  (forall e, Scoring.normalize_numeric_body v = Raise e ->
             Scoring.is_value_or_zero_division e = true /\
             Scoring.normalize_numeric v = Ret None) /\
  (forall num den d,
     Str.count Scoring.is_slash v = 1%nat ->
     Scoring.split_slash
       (Str.remove_char "%"
          (Str.remove_char "$" (Str.remove_char "," (Str.strip v)))) =
       (num, den) ->
     Float.of_string (Str.strip den) = Ret d ->
     Float.is_zero d = true ->
     Scoring.normalize_numeric v = Ret None) /\
  Scoring.normalize_numeric_body "1/0" =
    Raise (ZeroDivisionError "float division by zero") /\
  Scoring.normalize_numeric "1/0" = Ret None /\
  (Scoring.normalize_numeric a = Ret None \/
   Scoring.normalize_numeric gt = Ret None ->
   Scoring.score_answer (Some a) gt "numeric" =
     Ret (if Spec.is_refusal a
          then Scoring.mk_score false true Scoring.unknown
          else Scoring.mk_score
                 (String.eqb (Scoring.normalize_text a)
                             (Scoring.normalize_text gt))
                 false Scoring.text_fallback)).
Proof.
  split; [rewrite normalize_numeric_spec; eauto|].
  split.
  { intros e He. pose proof (normalize_numeric_body_raises v e He) as Hc.
    split; [exact Hc|]. unfold Scoring.normalize_numeric, try_except.
    rewrite He. cbn. now rewrite Hc. }
  split.
  { intros num den d Hcount Hsplit Hden Hzero.
    rewrite normalize_numeric_spec. f_equal. unfold Spec.number.
    rewrite fraction_parts_split.
    change (Str.count (fun c => Ascii.eqb c "/"))
      with (Str.count Scoring.is_slash).
    rewrite count_cleaned, Hcount, Hsplit. cbn [Nat.eqb].
    rewrite Hden, Hzero. now destruct (Float.of_string (Str.strip num)). }
  split; [vm_compute; reflexivity|].
  split; [vm_compute; reflexivity|].
  rewrite numeric_verdict_spec, !normalize_numeric_spec.
  unfold Spec.numeric_score. rewrite <- !normalize_text_key.
  destruct (Spec.is_refusal a); [reflexivity|].
  intros [[= ->]|[= ->]]; [reflexivity|].
  now destruct (Spec.number a).
Qed.

(** The fallback at the fraction with a zero denominator. *)
Example score_zero_denominator :
  Scoring.score_answer (Some "1/0") "1/0" "numeric" =
  Ret (Scoring.mk_score true false Scoring.text_fallback).
Proof. vm_compute. reflexivity. Qed.

(** ** The model client *)

Lemma py_range_cons (a b : Z) :
  a < b -> py_range a b = a :: py_range (a + 1) b.
Proof.
  intros H. unfold py_range.
  replace (Z.to_nat (b - a)) with (S (Z.to_nat (b - (a + 1)))) by lia.
  cbn [seq List.map]. f_equal; [lia|].
  rewrite <- seq_shift, List.map_map.
  apply List.map_ext. intros i. lia.
Qed.

Lemma py_range_nil (a b : Z) : b <= a -> py_range a b = [].
Proof.
  intros H. unfold py_range. now replace (Z.to_nat (b - a)) with O by lia.
Qed.

Lemma py_range_snoc (a : Z) (n : nat) :
  py_range a (a + Z.of_nat (S n)) =
  py_range a (a + Z.of_nat n) ++ [a + Z.of_nat n].
Proof.
  unfold py_range.
  replace (Z.to_nat (a + Z.of_nat (S n) - a)) with (S n) by lia.
  replace (Z.to_nat (a + Z.of_nat n - a)) with n by lia.
  rewrite seq_S, List.map_app. reflexivity.
Qed.

Section ClientFacts.

Import Client ClientSpec.

Variable endpoint : nat -> request -> outcome * Q.
Variable limit : Q.

Lemma visible_app (l1 l2 : list event) :
  visible (l1 ++ l2) = visible l1 ++ visible l2.
Proof. apply List.filter_app. Qed.

(** An accepted length is slept. *)
Lemma sleep_seconds_accepted (tag : Q -> event) (s : Q) (w : world) :
  accepted w limit -> (0 <= s)%Q -> (s <= limit)%Q ->
  sleep_seconds tag s w =
    (Ret tt, {| clock := (clock w + s)%Q;
                calls := calls w;
                log := log w ++ [tag s];
                sent_at := sent_at w;
                platform := platform w |}).
Proof.
  intros [Hl Hp] H0 H1. unfold sleep_seconds.
  assert (R : Qle_bool (- max_ns) (s * ns_per_second)
              && Qle_bool (s * ns_per_second) max_ns = true).
  { unfold max_ns, ns_per_second in *.
    apply andb_true_intro. split; apply Qle_bool_iff; lra. }
  rewrite R. cbn [negb].
  assert (Z : Qle_bool 0 s = true) by now apply Qle_bool_iff.
  rewrite Z. cbn [negb]. now rewrite (Hp (clock w) s H0 H1).
Qed.

Lemma time_sleep_accepted (tag : Q -> event) (x : number) (w : world) :
  accepted w limit -> finite x = true ->
  (0 <= value x)%Q -> (value x <= limit)%Q ->
  time_sleep tag x w =
    (Ret tt, {| clock := (clock w + value x)%Q;
                calls := calls w;
                log := log w ++ [tag (value x)];
                sent_at := sent_at w;
                platform := platform w |}).
Proof.
  intros Ha Hf H0 H1.
  destruct x; try discriminate; now apply sleep_seconds_accepted.
Qed.

Lemma accepted_platform (w w1 : world) :
  platform w1 = platform w -> accepted w limit -> accepted w1 limit.
Proof. unfold accepted. now intros ->. Qed.

(** Under an accepted interval and a clock that is not behind the last
    call, the rate limiter does not raise and sends nothing. *)
Lemma wait_for_rate_limit_ok (c : client) (w : world) :
  accepted w limit -> (min_interval c <= limit)%Q ->
  (last_call_time c <= clock w)%Q ->
  exists w1,
    wait_for_rate_limit c w = (Ret tt, w1) /\
    calls w1 = calls w /\
    visible (log w1) = visible (log w) /\
    platform w1 = platform w /\
    (clock w <= clock w1)%Q.
Proof.
  intros Ha Hi Hc. unfold wait_for_rate_limit.
  destruct (Qle_bool (min_interval c) _) eqn:E; cbn [negb].
  { exists w. repeat split; lra. }
  assert (H : (clock w - last_call_time c < min_interval c)%Q).
  { apply Qnot_le_lt. intros H%Qle_bool_iff. congruence. }
  cbn [time_sleep]. rewrite (sleep_seconds_accepted _ _ _ Ha) by lra.
  eexists; split; [reflexivity|]. cbn [calls log platform clock].
  split; [reflexivity|]. split; [|split; [reflexivity | lra]].
  rewrite visible_app. cbn. now rewrite app_nil_r.
Qed.

(** One attempt then sends exactly one request and returns what the
    endpoint does with it. *)
Lemma attempt_spec (c : client) (rq : request) (w : world) :
  accepted w limit -> (min_interval c <= limit)%Q ->
  (last_call_time c <= clock w)%Q ->
  (forall n rq, (0 <= snd (endpoint n rq))%Q) ->
  exists c1 w1,
    attempt endpoint c rq w =
      (result_of (fst (endpoint (calls w) rq)), c1, w1) /\
    retry_max c1 = retry_max c /\
    retry_backoff c1 = retry_backoff c /\
    min_interval c1 = min_interval c /\
    calls w1 = S (calls w) /\
    visible (log w1) = visible (log w) ++ [Request rq] /\
    platform w1 = platform w /\
    (last_call_time c1 <= clock w1)%Q.
Proof.
  intros Ha Hi Hc Hlat. unfold attempt, generate_content.
  destruct (wait_for_rate_limit_ok c w Ha Hi Hc)
    as (w1 & -> & Hcalls & Hl & Hp & _).
  rewrite Hcalls. pose proof (Hlat (calls w) rq) as Hd.
  destruct (endpoint (calls w) rq) as [o d]. cbn [snd] in Hd.
  destruct o as [text|e]; cbn [fst result_of];
    do 2 eexists; (split; [reflexivity|]);
    cbn [retry_max retry_backoff min_interval last_call_time calls log
         platform clock];
    rewrite visible_app, Hl; repeat split; auto; lra.
Qed.

Lemma backoff_wait_mono (base : Q) (n n' : Z) :
  (0 <= base)%Q -> 1 <= n <= n' ->
  (backoff_wait base n <= backoff_wait base n')%Q.
Proof.
  intros Hb Hn. unfold backoff_wait.
  rewrite !(Qmult_comm base). apply Qmult_le_compat_r; [|exact Hb].
  rewrite <- Zle_Qle. apply Z.pow_le_mono_r; lia.
Qed.

Lemma backoff_wait_nonneg (base : Q) (n : Z) :
  (0 <= base)%Q -> (0 <= backoff_wait base n)%Q.
Proof.
  intros Hb. unfold backoff_wait. apply Qmult_le_0_compat; [exact Hb|].
  change 0%Q with (inject_Z 0). rewrite <- Zle_Qle.
  apply Z.pow_nonneg. lia.
Qed.

(** The product of the handler is the wait of the specification. *)
Lemma backoff_product_value (base : number) (n : Z) :
  finite base = true ->
  (is_float base = true -> n <= 1024) ->
  exists x, backoff_product base n = Ret x /\
            finite x = true /\
            value x = backoff_wait (value base) n.
Proof.
  intros Hfin Hf. unfold backoff_product, backoff_wait.
  destruct base as [b|q| |]; try discriminate; cbn [value]; [eauto|].
  destruct (Z.leb_spec 1024 (n - 1)) as [H|H]; [|eauto].
  specialize (Hf eq_refl). lia.
Qed.

Lemma exhausted_ext (c c1 : client) (e : option exn) :
  retry_max c1 = retry_max c -> exhausted c1 e = exhausted c e.
Proof. unfold exhausted. now intros ->. Qed.

(** The retry loop, started at attempt number [a] with [m] attempts
    left.  [fails] are the errors of the attempts that failed. *)
Lemma generate_loop_spec (rq : request) (m : nat) :
  forall (a : Z) (last_error : option exn) (c : client) (w : world),
    accepted w limit ->
    finite (retry_backoff c) = true ->
    (0 <= value (retry_backoff c))%Q ->
    1 <= a ->
    (forall n, a <= n < a + Z.of_nat m ->
       (backoff_wait (value (retry_backoff c)) n <= limit)%Q) ->
    (is_float (retry_backoff c) = true -> a + Z.of_nat m - 1 <= 1024) ->
    (min_interval c <= limit)%Q ->
    (last_call_time c <= clock w)%Q ->
    (forall n rq, (0 <= snd (endpoint n rq))%Q) ->
    exists (fails : list exn) (c' : client) (w' : world) (r : result string),
      generate_loop endpoint (py_range a (a + Z.of_nat m)) last_error
                    c rq w = (r, c', w') /\
      (length fails <= m)%nat /\
      (forall i e, fails !! i = Some e ->
         fst (endpoint (calls w + i) rq) = Failure e) /\
      visible (log w') =
        visible (log w) ++
        flat_map (failed_attempt (value (retry_backoff c)) rq)
                 (py_range a (a + Z.of_nat (length fails))) ++
        (if raised_none r then [Request rq] else []) /\
      match r with
      | Ret text =>
          (length fails < m)%nat /\
          calls w' = (calls w + length fails + 1)%nat /\
          Ret text = result_of (fst (endpoint (calls w + length fails) rq))
      | Raise e =>
          length fails = m /\
          calls w' = (calls w + m)%nat /\
          e = exhausted c (match last fails with
                           | Some x => Some x
                           | None => last_error
                           end)
      end.
Proof.
  induction m as [|m IH];
    intros a last_error c w Hacc Hfin Hb Ha Hw Hfl Hi Hc Hlat.
  - rewrite py_range_nil by lia. cbn [generate_loop].
    exists [], c, w. eexists. split; [reflexivity|].
    repeat split; cbn [length]; try lia.
    + intros i e H. now rewrite lookup_nil in H.
    + rewrite py_range_nil by lia. cbn. now rewrite app_nil_r.
  - rewrite py_range_cons by lia. cbn [generate_loop].
    destruct (attempt_spec c rq w Hacc Hi Hc Hlat)
      as (c1 & w1 & -> & Hm & Hbk & Hmi & Hcalls & Hl & Hp & Hc1).
    destruct (endpoint (calls w) rq) as [o d] eqn:Ho.
    destruct o as [text|e]; cbn [fst result_of].
    + exists [], c1, w1. eexists. split; [reflexivity|].
      cbn [length]. rewrite Nat.add_0_r, Ho. cbn [fst result_of].
      repeat split; try lia.
      * intros i e H. now rewrite lookup_nil in H.
      * rewrite Hl, py_range_nil by lia. reflexivity.
    + destruct (backoff_product_value (retry_backoff c) a)
        as (x & -> & Hxf & Hx);
        [exact Hfin | intros F; specialize (Hfl F); lia|].
      assert (Hacc1 : accepted w1 limit)
        by exact (accepted_platform w w1 Hp Hacc).
      rewrite (time_sleep_accepted BackoffSleep x w1 Hacc1 Hxf)
        by (rewrite Hx; try apply backoff_wait_nonneg; try apply Hw;
            auto; lia).
      rewrite Hx.
      set (w2 := {| clock := _; calls := _; log := _; sent_at := _;
                    platform := _ |}).
      destruct (IH (a + 1) (Some e) c1 w2) as
        (fails & c' & w' & r & Hrun & Hlen & Hf & Hlog & Hr).
      { exact (accepted_platform w1 w2 eq_refl Hacc1). }
      { now rewrite Hbk. }
      { now rewrite Hbk. }
      { lia. }
      { intros n Hn. rewrite Hbk. apply Hw. lia. }
      { rewrite Hbk. intros F. specialize (Hfl F). lia. }
      { now rewrite Hmi. }
      { unfold w2. cbn [clock].
        pose proof (backoff_wait_nonneg (value (retry_backoff c)) a Hb).
        lra. }
      { exact Hlat. }
      replace (a + Z.of_nat (S m)) with (a + 1 + Z.of_nat m) by lia.
      rewrite Hrun. exists (e :: fails), c', w', r.
      split; [reflexivity|]. cbn [length].
      split; [lia|]. split; [|split].
      * intros [|i] e' H; cbn in H.
        -- injection H as <-. now rewrite Nat.add_0_r, Ho.
        -- specialize (Hf i e' H). unfold w2 in Hf. cbn [calls] in Hf.
           rewrite Hcalls in Hf.
           now replace (calls w + S i)%nat with (S (calls w) + i)%nat by lia.
      * rewrite Hlog. unfold w2. cbn [log].
        rewrite visible_app, Hl, Hbk, <- !app_assoc.
        rewrite (py_range_cons a (a + Z.of_nat (S (length fails)))) by lia.
        cbn [flat_map failed_attempt app].
        now replace (a + Z.of_nat (S (length fails)))
          with (a + 1 + Z.of_nat (length fails)) by lia.
      * unfold w2 in Hr. cbn [calls] in Hr. rewrite Hcalls in Hr.
        destruct r as [text|e'].
        -- destruct Hr as (H1 & H2 & H3). repeat split; try lia.
           now replace (calls w + S (length fails))%nat
             with (S (calls w) + length fails)%nat by lia.
        -- destruct Hr as (H1 & H2 & H3). repeat split; try lia.
           rewrite H3, (exhausted_ext c c1 _ Hm).
           destruct fails as [|x0 fails]; [reflexivity|].
           change (last (e :: x0 :: fails)) with (last (x0 :: fails)).
           destruct (last (x0 :: fails)) eqn:E; [reflexivity|].
           now apply last_None in E.
Qed.

End ClientFacts.

(** C9, as stated, fails, since the wait of the handler can raise, which
    ends the call with the error of the wait, naming neither the attempts
    nor the error of the endpoint.  With a negative backoff base, one
    that is no number, or one of 10^10 seconds, the first failure ends
    the call, with no further attempt although three are configured.
    With 1025 attempts and a float as base, the power of two of the last
    wait cannot be converted to a float. *)
Lemma generate_wait_raises :
  (exists c' w',
     Client.generate Examples.failing Examples.client_negative_backoff
       "What is 40 + 2?" (Q2Qc 0) 1024 Examples.world0 =
       (Raise (ValueError "sleep length must be non-negative"), c', w') /\
     Client.retry_max Examples.client_negative_backoff = 3 /\
     Client.calls w' = 1%nat) /\
  (exists c' w',
     Client.generate Examples.failing Examples.client_nan_backoff
       "What is 40 + 2?" (Q2Qc 0) 1024 Examples.world0 =
       (Raise (ValueError "Invalid value NaN (not a number)"), c', w') /\
     Client.retry_max Examples.client_nan_backoff = 3 /\
     Client.calls w' = 1%nat) /\
  (exists c' w',
     Client.generate Examples.failing Examples.client_long_backoff
       "What is 40 + 2?" (Q2Qc 0) 1024 Examples.world0 =
       (Raise (OverflowError "timestamp too large to convert to C _PyTime_t"),
        c', w') /\
     Client.retry_max Examples.client_long_backoff = 3 /\
     Client.calls w' = 1%nat) /\
  (exists c' w',
     Client.generate Examples.failing Examples.client_many_attempts
       "What is 40 + 2?" (Q2Qc 0) 1024 Examples.world0 =
       (Raise (OverflowError "int too large to convert to float"), c', w') /\
     Client.retry_max Examples.client_many_attempts = 1025 /\
     Client.calls w' = 1025%nat).
Proof.
  repeat split;
    do 2 eexists; (split; [vm_compute; reflexivity|]); split; reflexivity.
Qed.

(** C9, amended.  Under a configuration whose attempt count and backoff
    base are not negative, the base finite, with at most 1024 attempts
    when the base is a float, and when every wait of the call is a length
    that [time.sleep] accepts (the longest backoff wait and the interval
    of the rate limiter lie within a limit that fits the nanosecond count
    and on which the platform does not fail; the clock is not behind the
    last call and the endpoint takes no negative time), [generate] tries
    at most [retry_max] times, each try one request; after the failed try
    number [i] it waits [retry_backoff * 2^(i-1)]; it returns normally
    exactly when a try succeeds, with that try's text; after [retry_max]
    failed tries it raises one [RuntimeError] that names the attempt
    count and the last error. *)
Theorem generate_retry_contract
        (endpoint : nat -> Client.request -> Client.outcome * Q)
        (c : Client.client) (prompt : string) (temperature : Qc)
        (max_output_tokens : Z) (w : Client.world) (limit : Q) :
  0 <= Client.retry_max c ->
  ClientSpec.finite (Client.retry_backoff c) = true ->
  (0 <= Client.value (Client.retry_backoff c))%Q ->
  (ClientSpec.is_float (Client.retry_backoff c) = true ->
   Client.retry_max c <= 1024) ->
  ClientSpec.accepted w limit ->
  (ClientSpec.backoff_wait (Client.value (Client.retry_backoff c))
                           (Client.retry_max c) <= limit)%Q ->
  (Client.min_interval c <= limit)%Q ->
  (Client.last_call_time c <= Client.clock w)%Q ->
  (forall n rq, (0 <= snd (endpoint n rq))%Q) ->
  let rq := ClientSpec.request_of c prompt temperature max_output_tokens in
  exists (fails : list exn) (c' : Client.client) (w' : Client.world)
         (r : result string),
    Client.generate endpoint c prompt temperature max_output_tokens w =
      (r, c', w') /\
    Z.of_nat (length fails) <= Client.retry_max c /\
    (forall i e, fails !! i = Some e ->
       fst (endpoint (Client.calls w + i)%nat rq) = Client.Failure e) /\
    ClientSpec.visible (Client.log w') =
      ClientSpec.visible (Client.log w) ++
      ClientSpec.failed_attempts (Client.value (Client.retry_backoff c)) rq
                                 (length fails) ++
      (if ClientSpec.raised_none r then [Client.Request rq] else []) /\
    match r with
    | Ret text =>
        Z.of_nat (length fails) < Client.retry_max c /\
        Client.calls w' = (Client.calls w + length fails + 1)%nat /\
        Ret text =
          ClientSpec.result_of
            (fst (endpoint (Client.calls w + length fails)%nat rq))
    | Raise e =>
        Z.of_nat (length fails) = Client.retry_max c /\
        Client.calls w' = (Client.calls w + length fails)%nat /\
        e = RuntimeError
              ("API call failed after " +:+ Str.of_Z (Client.retry_max c)
               +:+ " retries: " +:+ Client.str_of_last_error (last fails))
    end.
Proof.
  intros Hmax Hfin Hb Hfl Hacc Hw Hi Hc Hlat rq. unfold Client.generate.
  fold (ClientSpec.request_of c prompt temperature max_output_tokens).
  fold rq.
  destruct (generate_loop_spec endpoint limit rq
              (Z.to_nat (Client.retry_max c)) 1 None c w)
    as (fails & c' & w' & r & Hrun & Hlen & Hf & Hlog & Hr); auto; try lia.
  { intros n Hn.
    eapply Qle_trans; [apply backoff_wait_mono; [exact Hb|]|exact Hw]. lia. }
  { intros F. specialize (Hfl F). lia. }
  replace (1 + Z.of_nat (Z.to_nat (Client.retry_max c)))
    with (Client.retry_max c + 1) in Hrun by lia.
  exists fails, c', w', r. split; [exact Hrun|].
  split; [lia|]. split; [exact Hf|]. split; [exact Hlog|].
  destruct r as [text|e].
  - destruct Hr as (H1 & H2 & H3). repeat split; [lia | lia | exact H3].
  - destruct Hr as (H1 & H2 & H3). repeat split; [lia | lia |].
    rewrite H3. unfold Client.exhausted. now destruct (last fails).
Qed.

(** ** The runner's main loop *)

Lemma strip_prefix_append (m x : string) :
  Str.strip_prefix false m (m +:+ x) = Some x.
Proof.
  induction m as [|c m IH]; [reflexivity|].
  rewrite append_cons. cbn [Str.strip_prefix].
  now rewrite Ascii.eqb_refl.
Qed.

Lemma contains_append (p m : string) :
  Str.contains false m (p +:+ m) = true.
Proof.
  induction p as [|c p IH].
  - rewrite append_empty_l.
    pose proof (strip_prefix_append m EmptyString) as H.
    assert (E : m +:+ EmptyString = m).
    { clear. induction m as [|c m IH]; [reflexivity|].
      now rewrite append_cons, IH. }
    rewrite E in H. destruct m; cbn [Str.contains]; now rewrite H.
  - rewrite append_cons. cbn [Str.contains].
    now destruct (Str.strip_prefix false m (String c (p +:+ m))).
Qed.

Section RunnerFacts.

Import Client Runner RunnerSpec.

Variable endpoint : nat -> request -> outcome * Q.
Variable load_prompt_template : string -> string.
Variable cfg : config.

Lemma main_loop_spec (work : list work_item) :
  forall (c : client) (store : list generation) (errs : Z) (w : world),
  exists (recs : list generation) (w' : world),
    main_loop endpoint load_prompt_template cfg work c store errs w =
      (store ++ recs,
       errs + Z.of_nat (length (List.filter raised
                (call_results endpoint load_prompt_template cfg work c w))),
       w') /\
    key_of <$> recs = item_key <$> work /\
    raw_output <$> recs =
      recorded <$> call_results endpoint load_prompt_template cfg work c w.
Proof.
  induction work as [|item work IH]; intros c store errs w.
  - exists [], w. cbn. rewrite app_nil_r, Z.add_0_r. auto.
  - destruct item as [[[question prompt_name] temp] run_idx].
    cbn [main_loop call_results run_item].
    destruct (generate _ _ _ _ _ _) as [[r c1] w1].
    destruct r as [text|e].
    + destruct (IH c1 (store ++ [
          {| question_id := q_id question; prompt_name := prompt_name;
             temperature := temp; run_index := run_idx;
             gen_model := cfg_model cfg;
             prompt_text := build_prompt (load_prompt_template prompt_name)
                                         (q_question question);
             raw_output := text; timestamp := clock w1 |}]) errs w1)
        as (recs & w' & -> & Hk & Hr).
      eexists (_ :: recs), w'. rewrite <- app_assoc. cbn [app].
      split; [reflexivity|]. cbn. now rewrite Hk, Hr.
    + destruct (IH c1 (store ++ [
          {| question_id := q_id question; prompt_name := prompt_name;
             temperature := temp; run_index := run_idx;
             gen_model := cfg_model cfg;
             prompt_text := build_prompt (load_prompt_template prompt_name)
                                         (q_question question);
             raw_output := "ERROR: " +:+ exn_message e;
             timestamp := clock w1 |}]) (errs + 1) w1)
        as (recs & w' & -> & Hk & Hr).
      eexists (_ :: recs), w'. rewrite <- app_assoc. cbn [app].
      split; [f_equal; f_equal; cbn [List.filter raised length]; lia|].
      cbn. now rewrite Hk, Hr.
Qed.

Lemma call_results_length (work : list work_item) :
  forall (c : client) (w : world),
    length (call_results endpoint load_prompt_template cfg work c w) =
    length work.
Proof.
  induction work as [|item work IH]; intros c w; [reflexivity|].
  destruct item as [[[question prompt_name] temp] run_idx].
  cbn [call_results]. destruct (generate _ _ _ _ _ _) as [[r c1] w1].
  cbn [length]. now rewrite IH.
Qed.

End RunnerFacts.

(** C8.  Whatever the Model Client does with the calls, the main loop
    ends, having appended exactly one record per work item, in order,
    with the item's key; the record of an item whose call raised holds
    the sentinel "ERROR: " followed by the error, and the error counter
    grew by the number of calls that raised. *)
Theorem main_loop_partial_failure
        (endpoint : nat -> Client.request -> Client.outcome * Q)
        (load_prompt_template : string -> string) (cfg : Runner.config)
        (work : list Runner.work_item) (c : Client.client)
        (store : list Runner.generation) (errs : Z) (w : Client.world) :
  let results :=
    RunnerSpec.call_results endpoint load_prompt_template cfg work c w in
  exists (recs : list Runner.generation) (w' : Client.world),
    Runner.main_loop endpoint load_prompt_template cfg work c store errs w =
      (store ++ recs,
       errs + Z.of_nat (length (List.filter RunnerSpec.raised results)),
       w') /\
    length recs = length work /\
    Runner.key_of <$> recs = Runner.item_key <$> work /\
    Runner.raw_output <$> recs = RunnerSpec.recorded <$> results /\
    length results = length work /\
    (forall e, RunnerSpec.recorded (Raise e) = "ERROR: " +:+ exn_message e /\
               Str.contains false (exn_message e)
                            (RunnerSpec.recorded (Raise e)) = true).
Proof.
  intros results.
  destruct (main_loop_spec endpoint load_prompt_template cfg work c store
              errs w) as (recs & w' & Hrun & Hk & Hr).
  exists recs, w'. split; [exact Hrun|].
  split.
  { apply (f_equal length) in Hk. now rewrite !length_fmap in Hk. }
  split; [exact Hk|]. split; [exact Hr|].
  split; [apply call_results_length|].
  intros e. split; [reflexivity|]. apply contains_append.
Qed.

(** ** The resume index and the work list *)

Lemma fmap_bind_list {A B C} (f : B -> C) (g : A -> list B) (l : list A) :
  f <$> (l ≫= g) = l ≫= (fun x => f <$> g x).
Proof.
  induction l as [|x l IH]; [reflexivity|].
  now rewrite !bind_cons, fmap_app, IH.
Qed.

Lemma filter_bind_list {A B} (P : B -> Prop) `{forall x, Decision (P x)}
      (g : A -> list B) (l : list A) :
  filter P (l ≫= g) = l ≫= (fun x => filter P (g x)).
Proof.
  induction l as [|x l IH]; [reflexivity|].
  now rewrite !bind_cons, filter_app, IH.
Qed.

Lemma NoDup_py_range (a b : Z) : NoDup (py_range a b).
Proof.
  unfold py_range. apply (NoDup_fmap_2_strong (fun i => a + Z.of_nat i)).
  - intros x y _ _ E. lia.
  - apply NoDup_seq.
Qed.

Section ResumeFacts.

Import Client Runner RunnerSpec.

Lemma get_completed_keys_elem (store : list generation) (k : key) :
  k ∈ get_completed_keys store <-> k ∈ stored_keys store.
Proof.
  unfold get_completed_keys, stored_keys.
  assert (G : forall acc : gset key,
            k ∈ fold_left (fun completed rec => completed ∪ {[ key_of rec ]})
                          store acc <->
            k ∈ acc \/ k ∈ key_of <$> store).
  { induction store as [|rec store IH]; intros acc; cbn [fold_left].
    - rewrite fmap_nil. split; [auto|]. intros [H|H]; [exact H|].
      now apply elem_of_nil in H.
    - rewrite IH, fmap_cons, elem_of_cons, elem_of_union,
        elem_of_singleton. tauto. }
  rewrite G. split; [|auto]. intros [H|H]; [|exact H].
  now apply elem_of_empty in H.
Qed.

(** The work list is the grid, in its order of enumeration, without the
    keys of the resume index. *)
Lemma build_work_keys (cfg : config) (dataset : list question)
      (completed : gset key) :
  item_key <$> build_work dataset (cfg_prompts cfg) (cfg_temperatures cfg)
                          (cfg_num_runs cfg) completed =
  filter (fun k => k ∉ completed) (grid_keys cfg dataset).
Proof.
  unfold build_work, grid_keys.
  rewrite list_fmap_bind, fmap_bind_list, filter_bind_list.
  apply list_bind_ext; [intros question|reflexivity]. cbn [compose].
  rewrite fmap_bind_list, filter_bind_list.
  apply list_bind_ext; [intros prompt_name|reflexivity].
  rewrite fmap_bind_list, filter_bind_list.
  apply list_bind_ext; [intros temp|reflexivity].
  rewrite fmap_bind_list, filter_bind_list.
  apply list_bind_ext; [intros run_idx|reflexivity].
  rewrite filter_cons, filter_nil.
  destruct (decide (_ ∈ completed)) as [Hin|Hout].
  - rewrite decide_False by auto. reflexivity.
  - rewrite decide_True by auto. reflexivity.
Qed.

Lemma NoDup_grid_keys (cfg : config) (dataset : list question) :
  NoDup (q_id <$> dataset) -> NoDup (cfg_prompts cfg) ->
  NoDup (cfg_temperatures cfg) -> NoDup (grid_keys cfg dataset).
Proof.
  intros Hq Hp Ht. unfold grid_keys.
  apply NoDup_bind; [| |exact Hq].
  { intros x1 x2 y _ _ H1 H2.
    repeat (apply list_elem_of_bind in H1 as (? & H1 & _)).
    repeat (apply list_elem_of_bind in H2 as (? & H2 & _)).
    apply list_elem_of_singleton in H1, H2. congruence. }
  intros id _. apply NoDup_bind; [| |exact Hp].
  { intros x1 x2 y _ _ H1 H2.
    repeat (apply list_elem_of_bind in H1 as (? & H1 & _)).
    repeat (apply list_elem_of_bind in H2 as (? & H2 & _)).
    apply list_elem_of_singleton in H1, H2. congruence. }
  intros p _. apply NoDup_bind; [| |exact Ht].
  { intros x1 x2 y _ _ H1 H2.
    repeat (apply list_elem_of_bind in H1 as (? & H1 & _)).
    repeat (apply list_elem_of_bind in H2 as (? & H2 & _)).
    apply list_elem_of_singleton in H1, H2. congruence. }
  intros t _. apply NoDup_bind; [| |apply NoDup_py_range].
  { intros x1 x2 y _ _ H1 H2.
    apply list_elem_of_singleton in H1, H2. congruence. }
  intros r _. apply NoDup_singleton.
Qed.

Variable endpoint : nat -> request -> outcome * Q.
Variable load_prompt_template : string -> string.
Variable cfg : config.

(** Against a store that holds every key of the grid the runner
    returns at once: no client is built, no call is made, nothing is
    written. *)
Lemma run_complete_store (api_key : option string)
      (dataset : list question) (store : list generation) (w : world) :
  (forall k, k ∈ grid_keys cfg dataset -> k ∈ stored_keys store) ->
  run_experiments endpoint load_prompt_template cfg api_key dataset store w
  = (Ret None, store, w).
Proof.
  intros Hall. unfold run_experiments.
  pose proof (build_work_keys cfg dataset (get_completed_keys store)) as Hw.
  destruct (build_work _ _ _ _ _) as [|item work]; [reflexivity|].
  exfalso.
  assert (Hin : item_key item ∈
                filter (fun k => k ∉ get_completed_keys store)
                       (grid_keys cfg dataset)).
  { rewrite <- Hw, fmap_cons. apply list_elem_of_here. }
  apply list_elem_of_filter in Hin as [Hout Hgrid].
  apply Hout, get_completed_keys_elem, Hall, Hgrid.
Qed.

(** A run that returns leaves a store whose keys are those it had and
    those of the work list. *)
Lemma run_returns (api_key : option string) (dataset : list question)
      (store store' : list generation) (w w' : world)
      (r : option report) :
  run_experiments endpoint load_prompt_template cfg api_key dataset store w
  = (Ret r, store', w') ->
  stored_keys store' =
    stored_keys store ++
    filter (fun k => k ∉ get_completed_keys store) (grid_keys cfg dataset).
Proof.
  unfold run_experiments.
  rewrite <- (build_work_keys cfg dataset (get_completed_keys store)).
  destruct (build_work _ _ _ _ _) as [|item work] eqn:Hw.
  { intros [= _ <- _]. cbn. now rewrite app_nil_r. }
  cbn [length Nat.eqb].
  destruct (new_client _ _ _ _ _) as [c|e]; [|discriminate].
  destruct (main_loop_spec endpoint load_prompt_template cfg
              (item :: work) c store 0 w) as (recs & w1 & -> & Hk & _).
  intros [= _ <- _]. unfold stored_keys. now rewrite fmap_app, Hk.
Qed.

Lemma run_with_credentials (key : string) (dataset : list question)
      (store : list generation) (w : world) :
  key <> EmptyString -> cfg_rate_limit_rpm cfg <> 0 ->
  exists r store' w',
    run_experiments endpoint load_prompt_template cfg (Some key) dataset
                    store w = (Ret r, store', w').
Proof.
  intros Hkey Hrpm. unfold run_experiments.
  destruct (_ =? _)%nat; [eauto|].
  unfold new_client. destruct key as [|c0 key]; [congruence|].
  destruct (Z.eqb_spec (cfg_rate_limit_rpm cfg) 0) as [E|_]; [congruence|].
  destruct (main_loop _ _ _ _ _ _ _ _) as [[store' errs] w']. eauto.
Qed.

End ResumeFacts.

(** C1, as stated, fails.  First: with a temperature listed twice the
    first run over an empty store writes the same key twice.  Second: a
    store that holds a key of another grid still holds it after the run,
    so its keys are not the Cartesian product.  Both runs return
    normally. *)
Lemma run_experiments_not_exactly_the_grid :
  (exists r store' w',
     Runner.run_experiments Examples.answering Examples.templates
       Examples.config_twice (Some "secret") [Examples.question1] []
       Examples.world0 = (Ret r, store', w') /\
     ~ NoDup (RunnerSpec.stored_keys store')) /\
  (exists r store' w',
     Runner.run_experiments Examples.answering Examples.templates
       Examples.config1 (Some "secret") [Examples.question1]
       [Examples.foreign_record] Examples.world0 = (Ret r, store', w') /\
     exists k, k ∈ RunnerSpec.stored_keys store' /\
               k ∉ RunnerSpec.grid_keys Examples.config1
                     [Examples.question1]).
Proof.
  split.
  - do 3 eexists. split; [vm_compute; reflexivity|].
    intros H. apply NoDup_cons in H as [H _]. apply H. left.
  - do 3 eexists. split; [vm_compute; reflexivity|].
    exists ("q9", "direct", Q2Qc 0, 1). split; [left|].
    unfold RunnerSpec.grid_keys. cbn.
    intros H. apply list_elem_of_singleton in H. discriminate.
Qed.

(** C1, amended.  The resume index holds exactly the keys of the store;
    the work list is the grid in its order of enumeration minus those
    keys, so work exists only for missing keys; a run against a store
    that holds every key of the grid makes no call and writes nothing;
    with credentials and a non-zero rate limit the run returns; and when
    question ids, prompt names and temperatures are pairwise distinct
    and the store holds only keys of the grid, each once, a run that
    returns leaves a store whose keys are exactly the grid, each once,
    on which a further run makes no call. *)
Theorem run_experiments_resume
        (endpoint : nat -> Client.request -> Client.outcome * Q)
        (load_prompt_template : string -> string) (cfg : Runner.config)
        (api_key : option string) (dataset : list Runner.question)
        (store : list Runner.generation) (w : Client.world) :
  let completed := Runner.get_completed_keys store in
  let work :=
    Runner.build_work dataset (Runner.cfg_prompts cfg)
      (Runner.cfg_temperatures cfg) (Runner.cfg_num_runs cfg) completed in
  let run := Runner.run_experiments endpoint load_prompt_template cfg in
  (forall k, k ∈ completed <-> k ∈ RunnerSpec.stored_keys store) /\
  Runner.item_key <$> work =
    filter (fun k => k ∉ completed) (RunnerSpec.grid_keys cfg dataset) /\
  (forall k, k ∈ Runner.item_key <$> work <->
             k ∈ RunnerSpec.grid_keys cfg dataset /\
             k ∉ RunnerSpec.stored_keys store) /\
  ((forall k, k ∈ RunnerSpec.grid_keys cfg dataset ->
              k ∈ RunnerSpec.stored_keys store) ->
   run api_key dataset store w = (Ret None, store, w)) /\
  (forall key, api_key = Some key -> key <> EmptyString ->
     Runner.cfg_rate_limit_rpm cfg <> 0 ->
     exists r store' w', run api_key dataset store w = (Ret r, store', w')) /\
  (NoDup (Runner.q_id <$> dataset) ->
   NoDup (Runner.cfg_prompts cfg) ->
   NoDup (Runner.cfg_temperatures cfg) ->
   NoDup (RunnerSpec.stored_keys store) ->
   (forall k, k ∈ RunnerSpec.stored_keys store ->
              k ∈ RunnerSpec.grid_keys cfg dataset) ->
   forall r store' w',
     run api_key dataset store w = (Ret r, store', w') ->
     NoDup (RunnerSpec.stored_keys store') /\
     (forall k, k ∈ RunnerSpec.stored_keys store' <->
                k ∈ RunnerSpec.grid_keys cfg dataset) /\
     (forall api_key' w2,
        run api_key' dataset store' w2 = (Ret None, store', w2))).
Proof.
  intros completed work run.
  pose proof (get_completed_keys_elem store) as Hkeys.
  pose proof (build_work_keys cfg dataset completed) as Hwork.
  split; [exact Hkeys|]. split; [exact Hwork|].
  split.
  { intros k. fold work in Hwork. rewrite Hwork, list_elem_of_filter.
    unfold completed. rewrite Hkeys. tauto. }
  split; [apply run_complete_store|].
  split.
  { intros key -> Hkey Hrpm. now apply run_with_credentials. }
  intros Hq Hp Ht Hs Hsub r store' w' Hrun.
  apply run_returns in Hrun.
  assert (Hmem : forall k, k ∈ RunnerSpec.stored_keys store' <->
                           k ∈ RunnerSpec.grid_keys cfg dataset).
  { intros k. rewrite Hrun, elem_of_app, list_elem_of_filter, Hkeys.
    split; [intros [H|[_ H]]; auto|].
    intros H. destruct (decide (k ∈ RunnerSpec.stored_keys store)); auto. }
  split; [|split; [exact Hmem|]].
  - rewrite Hrun. apply NoDup_app. split; [exact Hs|]. split.
    + intros k Hk Hf. apply list_elem_of_filter in Hf as [Hout _].
      now apply Hout, Hkeys.
    + apply (NoDup_filter (fun k => k ∉ Runner.get_completed_keys store)).
      now apply NoDup_grid_keys.
  - intros api_key' w2. apply run_complete_store.
    intros k Hk. now apply Hmem.
Qed.

(** The end-to-end example of the specification: three questions, one
    prompt, one temperature, one run, an empty store.  The run makes
    three records, one per key, and a second run makes no call. *)
Lemma run_experiments_resume_witness :
  exists r store' w',
    Runner.run_experiments Examples.answering Examples.templates
      Examples.config1 (Some "secret")
      [Examples.question1; Examples.question2; Examples.question3] []
      Examples.world0 = (Ret r, store', w') /\
    length store' = 3%nat /\
    Client.calls w' = 3%nat /\
    NoDup (RunnerSpec.stored_keys store') /\
    (forall api_key' w2,
       Runner.run_experiments Examples.answering Examples.templates
         Examples.config1 api_key'
         [Examples.question1; Examples.question2; Examples.question3]
         store' w2 = (Ret None, store', w2)).
Proof.
  pose proof (run_experiments_resume Examples.answering Examples.templates
    Examples.config1 (Some "secret")
    [Examples.question1; Examples.question2; Examples.question3] []
    Examples.world0) as H.
  destruct H as (_ & _ & _ & _ & _ & H).
  do 3 eexists. split; [vm_compute; reflexivity|].
  split; [reflexivity|]. split; [reflexivity|].
  edestruct H as (H1 & _ & H3).
  - apply (bool_decide_unpack _). vm_compute. exact I.
  - apply NoDup_singleton.
  - apply NoDup_singleton.
  - apply NoDup_nil_2.
  - intros k Hk. now apply elem_of_nil in Hk.
  - vm_compute. reflexivity.
  - split; [exact H1 | exact H3].
Defined.

(** ** The parse stage *)

Section ParseStageFacts.

Import Runner ParseStage ParseSpec.

Lemma parse_records_prefix (records : list generation) :
  forall so_far file : list parsed,
    parse_records records so_far file =
    (match first_error records with
     | Some e => Raise e
     | None => Ret (so_far ++ parsed_prefix records)
     end,
     file ++ parsed_prefix records).
Proof.
  induction records as [|rec records IH]; intros so_far file.
  - cbn. now rewrite !app_nil_r.
  - cbn [parse_records first_error parsed_prefix].
    destruct (parse_record rec) as [p|e]; [|now rewrite app_nil_r].
    rewrite IH, <- !app_assoc. reflexivity.
Qed.

Lemma parse_all_outputs_prefix (records : list generation)
      (out : list parsed) :
  parse_all_outputs records out =
  (match first_error records with
   | Some e => Raise e
   | None => Ret (parsed_prefix records)
   end,
   match records with
   | [] => out
   | _ => parsed_prefix records
   end).
Proof.
  unfold parse_all_outputs. destruct records as [|rec records];
    [reflexivity|].
  now rewrite parse_records_prefix.
Qed.


Lemma parse_record_readable (rec : generation) :
  readable rec -> parse_record rec = Ret (parsed_of rec).
Proof.
  intros [c Hc]. unfold parse_record, parsed_of. now rewrite Hc.
Qed.

Lemma parse_record_returns (rec : generation) (p : parsed) :
  parse_record rec = Ret p -> readable rec.
Proof.
  unfold parse_record, readable.
  destruct (Parsing.parse_confidence (raw_output rec)) as [c|e];
    [eauto | discriminate].
Qed.

Lemma first_error_none (records : list generation) :
  first_error records = None <-> Forall readable records.
Proof.
  induction records as [|rec records IH]; [split; [constructor | reflexivity]|].
  cbn [first_error]. split.
  - destruct (parse_record rec) as [p|e] eqn:E; [|discriminate].
    intros H. constructor; [exact (parse_record_returns _ _ E) | now apply IH].
  - intros H. apply Forall_cons in H as [Hr Hrest].
    rewrite (parse_record_readable _ Hr). now apply IH.
Qed.

Lemma parsed_prefix_readable (records : list generation) :
  Forall readable records -> parsed_prefix records = parsed_of <$> records.
Proof.
  induction records as [|rec records IH]; [reflexivity|].
  intros H. apply Forall_cons in H as [Hr Hrest].
  cbn [parsed_prefix]. rewrite (parse_record_readable _ Hr), fmap_cons.
  now rewrite IH.
Qed.



End ParseStageFacts.



(** The retry contract at the default configuration, against an endpoint
    that always fails. *)
Lemma generate_retry_contract_witness :
  exists (fails : list exn) (c' : Client.client) (w' : Client.world)
         (r : result string),
    Client.generate Examples.failing Examples.client0 "What is 40 + 2?"
                    (Q2Qc 0) 1024 Examples.world0 = (r, c', w') /\
    r = Raise (RuntimeError
                 "API call failed after 3 retries: 503 unavailable") /\
    length fails = 3%nat /\
    ClientSpec.visible (Client.log w') =
      ClientSpec.failed_attempts 5 (ClientSpec.request_of Examples.client0
        "What is 40 + 2?" (Q2Qc 0) 1024) 3.
Proof.
  destruct (generate_retry_contract Examples.failing Examples.client0
              "What is 40 + 2?" (Q2Qc 0) 1024 Examples.world0 60)
    as (fails & c' & w' & r & Hrun & Hlen & Hf & Hlog & Hr).
  - cbn. lia.
  - reflexivity.
  - cbn. lra.
  - cbn. lia.
  - split; [vm_compute; discriminate | reflexivity].
  - vm_compute. discriminate.
  - cbn. lra.
  - cbn. lra.
  - intros n rq. cbn. lra.
  - exists fails, c', w', r. split; [exact Hrun|].
    assert (E : Client.generate Examples.failing Examples.client0
                  "What is 40 + 2?" (Q2Qc 0) 1024 Examples.world0 =
                (Raise (RuntimeError
                   "API call failed after 3 retries: 503 unavailable"),
                 snd (fst (Client.generate Examples.failing Examples.client0
                  "What is 40 + 2?" (Q2Qc 0) 1024 Examples.world0)),
                 snd (Client.generate Examples.failing Examples.client0
                  "What is 40 + 2?" (Q2Qc 0) 1024 Examples.world0)))
      by (vm_compute; reflexivity).
    rewrite E in Hrun. injection Hrun as <- _ <-.
    destruct Hr as (H1 & _ & _). cbn in H1.
    split; [reflexivity|]. split; [lia|].
    vm_compute. reflexivity.
Defined.

(** * Further properties of the sources *)

(** ** Text normalization of the scorer *)

Section TextFacts.

Import Scoring.

Lemma lower_fixed (s : string) :
  Str.forallb not_upper s = true -> Str.lower s = s.
Proof.
  induction s as [|c t IH]; [reflexivity|]. cbn [Str.forallb].
  intros [Hc Ht]%andb_prop. unfold Str.lower in *. cbn [Str.map].
  rewrite (IH Ht). unfold Chars.lower. unfold not_upper in Hc.
  now destruct (Chars.is_upper c).
Qed.

Lemma filter_fixed (p : ascii -> bool) (s : string) :
  Str.forallb p s = true -> Str.filter p s = s.
Proof.
  induction s as [|c t IH]; [reflexivity|]. cbn [Str.forallb Str.filter].
  intros [Hc Ht]%andb_prop. now rewrite Hc, IH.
Qed.

Lemma forallb_collapse (p : ascii -> bool) (b : bool) (s : string) :
  p " "%char = true -> Str.forallb p s = true ->
  Str.forallb p (collapse_from b s) = true.
Proof.
  intros Hsp. revert b; induction s as [|c t IH]; intros b; [easy|].
  cbn [Str.forallb collapse_from]. intros [Hc Ht]%andb_prop.
  destruct (Chars.is_space c), b; cbn [Str.forallb];
    rewrite ?Hsp, ?Hc; cbn [andb]; now apply IH.
Qed.

Lemma single_spaced_collapse (b : bool) (s : string) :
  single_spaced b (collapse_from b s) = true.
Proof.
  revert b; induction s as [|c t IH]; intros b; [reflexivity|].
  cbn [collapse_from]. destruct (Chars.is_space c) eqn:E.
  - destruct b; [apply IH|]. cbn [single_spaced].
    change (Chars.is_space " ") with true. cbn [negb andb].
    rewrite Ascii.eqb_refl. apply IH.
  - cbn [single_spaced]. rewrite E. apply IH.
Qed.

Lemma collapse_fixed (b : bool) (s : string) :
  single_spaced b s = true -> collapse_from b s = s.
Proof.
  revert b; induction s as [|c t IH]; intros b; [reflexivity|].
  cbn [single_spaced collapse_from]. destruct (Chars.is_space c).
  - intros [[Hc Hb]%andb_prop Ht]%andb_prop.
    apply Ascii.eqb_eq in Hc. subst c. destruct b; [discriminate|].
    now rewrite (IH true Ht).
  - intros Ht. now rewrite (IH false Ht).
Qed.

Lemma single_spaced_weaken (s : string) :
  single_spaced true s = true -> single_spaced false s = true.
Proof.
  destruct s as [|c t]; [easy|]. cbn [single_spaced].
  destruct (Chars.is_space c); [|easy].
  now intros [[_ [=]]%andb_prop _]%andb_prop.
Qed.

Lemma single_spaced_lstrip (s : string) :
  single_spaced false s = true ->
  single_spaced false (Str.drop_while Chars.is_space s) = true.
Proof.
  destruct s as [|c t]; [easy|]. cbn [single_spaced Str.drop_while].
  destruct (Chars.is_space c) eqn:E; [|cbn [single_spaced]; now rewrite E].
  intros [_ Ht]%andb_prop. destruct t as [|d u]; [easy|].
  cbn [single_spaced Str.drop_while] in *.
  destruct (Chars.is_space d) eqn:Ed; [|cbn [single_spaced]; now rewrite Ed].
  now apply andb_prop in Ht as [[_ [=]]%andb_prop _].
Qed.

Lemma single_spaced_rstrip (b : bool) (s : string) :
  single_spaced b s = true ->
  single_spaced b (Str.rstrip_by Chars.is_space s) = true.
Proof.
  revert b; induction s as [|c t IH]; intros b; [easy|].
  rewrite rstrip_by_cons. cbn [single_spaced].
  destruct (Chars.is_space c) eqn:E.
  - intros [Hcb Ht]%andb_prop. specialize (IH true Ht).
    destruct (Str.rstrip_by Chars.is_space t) as [|d u]; [reflexivity|].
    cbn [single_spaced]. now rewrite E, Hcb.
  - intros Ht. specialize (IH false Ht).
    destruct (Str.rstrip_by Chars.is_space t) as [|d u];
      cbn [single_spaced]; now rewrite E.
Qed.

Lemma normalize_text_shape (v : string) :
  let n := normalize_text v in
  Str.forallb not_upper n = true /\
  Str.forallb is_kept n = true /\
  single_spaced false n = true.
Proof.
  unfold normalize_text, collapse_spaces, Str.strip.
  repeat split.
  - apply forallb_strip_by, forallb_collapse; [reflexivity|].
    apply forallb_filter, forallb_strip_by, lower_not_upper.
  - apply forallb_strip_by, forallb_collapse; [reflexivity|].
    set (s := Str.strip_by _ _). clearbody s.
    induction s as [|c t IH]; [reflexivity|]. cbn [Str.filter].
    destruct (is_kept c) eqn:E; [|exact IH]. cbn [Str.forallb].
    now rewrite E, IH.
  - unfold Str.strip_by, Str.lstrip_by.
    apply single_spaced_rstrip, single_spaced_lstrip, single_spaced_collapse.
Qed.

Lemma normalize_text_fixed (n : string) :
  Str.forallb not_upper n = true -> Str.forallb is_kept n = true ->
  single_spaced false n = true -> Str.strip n = n ->
  normalize_text n = n.
Proof.
  intros H1 H2 H3 H4. unfold normalize_text, collapse_spaces.
  rewrite (lower_fixed n H1), H4, (filter_fixed _ n H2).
  now rewrite (collapse_fixed false n H3).
Qed.

End TextFacts.

(** X2.  [normalize_text] is idempotent: its result is lowercase, holds
    only word characters, single spaces, slashes and colons, has no
    whitespace at either end, and is left unchanged by a second
    normalization. *)
Theorem normalize_text_idempotent (v : string) :
  let n := Scoring.normalize_text v in
  Scoring.normalize_text n = n /\
  Str.forallb not_upper n = true /\
  Str.forallb Scoring.is_kept n = true /\
  single_spaced false n = true /\
  Str.strip n = n.
Proof.
  destruct (normalize_text_shape v) as (H1 & H2 & H3).
  assert (H4 : Str.strip (Scoring.normalize_text v) = Scoring.normalize_text v).
  { unfold Scoring.normalize_text, Str.strip. apply strip_by_idem. }
  cbv zeta. split; [now apply normalize_text_fixed|]. auto.
Qed.

(** ** Letter case *)

Section CaseFacts.

Lemma lower_idem_char (c : ascii) :
  Chars.lower (Chars.lower c) = Chars.lower c.
Proof.
  unfold Chars.lower at 1.
  assert (H : Chars.is_upper (Chars.lower c) = false).
  { unfold Chars.is_upper at 1. rewrite code_lower.
    unfold Chars.is_upper. split_codes. }
  now rewrite H.
Qed.

Lemma lower_idem (s : string) : Str.lower (Str.lower s) = Str.lower s.
Proof.
  induction s as [|c t IH]; [reflexivity|].
  unfold Str.lower in *. cbn [Str.map]. now rewrite lower_idem_char, IH.
Qed.

Lemma length_lower (s : string) :
  String.length (Str.lower s) = String.length s.
Proof.
  induction s as [|c t IH]; [reflexivity|].
  unfold Str.lower in *. cbn [Str.map String.length]. now rewrite IH.
Qed.

Lemma lower_take (n : nat) (s : string) :
  Str.lower (Str.take n s) = Str.take n (Str.lower s).
Proof.
  revert n; induction s as [|c t IH]; intros [|n]; try reflexivity.
  unfold Str.lower in *. cbn [Str.take Str.map]. now rewrite IH.
Qed.

Lemma lower_cons (c : ascii) (t : string) :
  Str.lower (String c t) = String (Chars.lower c) (Str.lower t).
Proof. reflexivity. Qed.

Lemma eqb_ci_lower (a c : ascii) :
  Chars.eqb_ci a (Chars.lower c) = Chars.eqb_ci a c.
Proof. unfold Chars.eqb_ci. now rewrite lower_idem_char. Qed.

Lemma strip_prefix_lower (w s : string) :
  Str.strip_prefix true w (Str.lower s) =
  Str.lower <$> Str.strip_prefix true w s.
Proof.
  revert s; induction w as [|a w IH]; intros s; [reflexivity|].
  destruct s as [|c t]; [reflexivity|].
  rewrite lower_cons, !strip_prefix_cons, eqb_ci_lower.
  destruct (Chars.eqb_ci a c); [apply IH | reflexivity].
Qed.

Lemma newline_lower (c : ascii) :
  (Chars.code (Chars.lower c) =? 10)%N = (Chars.code c =? 10)%N.
Proof. rewrite code_lower. unfold Chars.is_upper. split_codes. Qed.

Lemma not_newline_lower : case_blind Chars.not_newline.
Proof. intros c. unfold Chars.not_newline. now rewrite newline_lower. Qed.

Lemma is_digit_lower : case_blind Chars.is_digit.
Proof.
  intros c. unfold Chars.is_digit. rewrite code_lower.
  unfold Chars.is_upper. split_codes.
Qed.

Variable A B : Type.
Variable f : A -> B.
Variable k : string -> option A.
Variable k' : string -> option B.
Hypothesis Hk : forall u, k' (Str.lower u) = f <$> k u.

Lemma star_lower (p : ascii -> bool) (s : string) :
  case_blind p ->
  Re.star p (Str.lower s) k' = f <$> Re.star p s k.
Proof.
  intros Hp. induction s as [|c t IH]; [apply (Hk EmptyString)|].
  rewrite lower_cons. cbn [Re.star]. rewrite Hp, <- lower_cons.
  destruct (p c); [|apply Hk]. rewrite IH.
  destruct (Re.star p t k); [reflexivity | apply Hk].
Qed.

Lemma plus_lower (p : ascii -> bool) (s : string) :
  case_blind p ->
  Re.plus p (Str.lower s) k' = f <$> Re.plus p s k.
Proof.
  intros Hp. destruct s as [|c t]; [reflexivity|].
  rewrite lower_cons. cbn [Re.plus]. rewrite Hp.
  destruct (p c); [now apply star_lower | reflexivity].
Qed.

Lemma opt_lower (p : ascii -> bool) (s : string) :
  case_blind p ->
  Re.opt p (Str.lower s) k' = f <$> Re.opt p s k.
Proof.
  intros Hp. destruct s as [|c t]; [apply (Hk EmptyString)|].
  rewrite lower_cons. cbn [Re.opt]. rewrite Hp, <- lower_cons.
  destruct (p c); [|apply Hk]. rewrite Hk.
  destruct (k t); [reflexivity | apply Hk].
Qed.

Lemma alt_lower (ws : list string) (s : string) :
  Re.alt true ws (Str.lower s) k' = f <$> Re.alt true ws s k.
Proof.
  induction ws as [|w ws IH]; [reflexivity|].
  cbn [Re.alt]. rewrite strip_prefix_lower.
  destruct (Str.strip_prefix true w s) as [r|];
    cbn [fmap option_fmap option_map]; [|exact IH].
  rewrite Hk. destruct (k r); [reflexivity | exact IH].
Qed.

End CaseFacts.

Lemma captured_lower (from s : string) :
  Re.captured (Str.lower from) (Str.lower s) =
  Str.lower (Re.captured from s).
Proof. unfold Re.captured. now rewrite !length_lower, lower_take. Qed.

(** Under IGNORECASE a pattern with case-blind classes matches the
    lowercased subject where it matches the subject, and leaves the
    lowercased rest and group. *)
Lemma match_here_lower (subject : string) (r : list Re.atom) :
  Forall atom_case_blind r ->
  forall (op cap : option string) (s : string),
    Re.match_here true (Str.lower subject) r (Str.lower <$> op)
                  (Str.lower <$> cap) (Str.lower s) =
    lower_match <$> Re.match_here true subject r op cap s.
Proof.
  induction 1 as [|a r Ha Hr IH]; intros op cap s; [reflexivity|].
  cbn [Re.match_here].
  destruct a as [c|p|p|p|ws| | | |]; cbn [atom_case_blind] in Ha.
  - destruct s as [|d t]; [reflexivity|].
    rewrite lower_cons, eqb_ci_lower.
    destruct (Chars.eqb_ci c d); [apply IH | reflexivity].
  - apply star_lower; [intros u; apply IH | exact Ha].
  - apply plus_lower; [intros u; apply IH | exact Ha].
  - apply opt_lower; [intros u; apply IH | exact Ha].
  - apply alt_lower. intros u; apply IH.
  - apply (IH (Some s) cap s).
  - destruct op as [from|]; cbn [fmap option_fmap option_map].
    + rewrite captured_lower. apply (IH (Some from) (Some _) s).
    + apply (IH None cap s).
  - rewrite !length_lower.
    destruct (_ =? _)%nat; [apply IH | reflexivity].
  - destruct s as [|c [|d t]]; [apply (IH op cap EmptyString)| |reflexivity].
    rewrite lower_cons, newline_lower.
    destruct (_ =? _)%N; [apply (IH op cap (String c EmptyString))|].
    reflexivity.
Qed.

Lemma findall_from_lower (r : list Re.atom) (subject s : string) :
  Forall atom_case_blind r ->
  forall n,
    Re.findall_from true r (Str.lower subject) (Str.lower s) n =
    Str.lower <$> Re.findall_from true r subject s n.
Proof.
  intros Hr. induction s as [|c t IH]; intros n; [reflexivity|].
  rewrite lower_cons. cbn [Re.findall_from]. destruct n as [|n]; [|apply IH].
  rewrite <- lower_cons.
  pose proof (match_here_lower subject r Hr None None (String c t)) as Hm.
  change (Str.lower <$> None) with (@None string) in Hm. rewrite Hm.
  destruct (Re.match_here true subject r None None (String c t))
    as [[rest cap]|]; cbn [fmap option_fmap option_map lower_match fst snd];
    [|apply IH].
  rewrite fmap_cons, !length_lower, IH. f_equal. now destruct cap.
Qed.

Lemma answer_re_case_blind : Forall atom_case_blind Parsing.answer_re.
Proof.
  unfold Parsing.answer_re.
  repeat (constructor; try exact I);
    first [exact is_space_lower | exact not_newline_lower].
Qed.

Lemma confidence_re_case_blind : Forall atom_case_blind Parsing.confidence_re.
Proof.
  unfold Parsing.confidence_re.
  repeat (constructor; try exact I);
    first [exact is_space_lower | exact is_digit_lower].
Qed.

Lemma normalize_answer_lower (m : string) :
  Parsing.normalize_answer (Str.lower m) = Parsing.normalize_answer m.
Proof.
  unfold Parsing.normalize_answer.
  now rewrite <- (lower_strip m), lower_idem.
Qed.

Lemma last_fmap {A B} (f : A -> B) (l : list A) :
  last (f <$> l) = f <$> last l.
Proof.
  induction l as [|x [|y l] IH]; [reflexivity | reflexivity|].
  rewrite fmap_cons. exact IH.
Qed.

Lemma occurrences_all {A} (P : A -> Prop) (at_head : string -> option A)
      (s : string) :
  (forall u x, at_head u = Some x -> P x) ->
  Forall P (Spec.occurrences at_head s).
Proof.
  intros H. induction s as [|c t IH]; [constructor|].
  cbn [Spec.occurrences].
  destruct (at_head (String c t)) eqn:E; [constructor; eauto | exact IH].
Qed.

Lemma digits_lower (ds : string) :
  Str.forallb Chars.is_digit ds = true -> Str.lower ds = ds.
Proof.
  intros H. apply lower_fixed. revert H. apply forallb_impl.
  intros c Hc. unfold not_upper, Chars.is_upper, Chars.is_digit in *.
  split_codes.
Qed.

(** X18.  The extractor does not depend on letter case: the answer and
    the confidence parsed from the lowercased raw output are those
    parsed from the raw output. *)
Theorem parse_ignores_case (raw : string) :
  Parsing.parse_answer (Str.lower raw) = Parsing.parse_answer raw /\
  Parsing.parse_confidence (Str.lower raw) = Parsing.parse_confidence raw.
Proof.
  assert (He : Str.is_empty (Str.lower raw) = Str.is_empty raw)
    by now destruct raw.
  split.
  - unfold Parsing.parse_answer, Re.findall. rewrite He.
    rewrite (findall_from_lower _ raw raw answer_re_case_blind), last_fmap.
    destruct (last _) as [m|]; cbn [fmap option_fmap option_map];
      [|reflexivity].
    now rewrite normalize_answer_lower.
  - unfold Parsing.parse_confidence. rewrite He.
    pose proof (findall_confidence raw) as Hocc.
    unfold Re.findall in *.
    rewrite (findall_from_lower _ raw raw confidence_re_case_blind),
      last_fmap.
    destruct (last _) as [m|] eqn:E; cbn [fmap option_fmap option_map];
      [|reflexivity].
    rewrite digits_lower; [reflexivity|].
    apply last_Some_elem_of in E. rewrite Hocc in E. revert m E.
    apply Forall_forall, occurrences_all. intros u x.
    unfold Spec.confidence_at.
    destruct (Str.strip_prefix true "CONFIDENCE:" u); [|discriminate].
    cbv zeta. destruct (Str.is_empty (Str.take_while _ _)); [discriminate|].
    intros [= <-]. apply forallb_take_while_self.
Qed.

(** ** The shape of an extracted answer *)

Section AnswerShape.

Lemma reduce_unit_keeps (p : ascii -> bool) (s : string) :
  Str.forallb p s = true -> Str.forallb p (Spec.reduce_unit s) = true.
Proof.
  intros H. unfold Spec.reduce_unit. cbv zeta.
  destruct (_ && _ && _); [|exact H]. now apply forallb_take_while.
Qed.

Lemma final_text_keeps (p : ascii -> bool) (m : string) :
  Str.forallb p (Spec.normalize m) = true ->
  Str.forallb p (Spec.final_text m) = true.
Proof.
  intros H. unfold Spec.final_text, Spec.final_text_by.
  fold (Spec.normalize m). apply reduce_unit_keeps.
  unfold Spec.strip_currency, Spec.strip_period, Str.strip.
  destruct (Str.ends_with "." (Spec.normalize m)).
  - destruct (Str.starts_with "$" _).
    + now apply forallb_strip_by, forallb_tail, forallb_strip_by,
        forallb_init.
    + now apply forallb_strip_by, forallb_init.
  - destruct (Str.starts_with "$" _); [|exact H].
    now apply forallb_strip_by, forallb_tail.
Qed.

Lemma filter_holds (p : ascii -> bool) (s : string) :
  Str.forallb p (Str.filter p s) = true.
Proof.
  induction s as [|c t IH]; [reflexivity|]. cbn [Str.filter].
  destruct (p c) eqn:E; [|exact IH]. cbn [Str.forallb]. now rewrite E.
Qed.

End AnswerShape.

(** X1.  An answer that [parse_answer] returns is not empty and holds no
    line feed, no uppercase ASCII letter and no comma. *)
Theorem parse_answer_shape (raw a : string) :
  Parsing.parse_answer raw = Some a ->
  a <> EmptyString /\
  Str.forallb Chars.not_newline a = true /\
  Str.forallb not_upper a = true /\
  Str.forallb (fun c => negb (Ascii.eqb c ",")) a = true /\
  Str.lower a = a.
Proof.
  unfold Parsing.parse_answer.
  destruct (Str.is_empty raw); [discriminate|].
  pose proof (findall_answer_no_newline raw raw O) as HF.
  fold (Re.findall true Parsing.answer_re raw) in HF.
  destruct (last _) as [m|] eqn:E; [|discriminate].
  assert (Hm : Str.forallb Chars.not_newline m = true).
  { rewrite Forall_forall in HF. apply HF. now apply last_Some_elem_of. }
  rewrite (normalize_answer_spec m Hm).
  destruct (Str.is_empty (Spec.final_text m)) eqn:Ee; [discriminate|].
  intros [= <-].
  assert (Hc : Str.forallb clean (Spec.final_text m) = true)
    by now apply final_text_keeps, normalize_clean.
  apply clean_split in Hc as [Hu Hn].
  split; [now destruct (Spec.final_text m)|].
  split; [exact Hn|]. split; [exact Hu|]. split; [|now apply lower_fixed].
  apply final_text_keeps. unfold Spec.normalize, Str.strip_chars.
  apply forallb_strip_by. unfold Str.remove_char. apply filter_holds.
Qed.

(** X1 at a concrete input. *)
Lemma parse_answer_shape_witness :
  Parsing.parse_answer "ANSWER: Yes, Sir." = Some "yes sir" /\
  Str.lower "yes sir" = "yes sir".
Proof.
  split; [vm_compute; reflexivity|].
  apply (parse_answer_shape "ANSWER: Yes, Sir." "yes sir").
  vm_compute. reflexivity.
Defined.

Section SelfScore.

Import Scoring.

Lemma sub_self (x : Float.float) :
  Float.ltb (Float.abs (Float.sub x x)) tolerance = is_finite x.
Proof.
  destruct x as [s|s| |s m e];
    [destruct s; reflexivity | destruct s; reflexivity | reflexivity |].
  unfold Float.sub, SFsub. rewrite Z.sub_diag. reflexivity.
Qed.

End SelfScore.

(** X3.  An answer scored against itself.  Under the text type it is
    correct unless it is a refusal.  Under the numeric type it is correct
    unless it is a refusal or reads as an infinity or a NaN. *)
Theorem score_answer_reflexive (a ty : string) :
  Scoring.score_answer (Some a) a ty =
  Ret (if Spec.is_refusal a then Scoring.mk_score false true Scoring.unknown
       else if String.eqb ty "numeric" then
         match Spec.number a with
         | Some x => Scoring.mk_score (is_finite x) false Scoring.numeric
         | None => Scoring.mk_score true false Scoring.text_fallback
         end
       else Scoring.mk_score true false Scoring.text).
Proof.
  unfold Scoring.score_answer. rewrite is_refusal_code.
  destruct (Spec.is_refusal a); [reflexivity|].
  destruct (String.eqb ty "numeric").
  - rewrite normalize_numeric_spec. cbn.
    destruct (Spec.number a) as [x|].
    + now rewrite sub_self.
    + now rewrite String.eqb_refl.
  - now rewrite String.eqb_refl.
Qed.

Example score_infinity_against_itself :
  Scoring.score_answer (Some "inf") "inf" "numeric" =
    Ret (Scoring.mk_score false false Scoring.numeric) /\
  Scoring.score_answer (Some "1e999") "1e999" "numeric" =
    Ret (Scoring.mk_score false false Scoring.numeric) /\
  Scoring.score_answer (Some "nan") "nan" "numeric" =
    Ret (Scoring.mk_score false false Scoring.numeric).
Proof. repeat split; vm_compute; reflexivity. Qed.

(** ** Symmetry of the numeric comparison *)

Section SymmetryFacts.

Import Scoring.

Lemma abs_round_aux (s : bool) (m e : Z) (l : location) :
  SFabs (binary_round_aux Float.prec Float.emax s m e l) =
  SFabs (binary_round_aux Float.prec Float.emax false m e l).
Proof.
  unfold binary_round_aux.
  destruct (shr_fexp _ _ m e l) as [mrs' e'].
  destruct (shr_fexp _ _ _ e' loc_Exact) as [mrs'' e''].
  destruct (shr_m mrs''); [reflexivity| |reflexivity].
  now destruct (_ <=? _).
Qed.

Lemma abs_round (s : bool) (m : positive) (e : Z) :
  SFabs (binary_round Float.prec Float.emax s m e) =
  SFabs (binary_round Float.prec Float.emax false m e).
Proof.
  unfold binary_round. destruct (shl_align _ _ _) as [mz ez].
  apply abs_round_aux.
Qed.

Lemma abs_normalize_opp (m e : Z) (szero : bool) :
  SFabs (binary_normalize Float.prec Float.emax (- m) e szero) =
  SFabs (binary_normalize Float.prec Float.emax m e szero).
Proof.
  destruct m as [|p|p]; cbn [Z.opp binary_normalize]; [reflexivity| |].
  - apply abs_round.
  - symmetry. apply abs_round.
Qed.

(** The distance of two floats does not depend on their order. *)
Lemma abs_sub_sym (x y : Float.float) :
  Float.abs (Float.sub x y) = Float.abs (Float.sub y x).
Proof.
  unfold Float.abs, Float.sub.
  destruct x as [sx|sx| |sx mx ex], y as [sy|sy| |sy my ey];
    try reflexivity; try (destruct sx, sy; reflexivity).
  unfold SFsub. rewrite (Z.min_comm ey ex).
  set (a := cond_Zopp sx _). set (b := cond_Zopp sy _).
  replace (b - a) with (- (a - b)) by lia.
  symmetry. apply abs_normalize_opp.
Qed.

End SymmetryFacts.

(** X19.  The verdict is symmetric: when neither of two strings is a
    refusal phrase, scoring the first as the answer against the second as
    the truth gives the same verdict as scoring the second against the
    first, under every answer type. *)
Theorem score_answer_symmetric (a b ty : string) :
  Spec.is_refusal a = false -> Spec.is_refusal b = false ->
  Scoring.score_answer (Some a) b ty = Scoring.score_answer (Some b) a ty.
Proof.
  unfold Scoring.score_answer. rewrite !is_refusal_code. intros -> ->.
  destruct (String.eqb ty "numeric").
  - rewrite !normalize_numeric_spec. cbn.
    destruct (Spec.number a) as [x|], (Spec.number b) as [y|];
      rewrite ?(abs_sub_sym x y);
      rewrite ?(String.eqb_sym (Scoring.normalize_text a)); reflexivity.
  - now rewrite String.eqb_sym.
Qed.

(** X19 at a concrete input. *)
Lemma score_answer_symmetric_witness :
  Scoring.score_answer (Some "0.5") "1/2" "numeric" =
  Scoring.score_answer (Some "1/2") "0.5" "numeric".
Proof.
  apply (score_answer_symmetric "0.5" "1/2" "numeric"); reflexivity.
Defined.

(** ** The score stage *)

Section ScoreStageFacts.

Import Runner ParseStage Scoring ScoreStage.

(** The scorer always returns; a verdict is never both correct and
    unknown, and an absent answer is a parse failure. *)
Lemma score_answer_returns (pa : option string) (gt ty : string) :
  exists v,
    score_answer pa gt ty = Ret v /\
    is_correct v && is_unknown v = false /\
    (pa = None -> v = mk_score false false parse_failure).
Proof.
  unfold score_answer.
  destruct pa as [a|]; [|eexists; repeat split].
  destruct (bool_decide _); [eexists; repeat split; discriminate|].
  destruct (String.eqb ty "numeric").
  - rewrite !normalize_numeric_spec. cbn.
    destruct (Spec.number a), (Spec.number gt); eexists;
      (split; [reflexivity|]); cbn [is_correct is_unknown];
      rewrite andb_false_r; (split; [reflexivity | discriminate]).
  - eexists. split; [reflexivity|]. cbn [is_correct is_unknown].
    rewrite andb_false_r. split; [reflexivity | discriminate].
Qed.

Lemma gt_lookup_fold (qid : string) (dataset : list question) :
  forall lookup : gmap string truth,
    fold_left (fun lookup q => <[ q_id q := truth_of q ]> lookup)
              dataset lookup !! qid =
    match question_for dataset qid with
    | Some q => Some (truth_of q)
    | None => lookup !! qid
    end.
Proof.
  unfold question_for.
  induction dataset as [|q dataset IH]; intros lookup; [reflexivity|].
  cbn [fold_left List.filter]. rewrite IH.
  destruct (String.eqb_spec (q_id q) qid) as [E|E].
  - destruct (List.filter _ dataset) as [|q' l] eqn:F.
    + cbn. now rewrite E, lookup_insert_eq.
    + change (last (q :: q' :: l)) with (last (q' :: l)).
      destruct (last (q' :: l)) eqn:L; [reflexivity|].
      now apply last_None in L.
  - destruct (last (List.filter _ dataset)); [reflexivity|].
    now rewrite lookup_insert_ne.
Qed.

(** The dictionary holds, for an id, the truth of the last question of
    the dataset with that id, and nothing for an id of no question. *)
Lemma gt_lookup_last (dataset : list question) (qid : string) :
  gt_lookup dataset !! qid = truth_of <$> question_for dataset qid.
Proof.
  unfold gt_lookup. rewrite gt_lookup_fold.
  destruct (question_for dataset qid); [reflexivity | apply lookup_empty].
Qed.

Lemma score_record_scored (dataset : list question) (rec : parsed) :
  exists r, score_record (gt_lookup dataset) rec = Ret r /\
            scored dataset rec r.
Proof.
  unfold score_record, scored. cbv zeta. rewrite gt_lookup_last.
  destruct (question_for dataset (p_question_id rec)) as [q|];
    cbn [fmap option_fmap option_map from_option truth_of gt_answer
         gt_answer_type gt_category gt_difficulty].
  - destruct (score_answer_returns (parsed_answer rec) (q_answer q)
                (q_answer_type q)) as (v & -> & _).
    eexists. split; [reflexivity|]. exists v. split; reflexivity.
  - destruct (score_answer_returns (parsed_answer rec) EmptyString "text")
      as (v & -> & _).
    eexists. split; [reflexivity|]. exists v. split; reflexivity.
Qed.

Lemma score_rows_scored (dataset : list question) (parsed : list parsed) :
  forall acc : list row,
  exists rows,
    score_rows (gt_lookup dataset) parsed acc = Ret (acc ++ rows) /\
    Forall2 (scored dataset) parsed rows.
Proof.
  induction parsed as [|rec parsed IH]; intros acc.
  - exists []. cbn. rewrite app_nil_r. split; [reflexivity | constructor].
  - cbn [score_rows].
    destruct (score_record_scored dataset rec) as (r & -> & Hr).
    destruct (IH (acc ++ [r])) as (rows & Hrows & Hall).
    exists (r :: rows). split; [|now constructor].
    cbn. cbn in Hrows. rewrite Hrows, <- app_assoc. reflexivity.
Qed.

(** With rows to report, the percentages of the summary are printed
    without error. *)
Lemma score_all_rows (scores_path : string) (dataset : list question)
      (rec : parsed) (parsed : list parsed) (report rows : list row) :
  score_rows (gt_lookup dataset) (rec :: parsed) [] = Ret rows ->
  rows <> [] ->
  score_all scores_path dataset (rec :: parsed) report =
    Ret (scores_path, rows, Some (summarize rows)).
Proof.
  intros Hr Hne. unfold score_all. rewrite Hr.
  destruct rows as [|r rows]; [congruence | reflexivity].
Qed.

End ScoreStageFacts.

(** X4.  The score stage never raises.  With an empty parsed store it
    returns the empty path and leaves the score file as it was.
    Otherwise it rewrites the score file to one row per parsed record,
    in order; a record is scored against the last question of the
    dataset that has its question id, and against the empty truth with
    answer type text when no question has it. *)
Theorem score_all_joins (scores_path : string)
        (dataset : list Runner.question)
        (parsed : list ParseStage.parsed) (report : list ScoreStage.row) :
  match parsed with
  | [] =>
      ScoreStage.score_all scores_path dataset parsed report =
        Ret (EmptyString, report, None)
  | _ =>
      exists rows,
        ScoreStage.score_all scores_path dataset parsed report =
          Ret (scores_path, rows, Some (ScoreStage.summarize rows)) /\
        Forall2 (ScoreStage.scored dataset) parsed rows
  end.
Proof.
  destruct parsed as [|rec parsed]; [reflexivity|].
  destruct (score_rows_scored dataset (rec :: parsed) []) as (rows & Hr & H).
  exists rows. split; [|exact H].
  apply score_all_rows; [exact Hr|].
  apply Forall2_cons_inv_l in H as (r & rows' & _ & _ & ->). discriminate.
Qed.

(** ** From the raw store to the score report *)

Lemma occurrences_after_error {A} (at_head : string -> option A)
      (m : string) :
  (forall c t, Chars.eqb_ci "A" c = false -> Chars.eqb_ci "C" c = false ->
               at_head (String c t) = None) ->
  Spec.occurrences at_head ("ERROR: " +:+ m) = Spec.occurrences at_head m.
Proof.
  intros H. rewrite !append_cons, append_empty_l. cbn [Spec.occurrences].
  now rewrite !H.
Qed.

Lemma answer_after_error (m : string) :
  Spec.occurrences Spec.answer_at ("ERROR: " +:+ m) =
  Spec.occurrences Spec.answer_at m.
Proof.
  apply occurrences_after_error. intros c t Ha _.
  unfold Spec.answer_at. now rewrite strip_prefix_cons, Ha.
Qed.

Lemma confidence_after_error (m : string) :
  Spec.occurrences Spec.confidence_at ("ERROR: " +:+ m) =
  Spec.occurrences Spec.confidence_at m.
Proof.
  apply occurrences_after_error. intros c t _ Hc.
  unfold Spec.confidence_at. now rewrite strip_prefix_cons, Hc.
Qed.

Lemma parse_confidence_no_marker (raw : string) :
  Spec.occurrences Spec.confidence_at raw = [] ->
  Parsing.parse_confidence raw = Ret None.
Proof.
  intros H. unfold Parsing.parse_confidence.
  rewrite findall_confidence, H. now destruct (Str.is_empty raw).
Qed.

(** X6.  A call that raised is recorded as "ERROR: " followed by the
    error text.  When that text holds neither marker, the parse of the
    record returns, finds no answer and no confidence in it and marks it
    as not parsed, and the scorer gives it the verdict of a parse
    failure, which is not correct, whatever the ground truth. *)
Theorem error_record_scores_as_parse_failure (e : exn)
        (rec : Runner.generation) (gt ty : string) :
  Spec.occurrences Spec.answer_at (exn_message e) = [] ->
  Spec.occurrences Spec.confidence_at (exn_message e) = [] ->
  Runner.raw_output rec = RunnerSpec.recorded (Raise e) ->
  exists p,
    ParseStage.parse_record rec = Ret p /\
    ParseStage.parsed_answer p = None /\
    ParseStage.parsed_confidence p = None /\
    ParseStage.parse_success p = false /\
    Scoring.score_answer (ParseStage.parsed_answer p) gt ty =
      Ret (Scoring.mk_score false false Scoring.parse_failure).
Proof.
  intros Ha Hc Hraw.
  assert (E1 : Parsing.parse_answer (Runner.raw_output rec) = None).
  { rewrite Hraw. apply parse_answer_no_marker.
    cbn [RunnerSpec.recorded]. now rewrite answer_after_error. }
  assert (E2 : Parsing.parse_confidence (Runner.raw_output rec) = Ret None).
  { rewrite Hraw. apply parse_confidence_no_marker.
    cbn [RunnerSpec.recorded]. now rewrite confidence_after_error. }
  eexists. split.
  - unfold ParseStage.parse_record. rewrite E1, E2. reflexivity.
  - repeat split.
Qed.

(** X6 at a concrete input. *)
Lemma error_record_scores_as_parse_failure_witness :
  exists p,
    ParseStage.parse_record Examples.error_record = Ret p /\
    Scoring.score_answer (ParseStage.parsed_answer p) "42" "numeric" =
      Ret (Scoring.mk_score false false Scoring.parse_failure).
Proof.
  destruct (error_record_scores_as_parse_failure
              (RuntimeError
                 "API call failed after 3 retries: 503 unavailable")
              Examples.error_record "42" "numeric")
    as (p & Hp & _ & _ & _ & Hs); try reflexivity.
  exists p. split; [exact Hp | exact Hs].
Defined.

Section CountFacts.

Import Runner ParseStage ParseSpec Scoring ScoreStage.

Lemma scored_parsed_of (dataset : list question) (rec : generation)
      (r : row) :
  scored dataset (parsed_of rec) r ->
  r_parse_success r =
    bool_decide (Parsing.parse_answer (raw_output rec) <> None) /\
  r_is_correct r && r_is_unknown r = false /\
  (r_parse_success r = false ->
   r_is_correct r = false /\ r_is_unknown r = false).
Proof.
  unfold scored. cbv zeta. intros (v & Hv & ->).
  cbn [row_of r_parse_success r_is_correct r_is_unknown parsed_of
       parsed_record parse_success parsed_answer p_question_id] in *.
  destruct (score_answer_returns (Parsing.parse_answer (raw_output rec))
              (from_option q_answer EmptyString
                 (question_for dataset (question_id rec)))
              (from_option q_answer_type "text"
                 (question_for dataset (question_id rec))))
    as (v' & Hv' & Hex & Hnone).
  rewrite Hv in Hv'. injection Hv' as <-.
  split; [reflexivity|]. split; [exact Hex|].
  intros Hp. apply bool_decide_eq_false in Hp.
  destruct (Parsing.parse_answer (raw_output rec)); [now destruct Hp|].
  now rewrite (Hnone eq_refl).
Qed.

Lemma summarize_counts (dataset : list question)
      (records : list generation) :
  forall rows : list row,
    Forall2 (scored dataset) (parsed_of <$> records) rows ->
    total (summarize rows) = length records /\
    parse_fail (summarize rows) =
      length (filter (fun rec => Parsing.parse_answer (raw_output rec) = None)
                     records) /\
    (correct (summarize rows) + unknown_rows (summarize rows)
     + parse_fail (summarize rows) <= total (summarize rows))%nat.
Proof.
  unfold summarize. cbn [total correct unknown_rows parse_fail].
  induction records as [|rec records IH]; intros rows H.
  - apply Forall2_nil_inv_l in H as ->. cbn. auto.
  - rewrite fmap_cons in H.
    apply Forall2_cons_inv_l in H as (r & rows' & Hr & Hrows & ->).
    destruct (IH rows' Hrows) as (H1 & H2 & H3).
    apply scored_parsed_of in Hr as (Hp & Hex & Hfail).
    cbn [length List.filter]. rewrite Hp in *.
    destruct (decide (Parsing.parse_answer (raw_output rec) = None))
      as [E|E].
    + rewrite filter_cons_True by exact E.
      rewrite bool_decide_eq_false_2 in * by (intros H; now apply H).
      destruct (Hfail eq_refl) as [-> ->]. cbn [negb length]. lia.
    + rewrite filter_cons_False by exact E.
      rewrite bool_decide_eq_true_2 in * by exact E. cbn [negb].
      destruct (r_is_correct r), (r_is_unknown r); try discriminate;
        cbn [length]; lia.
Qed.

End CountFacts.

(** X5.  A raw store that holds records, the confidence of each of which
    can be converted, is parsed and then scored: the parse stage returns
    and rebuilds the parsed store, and the summary printed by the score
    stage has as total the number of raw records and as parse failures
    the records in which no answer was found; since no row is both
    correct and unknown and no unparsed row is either, correct + unknown
    + parse failures never exceeds the total. *)
Theorem score_summary_counts (scores_path : string)
        (dataset : list Runner.question)
        (records : list Runner.generation)
        (out : list ParseStage.parsed) (report : list ScoreStage.row) :
  records <> [] ->
  Forall ParseSpec.readable records ->
  exists parsed rows,
    ParseStage.parse_all_outputs records out = (Ret parsed, parsed) /\
    ScoreStage.score_all scores_path dataset parsed report =
      Ret (scores_path, rows, Some (ScoreStage.summarize rows)) /\
    ScoreStage.total (ScoreStage.summarize rows) = length records /\
    ScoreStage.parse_fail (ScoreStage.summarize rows) =
      length (filter (fun rec =>
                Parsing.parse_answer (Runner.raw_output rec) = None)
              records) /\
    (ScoreStage.correct (ScoreStage.summarize rows)
     + ScoreStage.unknown_rows (ScoreStage.summarize rows)
     + ScoreStage.parse_fail (ScoreStage.summarize rows)
     <= ScoreStage.total (ScoreStage.summarize rows))%nat.
Proof.
  intros Hne Hread.
  destruct (score_rows_scored dataset (ParseSpec.parsed_of <$> records)
              []) as (rows & Hrows & Hall).
  exists (ParseSpec.parsed_of <$> records), rows. split; [|split].
  - rewrite parse_all_outputs_prefix, (proj2 (first_error_none records) Hread),
      (parsed_prefix_readable records Hread).
    now destruct records.
  - destruct records as [|rec records]; [congruence|].
    rewrite fmap_cons in *.
    apply score_all_rows; [exact Hrows|].
    apply Forall2_cons_inv_l in Hall as (r & rows' & _ & _ & ->).
    discriminate.
  - now apply (summarize_counts dataset).
Qed.

(** X5 at a concrete input. *)
Lemma score_summary_counts_witness :
  exists parsed rows,
    ParseStage.parse_all_outputs
      [Examples.foreign_record; Examples.error_record] [] =
      (Ret parsed, parsed) /\
    ScoreStage.score_all "results/scores.csv" [Examples.question1]
      parsed [] =
      Ret ("results/scores.csv", rows,
           Some (ScoreStage.summarize rows)) /\
    ScoreStage.total (ScoreStage.summarize rows) = 2%nat.
Proof.
  destruct (score_summary_counts "results/scores.csv" [Examples.question1]
              [Examples.foreign_record; Examples.error_record] [] [])
    as (parsed & rows & H0 & H1 & H2 & _).
  - discriminate.
  - repeat constructor; eexists; vm_compute; reflexivity.
  - exists parsed, rows. split; [exact H0|]. split; [exact H1 | exact H2].
Defined.

(** ** The prompt *)

Section ReplaceFacts.

Variable old new : string.

Lemma replace_from_skip (s : string) :
  forall k, Str.replace_from old new s k =
            Str.replace_from old new (Str.drop k s) O.
Proof.
  induction s as [|c t IH]; intros [|k]; try reflexivity.
  cbn [Str.replace_from Str.drop]. apply IH.
Qed.

Lemma drop_append (a b : string) : Str.drop (String.length a) (a +:+ b) = b.
Proof.
  induction a as [|c a IH]; [now rewrite append_empty_l|].
  rewrite append_cons. cbn [String.length Str.drop]. exact IH.
Qed.

(** Text that does not hold [old] is left as it is. *)
Lemma replace_absent (s : string) :
  Str.contains false old s = false -> Str.replace old new s = s.
Proof.
  unfold Str.replace. induction s as [|c t IH]; [reflexivity|].
  cbn [Str.contains Str.replace_from].
  destruct (Str.strip_prefix false old (String c t)); [discriminate|].
  intros H. now rewrite (IH H).
Qed.

(** An occurrence at the head is replaced, and the scan goes on after
    it. *)
Lemma replace_here (post : string) :
  old <> EmptyString ->
  Str.replace old new (old +:+ post) = new +:+ Str.replace old new post.
Proof.
  intros Hne. unfold Str.replace.
  pose proof (strip_prefix_append old post) as Hp.
  destruct old as [|a old'] eqn:E; [congruence|]. rewrite <- E in *.
  assert (Hs : old +:+ post = String a (old' +:+ post))
    by (rewrite E; apply append_cons).
  rewrite Hs in *. cbn [Str.replace_from]. rewrite Hp, replace_from_skip.
  replace (String.length old - 1)%nat with (String.length old')
    by (rewrite E; cbn [String.length]; lia).
  now rewrite drop_append.
Qed.

(** Characters that cannot start [old] are copied. *)
Lemma replace_before (a : ascii) (old' : string) (pre s : string) :
  old = String a old' ->
  Str.forallb (fun c => negb (Ascii.eqb a c)) pre = true ->
  Str.replace old new (pre +:+ s) = pre +:+ Str.replace old new s.
Proof.
  intros E. unfold Str.replace.
  induction pre as [|c pre IH]; [now rewrite !append_empty_l|].
  cbn [Str.forallb]. intros [Hc Hpre]%andb_prop.
  rewrite !append_cons. cbn [Str.replace_from]. rewrite E at 1.
  cbn [Str.strip_prefix]. apply negb_true_iff in Hc. rewrite Hc.
  now rewrite (IH Hpre).
Qed.

End ReplaceFacts.

Lemma append_assoc (a b c : string) : (a +:+ b) +:+ c = a +:+ (b +:+ c).
Proof.
  induction a as [|x a IH]; [now rewrite !append_empty_l|].
  now rewrite !append_cons, IH.
Qed.

(** X7.  A template that holds the placeholder once, after text without
    an opening brace: the prompt is the template with the question in
    the place of the placeholder, followed by the format suffix.  The
    question is inserted as it is, also when it holds the placeholder
    text itself. *)
Theorem build_prompt_substitutes (pre post question : string) :
  Str.forallb (fun c => negb (Ascii.eqb "{" c)) pre = true ->
  Str.contains false "{{QUESTION}}" post = false ->
  Runner.build_prompt (pre +:+ "{{QUESTION}}" +:+ post) question =
  pre +:+ question +:+ post +:+ Runner.suffix.
Proof.
  intros Hpre Hpost. unfold Runner.build_prompt.
  rewrite (replace_before "{{QUESTION}}" question "{" "{QUESTION}}" pre)
    by (reflexivity || exact Hpre).
  rewrite replace_here by discriminate.
  rewrite (replace_absent _ _ _ Hpost).
  now rewrite !append_assoc.
Qed.

(** X7 at a concrete input. *)
Lemma build_prompt_substitutes_witness :
  Runner.build_prompt "Question: {{QUESTION}}" "What is 40 + 2?" =
  "Question: What is 40 + 2?" +:+ Runner.suffix.
Proof.
  apply (build_prompt_substitutes "Question: " EmptyString
           "What is 40 + 2?"); reflexivity.
Defined.

(** X8.  A template without the placeholder: the prompt is the template
    followed by the format suffix, and the question is not in it unless
    the template or the suffix holds it. *)
Theorem build_prompt_without_placeholder (template question : string) :
  Str.contains false "{{QUESTION}}" template = false ->
  Runner.build_prompt template question = template +:+ Runner.suffix.
Proof.
  intros H. unfold Runner.build_prompt. now rewrite replace_absent.
Qed.

(** X8 at a concrete input. *)
Lemma build_prompt_without_placeholder_witness :
  Runner.build_prompt "Question: {QUESTION}" "What is 40 + 2?" =
  "Question: {QUESTION}" +:+ Runner.suffix.
Proof.
  apply (build_prompt_without_placeholder "Question: {QUESTION}"
           "What is 40 + 2?").
  reflexivity.
Defined.

(** ** The client: rate limit and degenerate settings *)

Section LimiterFacts.

Import Client ClientSpec.

Variable endpoint : nat -> request -> outcome * Q.

Lemma last_cons_default (t : Q) (l : list Q) (d : Q) :
  List.last (t :: l) d = List.last l t.
Proof.
  revert t d. induction l as [|t' l IH]; intros t d; [reflexivity|].
  change (List.last (t' :: l) d = List.last (t' :: l) t).
  now rewrite !IH.
Qed.

Lemma last_app_default (l1 l2 : list Q) (d : Q) :
  List.last (l1 ++ l2) d = List.last l2 (List.last l1 d).
Proof.
  revert d. induction l1 as [|t l1 IH]; intros d; [reflexivity|].
  rewrite <- app_comm_cons, !last_cons_default. apply IH.
Qed.

Lemma spaced_app (previous interval : Q) (l1 l2 : list Q) :
  spaced previous interval l1 ->
  spaced (List.last l1 previous) interval l2 ->
  spaced previous interval (l1 ++ l2).
Proof.
  revert previous. induction l1 as [|t l1 IH]; intros previous H1 H2.
  - exact H2.
  - destruct H1 as [Ht H1]. split; [exact Ht|]. apply IH; [exact H1|].
    now rewrite <- (last_cons_default t l1 previous).
Qed.

(** Spaced times add up. *)
Lemma spaced_total (previous interval : Q) (times : list Q) :
  spaced previous interval times ->
  (previous + inject_Z (Z.of_nat (length times)) * interval
   <= List.last times previous)%Q.
Proof.
  revert previous. induction times as [|t times IH]; intros previous H.
  - cbn [length List.last]. change (inject_Z (Z.of_nat 0)) with 0%Q. lra.
  - destruct H as [Ht H]. specialize (IH t H).
    rewrite last_cons_default. cbn [length].
    rewrite Nat2Z.inj_succ. unfold Z.succ.
    rewrite inject_Z_plus. change (inject_Z 1) with 1%Q.
    set (k := inject_Z (Z.of_nat (length times))) in *. nra.
Qed.

(** A sleep sends nothing, whether it returns or raises. *)
Lemma sleep_seconds_sends_nothing (tag : Q -> event) (s : Q) (w : world) :
  exists r w1,
    sleep_seconds tag s w = (r, w1) /\
    sent_at w1 = sent_at w /\
    calls w1 = calls w /\
    match r with
    | Ret _ => clock w1 = (clock w + s)%Q
    | Raise _ => w1 = w
    end.
Proof.
  unfold sleep_seconds.
  destruct (negb _); [do 2 eexists; repeat split; reflexivity|].
  destruct (negb _); [do 2 eexists; repeat split; reflexivity|].
  destruct (platform w (clock w) s);
    do 2 eexists; repeat split; reflexivity.
Qed.

Lemma time_sleep_sends_nothing (tag : Q -> event) (x : number) (w : world) :
  exists r w1,
    time_sleep tag x w = (r, w1) /\
    sent_at w1 = sent_at w /\
    calls w1 = calls w /\
    match r with
    | Ret _ => clock w1 = (clock w + value x)%Q
    | Raise _ => w1 = w
    end.
Proof.
  destruct x; cbn [time_sleep value];
    try apply sleep_seconds_sends_nothing;
    do 2 eexists; repeat split; reflexivity.
Qed.

(** When the rate limiter returns, the clock is at least one interval past
    the last call. *)
Lemma wait_for_rate_limit_clock (c : client) (w : world) :
  exists r w1,
    wait_for_rate_limit c w = (r, w1) /\
    sent_at w1 = sent_at w /\
    calls w1 = calls w /\
    match r with
    | Ret _ => (last_call_time c + min_interval c <= clock w1)%Q
    | Raise _ => True
    end.
Proof.
  unfold wait_for_rate_limit.
  destruct (Qle_bool (min_interval c) _) eqn:E; cbn [negb].
  - exists (Ret tt), w. apply Qle_bool_iff in E. repeat split; lra.
  - destruct (time_sleep_sends_nothing RateLimitSleep
                (PyFloat (min_interval c - (clock w - last_call_time c))) w)
      as (r & w1 & -> & Hs & Hc & Hr).
    exists r, w1. repeat split; auto.
    destruct r; [|exact I]. rewrite Hr. cbn [value]. lra.
Qed.

(** One attempt sends at most one request, an interval or more after the
    last call, and records its time as the new last call. *)
Lemma attempt_spacing (c : client) (rq : request) (w : world) :
  exists r c1 w1 times,
    attempt endpoint c rq w = (r, c1, w1) /\
    sent_at w1 = sent_at w ++ times /\
    calls w1 = (calls w + length times)%nat /\
    spaced (last_call_time c) (min_interval c) times /\
    last_call_time c1 = List.last times (last_call_time c) /\
    min_interval c1 = min_interval c /\
    retry_backoff c1 = retry_backoff c.
Proof.
  unfold attempt, generate_content.
  destruct (wait_for_rate_limit_clock c w) as (r & w1 & -> & Hs & Hc & Hl).
  destruct r as [[]|e].
  - destruct (endpoint (calls w1) rq) as [o d].
    destruct o as [text|e]; do 3 eexists; exists [clock w1];
      (split; [reflexivity|]);
      cbn [sent_at calls min_interval last_call_time retry_backoff length
           spaced List.last];
      rewrite Hs, Hc; repeat split; auto; lia.
  - do 3 eexists. exists []. split; [reflexivity|].
    cbn [length spaced List.last]. rewrite Hs, Hc, app_nil_r.
    repeat split; auto.
Qed.

Lemma generate_loop_spacing (rq : request) (attempts : list Z) :
  forall (last_error : option exn) (c : client) (w : world),
  exists r c' w' times,
    generate_loop endpoint attempts last_error c rq w = (r, c', w') /\
    sent_at w' = sent_at w ++ times /\
    calls w' = (calls w + length times)%nat /\
    spaced (last_call_time c) (min_interval c) times /\
    last_call_time c' = List.last times (last_call_time c) /\
    min_interval c' = min_interval c.
Proof.
  induction attempts as [|n rest IH]; intros last_error c w;
    cbn [generate_loop].
  - do 3 eexists. exists []. split; [reflexivity|].
    cbn [length spaced List.last]. rewrite app_nil_r. repeat split; auto.
  - destruct (attempt_spacing c rq w)
      as (r & c1 & w1 & times & -> & Hs & Hc & Hsp & Hl & Hm & _).
    assert (Stop : forall (r : result string) (w2 : world),
              sent_at w2 = sent_at w1 -> calls w2 = calls w1 ->
              exists r0 c' w' times0,
                (r, c1, w2) = (r0, c', w') /\
                sent_at w' = sent_at w ++ times0 /\
                calls w' = (calls w + length times0)%nat /\
                spaced (last_call_time c) (min_interval c) times0 /\
                last_call_time c' = List.last times0 (last_call_time c) /\
                min_interval c' = min_interval c).
    { intros r0 w2 Hs2 Hc2. exists r0, c1, w2, times.
      rewrite Hs2, Hc2. repeat split; auto. }
    destruct r as [text|e]; [now apply Stop|].
    destruct (backoff_product (retry_backoff c) n) as [wait|e'];
      [|now apply Stop].
    destruct (time_sleep_sends_nothing BackoffSleep wait w1)
      as (r & w2 & -> & Hs2 & Hc2 & _).
    destruct r as [[]|e']; [|now apply Stop].
    destruct (IH (Some e) c1 w2)
      as (r & c' & w' & times' & -> & Hs' & Hc' & Hsp' & Hl' & Hm').
    exists r, c', w', (times ++ times'). split; [reflexivity|].
    rewrite Hs', Hs2, Hs, Hc', Hc2, Hc, <- app_assoc, length_app.
    split; [reflexivity|]. split; [lia|].
    rewrite last_app_default, <- Hl. split; [|split; [exact Hl' | congruence]].
    apply spaced_app; [exact Hsp|]. rewrite <- Hl, <- Hm. exact Hsp'.
Qed.

End LimiterFacts.

(** X9.  Rate limiting.  Whatever the endpoint, the clock and the platform
    do, and whichever way the call ends, each request that a [generate]
    call sends is sent at least [min_interval] after the request before
    it, the first of them at least [min_interval] after the last call
    before; the time of the last request sent is kept in
    [last_call_time].  So the time of the last call grows by at least
    [min_interval] per request sent. *)
Theorem generate_rate_limited
        (endpoint : nat -> Client.request -> Client.outcome * Q)
        (c : Client.client) (prompt : string) (temperature : Qc)
        (max_output_tokens : Z) (w : Client.world) :
  exists r c' w' times,
    Client.generate endpoint c prompt temperature max_output_tokens w =
      (r, c', w') /\
    Client.sent_at w' = Client.sent_at w ++ times /\
    Client.calls w' = (Client.calls w + length times)%nat /\
    ClientSpec.spaced (Client.last_call_time c) (Client.min_interval c)
                      times /\
    Client.last_call_time c' = List.last times (Client.last_call_time c) /\
    Client.min_interval c' = Client.min_interval c /\
    (Client.last_call_time c
     + inject_Z (Z.of_nat (Client.calls w' - Client.calls w))
       * Client.min_interval c
     <= Client.last_call_time c')%Q.
Proof.
  unfold Client.generate.
  destruct (generate_loop_spacing endpoint
              {| Client.rq_model := Client.model c;
                 Client.rq_contents := prompt;
                 Client.rq_temperature := temperature;
                 Client.rq_max_output_tokens := max_output_tokens |}
              (py_range 1 (Client.retry_max c + 1)) None c w)
    as (r & c' & w' & times & H & Hs & Hc & Hsp & Hl & Hm).
  exists r, c', w', times. repeat split; auto.
  rewrite Hl, Hc.
  replace (Client.calls w + length times - Client.calls w)%nat
    with (length times) by lia.
  now apply spaced_total.
Qed.

(** X10.  With an attempt count of zero or less, [generate] sends no
    request and raises the [RuntimeError] of exhausted retries, whose
    last error reads None. *)
Theorem generate_without_attempts
        (endpoint : nat -> Client.request -> Client.outcome * Q)
        (c : Client.client) (prompt : string) (temperature : Qc)
        (max_output_tokens : Z) (w : Client.world) :
  Client.retry_max c <= 0 ->
  Client.generate endpoint c prompt temperature max_output_tokens w =
    (Raise (RuntimeError ("API call failed after "
                          +:+ Str.of_Z (Client.retry_max c)
                          +:+ " retries: None")), c, w).
Proof.
  intros H. unfold Client.generate. rewrite py_range_nil by lia. reflexivity.
Qed.

(** X10 at a concrete input. *)
Lemma generate_without_attempts_witness :
  Client.generate Examples.failing Examples.client_no_retry "What is 40 + 2?"
                  (Q2Qc 0) 1024 Examples.world0 =
    (Raise (RuntimeError "API call failed after 0 retries: None"),
     Examples.client_no_retry, Examples.world0).
Proof.
  apply (generate_without_attempts Examples.failing Examples.client_no_retry).
  cbn. lia.
Defined.



(** ** The runner as a whole *)

Section RunFacts.

Import Client Runner RunnerSpec Progress.

Variable endpoint : nat -> request -> outcome * Q.
Variable load_prompt_template : string -> string.
Variable cfg : config.

Lemma main_loop_fields (work : list work_item) :
  forall (c : client) (store : list generation) (errs : Z) (w : world),
  exists recs : list generation,
    fst (fst (main_loop endpoint load_prompt_template cfg work c store
                        errs w)) = store ++ recs /\
    gen_model <$> recs = (fun _ => cfg_model cfg) <$> work /\
    prompt_text <$> recs = full_prompt load_prompt_template <$> work.
Proof.
  induction work as [|item work IH]; intros c store errs w.
  - exists []. cbn. now rewrite app_nil_r.
  - destruct item as [[[question prompt_name] temp] run_idx].
    cbn [main_loop run_item].
    destruct (generate _ _ _ _ _ _) as [[r c1] w1].
    destruct r as [text|e];
      match goal with
      | |- context [main_loop _ _ _ _ ?c1 (store ++ [?rec]) ?errs1 ?w1] =>
          destruct (IH c1 (store ++ [rec]) errs1 w1) as (recs & -> & Hm & Hp);
          exists (rec :: recs)
      end;
      rewrite <- app_assoc; (split; [reflexivity|]);
      rewrite !fmap_cons, Hm, Hp; auto.
Qed.

Lemma filter_raised_bound (l : list (result string)) :
  (length (List.filter raised l) <= length l)%nat.
Proof. apply List.filter_length_le. Qed.

End RunFacts.

(** X13.  A run that returns only appends: the store afterwards is the
    store before followed by one new record per work item, each with the
    configured model name and the prompt built for its item.  Without
    work nothing is reported and the world is untouched; otherwise the
    reported number of calls is the number of new records and the
    reported number of errors lies between zero and it. *)
Theorem run_experiments_appends
        (endpoint : nat -> Client.request -> Client.outcome * Q)
        (load_prompt_template : string -> string) (cfg : Runner.config)
        (api_key : option string) (dataset : list Runner.question)
        (store store' : list Runner.generation) (w w' : Client.world)
        (rep : option Runner.report) :
  Runner.run_experiments endpoint load_prompt_template cfg api_key dataset
                         store w = (Ret rep, store', w') ->
  let work :=
    Runner.build_work dataset (Runner.cfg_prompts cfg)
      (Runner.cfg_temperatures cfg) (Runner.cfg_num_runs cfg)
      (Runner.get_completed_keys store) in
  exists recs : list Runner.generation,
    store' = store ++ recs /\
    length recs = length work /\
    Runner.gen_model <$> recs = (fun _ => Runner.cfg_model cfg) <$> work /\
    Runner.prompt_text <$> recs =
      Progress.full_prompt load_prompt_template <$> work /\
    match rep with
    | None => work = [] /\ w' = w
    | Some r =>
        work <> [] /\
        Runner.calls_made r = length recs /\
        0 <= Runner.errors r <= Z.of_nat (Runner.calls_made r)
    end.
Proof.
  intros Hrun work. unfold Runner.run_experiments in Hrun. fold work in Hrun.
  destruct work as [|item work'] eqn:Hw.
  { injection Hrun as <- <- <-. exists []. now rewrite app_nil_r. }
  cbn [length Nat.eqb] in Hrun.
  destruct (Client.new_client _ _ _ _ _) as [c|e]; [|discriminate].
  destruct (main_loop_fields endpoint load_prompt_template cfg
              (item :: work') c store 0 w) as (recs & Hfst & Hm & Hp).
  destruct (main_loop_spec endpoint load_prompt_template cfg
              (item :: work') c store 0 w) as (recs' & w1 & E & Hk & _).
  pose proof (filter_raised_bound
    (RunnerSpec.call_results endpoint load_prompt_template cfg
       (item :: work') c w)) as Hb.
  rewrite call_results_length in Hb. cbn [length] in Hb.
  set (failed := length (List.filter _ _)) in *. clearbody failed.
  rewrite E in Hrun, Hfst. cbn [fst] in Hfst.
  apply app_inv_head in Hfst. subst recs'.
  injection Hrun as <- <- <-. exists recs.
  assert (Hlen : length recs = S (length work')).
  { apply (f_equal length) in Hk. now rewrite !length_fmap in Hk. }
  split; [reflexivity|]. split; [exact Hlen|].
  split; [exact Hm|]. split; [exact Hp|].
  cbn [Runner.calls_made Runner.errors length]. split; [discriminate|].
  split; [now rewrite Hlen|]. lia.
Qed.

(** X13 at a concrete input. *)
Lemma run_experiments_appends_witness :
  exists recs : list Runner.generation,
    snd (fst (Runner.run_experiments Examples.answering Examples.templates
      Examples.config1 (Some "secret")
      [Examples.question1; Examples.question2]
      [Examples.foreign_record] Examples.world0)) =
      [Examples.foreign_record] ++ recs /\
    length recs = 2%nat.
Proof.
  destruct (run_experiments_appends Examples.answering Examples.templates
    Examples.config1 (Some "secret")
    [Examples.question1; Examples.question2] [Examples.foreign_record]
    (snd (fst (Runner.run_experiments Examples.answering Examples.templates
      Examples.config1 (Some "secret")
      [Examples.question1; Examples.question2]
      [Examples.foreign_record] Examples.world0)))
    Examples.world0
    (snd (Runner.run_experiments Examples.answering Examples.templates
      Examples.config1 (Some "secret")
      [Examples.question1; Examples.question2]
      [Examples.foreign_record] Examples.world0))
    (Some {| Runner.calls_made := 2; Runner.errors := 0 |}))
    as (recs & H1 & H2 & _).
  - vm_compute. reflexivity.
  - exists recs. split; [exact H1 | exact H2].
Defined.

(** X12.  The run raises only before its first call: exactly when work is
    left and the client cannot be built, with [EnvironmentError] for a
    missing or empty key and otherwise [ZeroDivisionError] for a rate
    limit of zero; the store and the world are then as they were. *)
Theorem run_experiments_startup_errors
        (endpoint : nat -> Client.request -> Client.outcome * Q)
        (load_prompt_template : string -> string) (cfg : Runner.config)
        (api_key : option string) (dataset : list Runner.question)
        (store : list Runner.generation) (w : Client.world) :
  let work :=
    Runner.build_work dataset (Runner.cfg_prompts cfg)
      (Runner.cfg_temperatures cfg) (Runner.cfg_num_runs cfg)
      (Runner.get_completed_keys store) in
  let no_key := api_key = None \/ api_key = Some EmptyString in
  exists r store' w',
    Runner.run_experiments endpoint load_prompt_template cfg api_key dataset
                           store w = (r, store', w') /\
    match r with
    | Raise e =>
        store' = store /\ w' = w /\ work <> [] /\
        (no_key /\
         e = EnvironmentError
           "GEMINI_API_KEY not set. Copy .env.example to .env and add your key."
         \/
         ~ no_key /\ Runner.cfg_rate_limit_rpm cfg = 0 /\
         e = ZeroDivisionError "float division by zero")
    | Ret _ => work = [] \/ (~ no_key /\ Runner.cfg_rate_limit_rpm cfg <> 0)
    end.
Proof.
  intros work no_key. unfold Runner.run_experiments. fold work.
  destruct work as [|item work']; 
    [do 3 eexists; split; [reflexivity | left; reflexivity]|].
  cbn [length Nat.eqb]. unfold Client.new_client, no_key.
  destruct api_key as [[|c0 key]|].
  - do 3 eexists. split; [reflexivity|]. repeat split; auto.
  - destruct (Z.eqb_spec (Runner.cfg_rate_limit_rpm cfg) 0) as [E|E].
    + do 3 eexists. split; [reflexivity|].
      repeat split; [discriminate|]. right.
      repeat split; [|exact E]. intros [H|H]; discriminate.
    + destruct (Runner.main_loop _ _ _ _ _ _ _ _) as [[store' errs] w'].
      do 3 eexists. split; [reflexivity|]. right.
      split; [|exact E]. intros [H|H]; discriminate.
  - do 3 eexists. split; [reflexivity|]. repeat split; auto.
Qed.

(** X14.  After any run that returns, a further run over the same dataset
    and configuration makes no call and writes nothing, whatever the
    first run recorded: an item whose call failed is stored with its
    error text and is never tried again. *)
Theorem run_experiments_never_retries
        (endpoint : nat -> Client.request -> Client.outcome * Q)
        (load_prompt_template : string -> string) (cfg : Runner.config)
        (api_key : option string) (dataset : list Runner.question)
        (store store' : list Runner.generation) (w w' : Client.world)
        (rep : option Runner.report) :
  Runner.run_experiments endpoint load_prompt_template cfg api_key dataset
                         store w = (Ret rep, store', w') ->
  forall (endpoint' : nat -> Client.request -> Client.outcome * Q)
         (api_key' : option string) (w2 : Client.world),
    Runner.run_experiments endpoint' load_prompt_template cfg api_key'
                           dataset store' w2 = (Ret None, store', w2).
Proof.
  intros Hrun endpoint' api_key' w2. apply run_returns in Hrun.
  apply run_complete_store. intros k Hk. rewrite Hrun, elem_of_app.
  destruct (decide (k ∈ RunnerSpec.stored_keys store)) as [Hin|Hout];
    [now left | right].
  apply list_elem_of_filter. split; [|exact Hk].
  intros H. now apply Hout, get_completed_keys_elem.
Qed.

(** X14 at a concrete input. *)
Lemma run_experiments_never_retries_witness :
  exists store' w',
    Runner.run_experiments Examples.failing Examples.templates
      Examples.config1 (Some "secret") [Examples.question1] []
      Examples.world0 =
      (Ret (Some {| Runner.calls_made := 1; Runner.errors := 1 |}),
       store', w') /\
    Runner.raw_output <$> store' =
      ["ERROR: API call failed after 3 retries: 503 unavailable"] /\
    Runner.run_experiments Examples.answering Examples.templates
      Examples.config1 (Some "secret") [Examples.question1] store'
      Examples.world0 = (Ret None, store', Examples.world0).
Proof.
  do 2 eexists. split; [vm_compute; reflexivity|].
  split; [reflexivity|].
  eapply (run_experiments_never_retries Examples.failing Examples.templates
            Examples.config1 (Some "secret") [Examples.question1] [] _
            Examples.world0).
  vm_compute. reflexivity.
Defined.

(** ** The numbers of the runner's log *)

Lemma length_bind_const {A B} (f : A -> list B) (n : nat) (l : list A) :
  (forall x, length (f x) = n) -> length (l ≫= f) = (length l * n)%nat.
Proof.
  intros H. induction l as [|x l IH]; [reflexivity|].
  rewrite bind_cons, length_app, H, IH. cbn [length]. lia.
Qed.

Lemma filter_all {A} (P : A -> Prop) `{forall x, Decision (P x)}
      (l : list A) :
  (forall x, P x) -> filter P l = l.
Proof.
  intros HP. induction l as [|x l IH]; [reflexivity|].
  now rewrite filter_cons_True, IH.
Qed.

Lemma length_py_range (a b : Z) : length (py_range a b) = Z.to_nat (b - a).
Proof. unfold py_range. now rewrite length_map, length_seq. Qed.

Section NumberFacts.

Import Runner RunnerSpec Progress.

Lemma length_grid_keys (cfg : config) (dataset : list question) :
  length (grid_keys cfg dataset) =
  (length dataset * (length (cfg_prompts cfg) *
     (length (cfg_temperatures cfg) * Z.to_nat (cfg_num_runs cfg))))%nat.
Proof.
  unfold grid_keys.
  rewrite (length_bind_const _
    (length (cfg_prompts cfg) *
       (length (cfg_temperatures cfg) * Z.to_nat (cfg_num_runs cfg)))),
    length_fmap; [reflexivity|].
  intros id.
  rewrite (length_bind_const _
    (length (cfg_temperatures cfg) * Z.to_nat (cfg_num_runs cfg)));
    [reflexivity|].
  intros p.
  rewrite (length_bind_const _ (Z.to_nat (cfg_num_runs cfg)));
    [reflexivity|].
  intros t.
  rewrite (length_bind_const _ 1%nat), length_py_range; [lia|].
  reflexivity.
Qed.

Lemma get_completed_keys_set (store : list generation) :
  get_completed_keys store = list_to_set (stored_keys store).
Proof.
  apply set_eq. intros k.
  now rewrite get_completed_keys_elem, elem_of_list_to_set.
Qed.

Lemma size_list_to_set_le (l : list key) :
  (size (list_to_set (C := gset key) l) <= length l)%nat.
Proof.
  induction l as [|k l IH]; [now rewrite list_to_set_nil, size_empty|].
  rewrite list_to_set_cons, size_union_alt, size_singleton. cbn [length].
  assert (Hs : list_to_set (C := gset key) l ∖ {[k]} ⊆ list_to_set l).
  { apply subseteq_difference_l. reflexivity. }
  apply subseteq_size in Hs. lia.
Qed.

Lemma size_list_to_set_full (l : list key) :
  size (list_to_set (C := gset key) l) = length l -> NoDup l.
Proof.
  induction l as [|k l IH]; [constructor|].
  rewrite list_to_set_cons. cbn [length]. intros H.
  pose proof (size_list_to_set_le l) as Hle.
  destruct (decide (k ∈ l)) as [Hin|Hout].
  - exfalso.
    assert (E : {[k]} ∪ list_to_set (C := gset key) l = list_to_set l).
    { apply subseteq_union_1_L, singleton_subseteq_l.
      now apply elem_of_list_to_set. }
    rewrite E in H. lia.
  - constructor; [exact Hout|]. apply IH.
    rewrite size_union, size_singleton in H; [lia|].
    apply disjoint_singleton_l. now rewrite elem_of_list_to_set.
Qed.

End NumberFacts.

(** X15.  The two numbers of the line "Work items: remaining out of
    total".  With a run count that is not negative, [total_possible] is
    the size of the grid; the number of remaining items never exceeds
    it, equals it on an empty store, and is the number of grid keys the
    store lacks. *)
Theorem total_possible_is_grid_size (cfg : Runner.config)
        (dataset : list Runner.question) (store : list Runner.generation) :
  0 <= Runner.cfg_num_runs cfg ->
  Progress.total_possible cfg dataset =
    Z.of_nat (length (RunnerSpec.grid_keys cfg dataset)) /\
  Progress.total_remaining cfg dataset store =
    length (filter (fun k => k ∉ RunnerSpec.stored_keys store)
                   (RunnerSpec.grid_keys cfg dataset)) /\
  Z.of_nat (Progress.total_remaining cfg dataset store)
    <= Progress.total_possible cfg dataset /\
  Z.of_nat (Progress.total_remaining cfg dataset []) =
    Progress.total_possible cfg dataset.
Proof.
  intros Hn.
  assert (Hgrid : Progress.total_possible cfg dataset =
                  Z.of_nat (length (RunnerSpec.grid_keys cfg dataset))).
  { rewrite length_grid_keys. unfold Progress.total_possible.
    rewrite !Nat2Z.inj_mul, Z2Nat.id by exact Hn. ring. }
  assert (Hrem : forall st, Progress.total_remaining cfg dataset st =
            length (filter (fun k => k ∉ RunnerSpec.stored_keys st)
                           (RunnerSpec.grid_keys cfg dataset))).
  { intros st. unfold Progress.total_remaining.
    rewrite <- (length_fmap Runner.item_key), build_work_keys.
    f_equal. apply list_filter_iff. intros k.
    now rewrite get_completed_keys_elem. }
  split; [exact Hgrid|]. split; [apply Hrem|]. rewrite Hgrid, !Hrem.
  split.
  - apply inj_le, length_filter.
  - f_equal. f_equal. apply filter_all. intros k.
    apply not_elem_of_nil.
Qed.

(** X15 at a concrete input. *)
Lemma total_possible_is_grid_size_witness :
  Progress.total_possible Examples.config1
    [Examples.question1; Examples.question2; Examples.question3] = 3 /\
  Progress.total_remaining Examples.config1
    [Examples.question1; Examples.question2; Examples.question3] [] = 3%nat.
Proof.
  destruct (total_possible_is_grid_size Examples.config1
    [Examples.question1; Examples.question2; Examples.question3] [])
    as (H1 & H2 & _ & _).
  - cbn. lia.
  - split; [rewrite H1 | rewrite H2]; vm_compute; reflexivity.
Defined.

(** X16.  With a negative run count the grid is empty: no work is left,
    the run returns at once without a client, a call or a write, and
    [total_possible] is not the size of the grid, being negative when
    questions, prompts and temperatures are given. *)
Theorem negative_num_runs_no_work
        (endpoint : nat -> Client.request -> Client.outcome * Q)
        (load_prompt_template : string -> string) (cfg : Runner.config)
        (api_key : option string) (dataset : list Runner.question)
        (store : list Runner.generation) (w : Client.world) :
  Runner.cfg_num_runs cfg < 0 ->
  Progress.total_remaining cfg dataset store = 0%nat /\
  Runner.run_experiments endpoint load_prompt_template cfg api_key dataset
                         store w = (Ret None, store, w) /\
  Progress.total_possible cfg dataset <= 0 /\
  (dataset <> [] -> Runner.cfg_prompts cfg <> [] ->
   Runner.cfg_temperatures cfg <> [] ->
   Progress.total_possible cfg dataset < 0).
Proof.
  intros Hn.
  assert (H0 : Progress.total_remaining cfg dataset store = 0%nat).
  { unfold Progress.total_remaining.
    rewrite <- (length_fmap Runner.item_key), build_work_keys.
    pose proof (length_filter
      (fun k => k ∉ Runner.get_completed_keys store)
      (RunnerSpec.grid_keys cfg dataset)) as H.
    rewrite length_grid_keys in H.
    replace (Z.to_nat (Runner.cfg_num_runs cfg)) with 0%nat in H by lia.
    rewrite !Nat.mul_0_r in H. lia. }
  split; [exact H0|]. split; [|split].
  - unfold Runner.run_experiments. unfold Progress.total_remaining in H0.
    now rewrite H0.
  - unfold Progress.total_possible. nia.
  - intros Hd Hp Ht. unfold Progress.total_possible.
    destruct dataset; [congruence|].
    destruct (Runner.cfg_prompts cfg); [congruence|].
    destruct (Runner.cfg_temperatures cfg); [congruence|].
    cbn [length]. nia.
Qed.

(** X16 at a concrete input. *)
Lemma negative_num_runs_no_work_witness :
  Runner.run_experiments Examples.failing Examples.templates
    Examples.config_negative_runs None [Examples.question1] []
    Examples.world0 = (Ret None, [], Examples.world0) /\
  Progress.total_possible Examples.config_negative_runs
    [Examples.question1] < 0.
Proof.
  destruct (negative_num_runs_no_work Examples.failing Examples.templates
    Examples.config_negative_runs None [Examples.question1] []
    Examples.world0) as (_ & H1 & _ & H2).
  - cbn. lia.
  - split; [exact H1|]. apply H2; discriminate.
Defined.

(** X17.  The number logged as "completed runs" is the size of the resume
    index: it never exceeds the number of stored records and equals it
    exactly when no two records share a key. *)
Theorem get_completed_keys_size (store : list Runner.generation) :
  (size (Runner.get_completed_keys store) <= length store)%nat /\
  (size (Runner.get_completed_keys store) = length store <->
   NoDup (RunnerSpec.stored_keys store)).
Proof.
  rewrite get_completed_keys_set.
  assert (E : length store = length (RunnerSpec.stored_keys store)).
  { unfold RunnerSpec.stored_keys. now rewrite length_fmap. }
  rewrite E. split; [apply size_list_to_set_le|].
  split; [apply size_list_to_set_full | apply size_list_to_set].
Qed.

(** ** The format markers of the prompt *)

Lemma contains_after (m p s : string) :
  Str.contains false m s = true -> Str.contains false m (p +:+ s) = true.
Proof.
  intros H. induction p as [|c p IH]; [now rewrite append_empty_l|].
  rewrite append_cons. cbn [Str.contains].
  now destruct (Str.strip_prefix false m (String c (p +:+ s))).
Qed.

(** X20.  The prompt check of validate.py holds for every template and
    every question: the built prompt holds both format markers. *)
Theorem build_prompt_has_markers (template question : string) :
  Str.contains false "CONFIDENCE:"
    (Runner.build_prompt template question) = true /\
  Str.contains false "ANSWER:"
    (Runner.build_prompt template question) = true.
Proof.
  unfold Runner.build_prompt.
  split; apply contains_after; vm_compute; reflexivity.
Qed.
